(** * The EEG preprocessing notebook: a shallow embedding

    The repository is one notebook, [preprocessing_notebook.ipynb], that
    sequences calls into [meeg_tools] and [mne] and does a little bookkeeping
    of its own: it edits the [settings] mapping, rebinds and copies [Epochs]
    objects, writes the [info] description, saves snapshots, updates a log and
    normalises the time-frequency power by 1/f.

    The notebook's own statements are embedded cell by cell in [Notebook],
    over an explicit store of mutable [Epochs] objects.  The numerical
    procedures it delegates to live in other packages; those whose contract
    the specification spells out are modelled from it (and say so), the
    others are members of the [Collaborators] class.

    The samples of the signal are exact rationals: the procedures that
    work on them are other packages', and what is modelled of them is their
    contract.  The power array of the 1/f cell, whose arithmetic is the
    notebook's own, holds binary64 floating-point numbers.

    The notebook runs under [%matplotlib qt]: its plot windows are
    interactive, and what the user does in them changes the object on
    display.  [Notebook.notebook] lists the cells that compute;
    [Notebook.session] has the plot cells in their places as well, each
    with what the user does in it. *)

From Stdlib Require Import PrimFloat.
From Stdlib Require Import ZArith QArith Qminmax Qround Lia Lqa Reals Qreals Lra.
From stdpp Require Import base option list strings pretty gmap.
From Equations Require Import Equations.

(** ** Errors and results *)

Module Core.

Inductive Error :=
| InsufficientDataError
| IndexError
| KeyError
| TypeError
| ValueError
| NameError.

Inductive Res (A : Type) :=
| Ok (a : A)
| Err (e : Error).
Arguments Ok {A} a.
Arguments Err {A} e.

#[global] Instance Res_ret : MRet Res := fun A a => Ok a.
#[global] Instance Res_bind : MBind Res :=
  fun A B f m => match m with Ok a => f a | Err e => Err e end.

Definition is_ok {A} (r : Res A) : bool :=
  match r with Ok _ => true | Err _ => false end.

(** [o] or, when there is nothing, the exception [e]. *)
Definition or_raise {A} (o : option A) (e : Error) : Res A :=
  match o with Some a => Ok a | None => Err e end.

(** [for i in idx: s = body i s], stopping at the first exception. *)
Fixpoint for_range {S : Type} (idx : list nat) (body : nat -> S -> Res S) (s : S) : Res S :=
  match idx with
  | [] => Ok s
  | i :: rest => s' ← body i s; for_range rest body s'
  end.

(** One multichannel sample: a value per channel. *)
Abbreviation Sample := (list Q).

(** A segment of signal, tagged with the sample offset it was cut at. *)
Record Epoch := { origin : nat; samples : list Sample }.

(** The [info] structure of [mne], as far as the notebook touches it. *)
Record Info := {
  fid : string;
  description : option string;
  bads : list string;
  ch_names : list string
}.

(** An [Epochs] object: the surviving epochs, the rejection records
    (origin of the epoch, reason) and the [info]. *)
Record Epochs := {
  events : list Epoch;
  drop_log : list (nat * string);
  info : Info
}.

Definition set_fid (s : string) (i : Info) : Info :=
  {| fid := s; description := description i; bads := bads i; ch_names := ch_names i |}.
Definition set_description (d : option string) (i : Info) : Info :=
  {| fid := fid i; description := d; bads := bads i; ch_names := ch_names i |}.
Definition set_bads (b : list string) (i : Info) : Info :=
  {| fid := fid i; description := description i; bads := b; ch_names := ch_names i |}.
Definition set_ch_names (c : list string) (i : Info) : Info :=
  {| fid := fid i; description := description i; bads := bads i; ch_names := c |}.

Definition with_info (f : Info -> Info) (X : Epochs) : Epochs :=
  {| events := events X; drop_log := drop_log X; info := f (info X) |}.
Definition with_events (f : list Epoch -> list Epoch) (X : Epochs) : Epochs :=
  {| events := f (events X); drop_log := drop_log X; info := info X |}.
Definition map_samples (f : list Sample -> list Sample) (e : Epoch) : Epoch :=
  {| origin := origin e; samples := f (samples e) |}.

(** The epochs of a set, numbered by position. *)
Definition positions (X : Epochs) : list (nat * Epoch) :=
  zip (seq 0 (length (events X))) (events X).

(** Modelled from the spec: [Epochs.drop] of [mne] is not under src/.
    The epochs at the given positions leave the set and a rejection record
    with the reason is appended to the audit trail for each of them; nothing
    already recorded is touched.  A position past the end is an
    [IndexError]. *)
Definition Epochs_drop (indices : list nat) (reason : string) (X : Epochs) : Res Epochs :=
  if decide (Forall (fun i => i < length (events X)) indices) then
    Ok {| events := (filter (fun p => p.1 ∉ indices) (positions X)).*2;
          drop_log := drop_log X ++
            map (fun p => (origin p.2, reason)) (filter (fun p => p.1 ∈ indices) (positions X));
          info := info X |}
  else Err IndexError.

(** The positions a boolean mask selects ([np.where(mask)[0]]). *)
Definition where_ (mask : list bool) : list nat :=
  (filter (fun p => p.2 = true) (zip (seq 0 (length mask)) mask)).*1.

(** The elements of [l] whose entry in [mask] is [b], in order. *)
Definition select {A} (mask : list bool) (b : bool) (l : list A) : list A :=
  (filter (fun p => p.2 = b) (zip l mask)).*1.

End Core.
Export Core.

(** ** Stage 1: segmentation *)

Module Epoching.

(** [n] as a rational. *)
Definition Qnat (n : nat) : Q := inject_Z (Z.of_nat n).

(** The time, in seconds, that [n] samples take at [rate] samples a
    second. *)
Definition seconds (rate : Q) (n : nat) : Q := (Qnat n / rate)%Q.

(** Modelled from the spec: [create_epochs] of [meeg_tools.utils.epochs] is
    not under src/; the notebook calls it without event markers.  Epochs of
    [dur] seconds tile the signal from time zero: sample [j] is taken at
    time [j / rate], and epoch [k] holds the samples taken from time
    [k * dur] on and before time [(k + 1) * dur].  [boundary dur rate k] is
    the first sample taken at or after time [k * dur]. *)
Definition boundary (dur rate : Q) (k : nat) : nat :=
  Z.to_nat (Qceiling (Qnat k * dur * rate)).

Definition window (dur rate : Q) (sig : list Sample) (k : nat) : Epoch :=
  {| origin := boundary dur rate k;
     samples := take (boundary dur rate (S k) - boundary dur rate k)
                     (drop (boundary dur rate k) sig) |}.

(** The whole epochs the signal has room for; what is left after the last
    of them is discarded. *)
Definition n_epochs (dur rate : Q) (sig : list Sample) : nat :=
  Z.to_nat (Qfloor (seconds rate (length sig) / dur)).

(** Modelled from the spec: Stage 1 fails with [InsufficientDataError] if
    the signal is shorter than one epoch. *)
Definition create_epochs (dur rate : Q) (sig : list Sample) : Res (list Epoch) :=
  if Qlt_le_dec (seconds rate (length sig)) dur then Err InsufficientDataError
  else Ok (map (window dur rate sig) (seq 0 (n_epochs dur rate sig))).

(** The first half of the segmentation property, as the specification
    words it: [floor (L / duration)] epochs, whatever the signal. *)
Definition floor_of_length_epochs (dur rate : Q) (sig : list Sample) : Prop :=
  exists es, create_epochs dur rate sig = Ok es /\
             length es = Z.to_nat (Qfloor (seconds rate (length sig) / dur)).

End Epoching.

(** ** Stage 2: preliminary rejection *)

Module Faster.

Definition Qsum (l : list Q) : Q := foldr Qplus 0%Q l.

Definition Qmean (l : list Q) : Q := (Qsum l / inject_Z (Z.of_nat (length l)))%Q.

Definition Qvariance (l : list Q) : Q :=
  Qmean (map (fun x => (x - Qmean l) * (x - Qmean l))%Q l).

Definition peak_to_peak (l : list Q) : Q :=
  match l with
  | [] => 0%Q
  | x :: t => (foldr Qmax x t - foldr Qmin x t)%Q
  end.

(** Modelled from the spec: the two scalar statistics of an epoch, the
    variance and the peak-to-peak amplitude range, each across all
    channels (the values of all channels taken together). *)
Definition epoch_variance (e : Epoch) : Q := Qvariance (concat (samples e)).

Definition epoch_range (e : Epoch) : Q := peak_to_peak (concat (samples e)).

(** The square of the z-score of [x] in the population [pop]. *)
Definition zscore_sq (pop : list Q) (x : Q) : Q :=
  ((x - Qmean pop) * (x - Qmean pop) / Qvariance pop)%Q.

(** The z-score itself, a real number: the deviation from the population
    mean in units of the population's standard deviation. *)
Definition zscore (pop : list Q) (x : Q) : R :=
  ((Q2R x - Q2R (Qmean pop)) / sqrt (Q2R (Qvariance pop)))%R.

(** Modelled from the spec: the test "z-score magnitude exceeds the
    threshold", [|z| > thr], decided without a square root: for
    [0 <= thr] it is [thr^2 < z^2]; a negative threshold is exceeded by
    every magnitude; where the population has no spread the z-score is
    undefined and exceeds nothing. *)
Definition zscore_exceeds (thr : Q) (pop : list Q) (x : Q) : bool :=
  if Qeq_bool (Qvariance pop) 0 then false
  else if Qlt_le_dec thr 0 then true
  else if Qlt_le_dec (thr * thr) (zscore_sq pop x) then true else false.

(** Modelled from the spec: an epoch is marked when the z-score of either
    statistic, taken across the epoch population, exceeds the threshold. *)
Definition reject_flags (thr : Q) (es : list Epoch) : list bool :=
  map (fun e => zscore_exceeds thr (map epoch_variance es) (epoch_variance e)
                || zscore_exceeds thr (map epoch_range es) (epoch_range e)) es.

(** The reason the rejection records of this stage carry. *)
Definition reason : string := "PRELIMINARY".

(** Modelled from the spec: [prepare_epochs_for_ica] of
    [meeg_tools.preprocessing] is not under src/.  The flagged epochs are
    left out of the result, which is a new set, and recorded in its audit
    trail. *)
Definition prepare_epochs_for_ica (thr : Q) (X : Epochs) : Res Epochs :=
  Epochs_drop (where_ (reject_flags thr (events X))) reason X.

End Faster.

(** ** Stage 4: adaptive threshold rejection *)

Module Autoreject.

(** What [run_autoreject] hands back: the good/bad label of every
    epoch x channel cell, the epochs marked bad as a whole, and the report. *)
Record RejectLog := {
  labels : list (list bool);
  bad_epochs : list bool;
  report : list nat
}.

Definition bad_fraction (row : list bool) : Q :=
  (inject_Z (Z.of_nat (length (filter (fun b => b = true) row)))
   / inject_Z (Z.of_nat (length row)))%Q.

Definition too_many_bad (thr : Q) (row : list bool) : bool :=
  if Qlt_le_dec thr (bad_fraction row) then true else false.

(** Modelled from the spec: the report of [run_autoreject]
    ([meeg_tools.preprocessing], not under src/) lists the epochs whose
    fraction of bad channels exceeds the configured threshold. *)
Definition make_report (thr : Q) (lab : list (list bool)) : list nat :=
  where_ (map (too_many_bad thr) lab).

Inductive Policy := Lenient | Strict.

(** The two statements of the notebook's rejection cell: the one left
    active drops [reject_log.report], the commented one drops
    [reject_log.bad_epochs]. *)
Definition reject (p : Policy) (rl : RejectLog) (X : Epochs) : Res Epochs :=
  match p with
  | Strict => Epochs_drop (report rl) "AUTOREJECT" X
  | Lenient => Epochs_drop (where_ (bad_epochs rl)) "AUTOREJECT" X
  end.

End Autoreject.

(** ** Stage 6: average reference *)

Module Reference.

(** One sample with the mean across its channels subtracted. *)
Definition reference_sample (s : Sample) : Sample :=
  map (fun x => x - Faster.Qmean s)%Q s.

(** Modelled from the spec: [set_eeg_reference('average')] of [mne] is not
    under src/.  At each sample, every channel becomes its deviation from
    the mean across the channels. *)
Definition average_reference (sig : list Sample) : list Sample :=
  map reference_sample sig.

(** Equality of signals, value by value. *)
Definition sig_eq (a b : list Sample) : Prop := Forall2 (Forall2 Qeq) a b.

(** The second half of the re-referencing property, as the specification
    words it. *)
Definition second_application_changes (sig : list Sample) : Prop :=
  ~ sig_eq (average_reference (average_reference sig)) (average_reference sig).

(** A synthetic signal of four samples on two channels. *)
Definition two_channels_four_samples : list Sample :=
  [[1; 3]; [2; 4]; [3; 5]; [4; 7]]%Q.

End Reference.

(** ** The tabular log *)

Module Log.

(** One row per processed [Epochs]: identifier, total and rejected epochs,
    the description (which holds the excluded-component count and the
    interpolated channels) and the notes. *)
Record Row := {
  row_fid : string;
  n_total : nat;
  n_rejected : nat;
  row_description : option string;
  row_notes : string
}.

Definition make_row (X : Epochs) (notes : string) : Row :=
  {| row_fid := fid (info X);
     n_total := length (events X) + length (drop_log X);
     n_rejected := length (drop_log X);
     row_description := description (info X);
     row_notes := notes |}.

(** The row of [r]'s identifier becomes [r]; without one, [r] goes last. *)
Fixpoint upsert (r : Row) (log : list Row) : list Row :=
  match log with
  | [] => [r]
  | r' :: rest =>
      if decide (row_fid r' = row_fid r) then r :: rest else r' :: upsert r rest
  end.

(** Modelled from the spec: [update_log] of [meeg_tools.utils.log] is not
    under src/.  Logging an identifier that has a row updates that row;
    otherwise a row is added at the end. *)
Definition update_log (log : list Row) (X : Epochs) (notes : string) : list Row :=
  upsert (make_row X notes) log.

End Log.

(** ** Time-frequency power and its 1/f normalisation *)

Module Power.

(** [power.data] is indexed channel, frequency, time; [power.freqs] is the
    frequency axis.  Both are arrays of binary64 numbers, and the
    arithmetic on them is that of the machine: [PrimFloat.div] rounds as
    IEEE 754 division does. *)
Record TFR := { data : list (list (list float)); freqs : list float }.

Definition zeros_like (a : list (list (list float))) : list (list (list float)) :=
  map (map (map (fun _ => 0%float))) a.

Definition shape0 (a : list (list (list float))) : nat := length a.

Definition shape1 (a : list (list (list float))) : nat :=
  match a with [] => 0 | r :: _ => length r end.

(** [a[e][f]] *)
Definition getitem2 (a : list (list (list float))) (e f : nat) : Res (list float) :=
  r ← or_raise (a !! e) IndexError; or_raise (r !! f) IndexError.

(** [a[e][f] = v] *)
Definition setitem2 (a : list (list (list float))) (e f : nat) (v : list float)
  : Res (list (list (list float))) :=
  r ← or_raise (a !! e) IndexError;
  _ ← or_raise (r !! f) IndexError;
  Ok (<[e := <[f := v]> r]> a).

(** [power_f_corrected[e][f] = power.data[e][f] / (1/power.freqs[f])] *)
Definition body (p : TFR) (e f : nat) (acc : list (list (list float)))
  : Res (list (list (list float))) :=
  row ← getitem2 (data p) e f;
  fr ← or_raise (freqs p !! f) IndexError;
  setitem2 acc e f (map (fun x => x / (1 / fr))%float row).

Definition power_f_corrected (p : TFR) : Res (list (list (list float))) :=
  for_range (seq 0 (shape0 (data p)))
    (fun e acc => for_range (seq 0 (shape1 (data p))) (fun f acc' => body p e f acc') acc)
    (zeros_like (data p)).

(** The whole cell: the loop, then [power.data = power_f_corrected]. *)
Definition normalize (p : TFR) : Res TFR :=
  out ← power_f_corrected p;
  Ok {| data := out; freqs := freqs p |}.

Definition same_shape (a b : list (list (list float))) : Prop :=
  map (map (@length float)) a = map (map (@length float)) b.

(** The array the loop is meant to build: every row of every channel
    divided by the inverse of its frequency. *)
Definition scale_row (fr : float) (row : list float) : list float :=
  map (fun x => x / (1 / fr))%float row.

Definition corrected (p : TFR) : list (list (list float)) :=
  map (fun ch => zip_with scale_row (freqs p) ch) (data p).

(** The second half of the normalisation property, as the specification
    words it: every value of [p'] is the value of [p] multiplied by its
    frequency. *)
Definition multiplied_by_frequency (p p' : TFR) : Prop :=
  forall e f t ch row x fr,
    data p !! e = Some ch -> ch !! f = Some row -> row !! t = Some x ->
    freqs p !! f = Some fr ->
    exists ch' row',
      data p' !! e = Some ch' /\ ch' !! f = Some row' /\ row' !! t = Some (x * fr)%float.

End Power.

(** ** The notebook, cell by cell *)

Module Notebook.

Import Autoreject Power.

(** A continuous recording: the signal, its sampling rate and its [info]. *)
Record Raw := { signal : list Sample; sfreq : Q; raw_info : Info }.

(** The [ica] object: what it was fitted on and the components to remove. *)
Record Ica := { fitted_on : list Epoch; exclude : list nat }.

Inductive Value :=
| Num (q : Q)
| Str (s : string).

(** The procedures the notebook delegates to and the specification leaves
    opaque.  They are total here: what they compute is not modelled, and
    neither is any exception they may raise.  [array_mean] is the mean
    numpy takes of one row of binary64 numbers; the order in which it adds
    them up, and so its rounding, is numpy's own. *)
Class Collaborators := {
  filter_signal : Q -> Q -> list Sample -> list Sample;
  ica_find_bads : gmap string Value -> list Epoch -> list nat;
  ica_remove : Ica -> list Sample -> list Sample;
  autoreject_fit : gmap string Value -> list Epoch -> list (list bool) * list bool;
  ransac_bad_chs : gmap string Value -> Epochs -> list string;
  interpolate_channels : list string -> list string -> list Sample -> list Sample;
  morlet_power : list float -> Epochs -> list (list (list float));
  array_mean : list float -> float
}.

(** What a run is given from outside: the recording, the values written in
    the configuration cells, the reviewer's choice of components (a function
    of the automatically flagged ones) and the frequency axis. *)
Record Inputs := {
  recording : Raw;
  low_freq : Q;
  high_freq : Q;
  n_components : Q;
  ransac_threshold : Q;
  review : list nat -> list nat;
  tfr_freqs : list float
}.

(** The values the notebook has in its configuration cells. *)
Definition as_written (r : Raw) (rev : list nat -> list nat) (fr : list float) : Inputs :=
  {| recording := r; low_freq := 1; high_freq := 30; n_components := 20;
     ransac_threshold := 5 # 100; review := rev; tfr_freqs := fr |}.

(** Modelled from the spec: the [settings] mapping of [meeg_tools] is not
    under src/; these are the defaults the notebook's outline and the
    specification state. *)
Definition default_settings : gmap string (gmap string Value) :=
  {[ "bandpass_filter" := {[ "low_freq" := Num (5 # 10); "high_freq" := Num 45 ]};
     "epochs" := {[ "duration" := Num 1 ]};
     "preliminary" := {[ "threshold" := Num 3 ]};
     "ica" := {[ "method" := Str "infomax" ]};
     "autoreject" := {[ "threshold" := Num (15 # 100); "subset" := Num (25 # 100) ]};
     "ransac" := {[ "threshold" := Num (5 # 100); "window" := Num 4 ]} ]}.

Inductive PyVal :=
| VRaw (r : Raw)
| VEpochs (l : nat)
| VIca (ica : Ica)
| VRejectLog (rl : RejectLog)
| VRansac (bad_chs : list string)
| VPower (p : TFR)
| VArray (a : list (list float))
| VVector (v : list float)
| VStr (s : string).

(** The collaborator calls of a run, in order, with what they were given. *)
Inductive Event :=
| EvFilterRaw (low high : Q)
| EvCreateEpochs (duration : Q)
| EvPreliminary (thr : Q)
| EvRunIca (n : Q)
| EvIcaApply (n_excluded : nat)
| EvSave (path : string)
| EvUpdateLog (id : string)
| EvRunAutoreject (thr : Q)
| EvDrop (reason : string) (indices : list nat)
| EvRunRansac (thr : Q)
| EvInterpolateBads (chs : list string)
| EvSetEegReference (still_bad : list string)
| EvTfrMorlet.

(** The state of the session: the settings, the store of [Epochs] objects
    with the next free address, the names bound so far, the files written,
    the log and the trace of calls. *)
Record State := {
  settings : gmap string (gmap string Value);
  heap : gmap nat Epochs;
  next : nat;
  vars : gmap string PyVal;
  files : gmap string Epochs;
  log : list Log.Row;
  trace : list Event
}.

Definition init : State :=
  {| settings := default_settings; heap := ∅; next := 0; vars := ∅;
     files := ∅; log := []; trace := [] |}.

Definition set_settings (s : gmap string (gmap string Value)) (st : State) : State :=
  {| settings := s; heap := heap st; next := next st; vars := vars st;
     files := files st; log := log st; trace := trace st |}.

Definition store (l : nat) (X : Epochs) (st : State) : State :=
  {| settings := settings st; heap := <[l := X]> (heap st); next := next st;
     vars := vars st; files := files st; log := log st; trace := trace st |}.

(** A new object: [X] goes to the next free address. *)
Definition alloc (X : Epochs) (st : State) : nat * State :=
  (next st,
   {| settings := settings st; heap := <[next st := X]> (heap st); next := S (next st);
      vars := vars st; files := files st; log := log st; trace := trace st |}).

Definition bind_var (x : string) (v : PyVal) (st : State) : State :=
  {| settings := settings st; heap := heap st; next := next st;
     vars := <[x := v]> (vars st); files := files st; log := log st; trace := trace st |}.

Definition write_file (path : string) (X : Epochs) (st : State) : State :=
  {| settings := settings st; heap := heap st; next := next st; vars := vars st;
     files := <[path := X]> (files st); log := log st; trace := trace st |}.

Definition set_log (lg : list Log.Row) (st : State) : State :=
  {| settings := settings st; heap := heap st; next := next st; vars := vars st;
     files := files st; log := lg; trace := trace st |}.

Definition emit (ev : Event) (st : State) : State :=
  {| settings := settings st; heap := heap st; next := next st; vars := vars st;
     files := files st; log := log st; trace := trace st ++ [ev] |}.

Definition lookup_var (st : State) (x : string) : Res PyVal :=
  or_raise (vars st !! x) NameError.

Definition var_raw (st : State) (x : string) : Res Raw :=
  v ← lookup_var st x; match v with VRaw r => Ok r | _ => Err TypeError end.
Definition var_epochs (st : State) (x : string) : Res nat :=
  v ← lookup_var st x; match v with VEpochs l => Ok l | _ => Err TypeError end.
Definition var_ica (st : State) (x : string) : Res Ica :=
  v ← lookup_var st x; match v with VIca a => Ok a | _ => Err TypeError end.
Definition var_reject_log (st : State) (x : string) : Res RejectLog :=
  v ← lookup_var st x; match v with VRejectLog a => Ok a | _ => Err TypeError end.
Definition var_ransac (st : State) (x : string) : Res (list string) :=
  v ← lookup_var st x; match v with VRansac a => Ok a | _ => Err TypeError end.
Definition var_power (st : State) (x : string) : Res TFR :=
  v ← lookup_var st x; match v with VPower a => Ok a | _ => Err TypeError end.
Definition var_vector (st : State) (x : string) : Res (list float) :=
  v ← lookup_var st x; match v with VVector a => Ok a | _ => Err TypeError end.
Definition var_str (st : State) (x : string) : Res string :=
  v ← lookup_var st x; match v with VStr a => Ok a | _ => Err TypeError end.

Definition deref (st : State) (l : nat) : Res Epochs :=
  or_raise (heap st !! l) NameError.

(** The object a name refers to. *)
Definition object (st : State) (x : string) : Res Epochs :=
  l ← var_epochs st x; deref st l.

(** [settings[k1]] and [settings[k1][k2]] as a number. *)
Definition section (st : State) (k1 : string) : Res (gmap string Value) :=
  or_raise (settings st !! k1) KeyError.
Definition setting_num (st : State) (k1 k2 : string) : Res Q :=
  d ← section st k1;
  v ← or_raise (d !! k2) KeyError;
  match v with Num q => Ok q | Str _ => Err TypeError end.

(** [settings[k1][k2] = v]: a plain store into the nested mapping. *)
Definition assign_setting (k1 k2 : string) (v : Value) (st : State) : Res State :=
  d ← section st k1;
  Ok (set_settings (<[k1 := <[k2 := v]> d]> (settings st)) st).

(** [X.save(os.path.join(epochs_path, f'{X.info["fid"]}{postfix}'), overwrite=True)] *)
Definition epochs_path : string := "/Volumes/crnl-memo-hd/raw_data_EEG/preprocessed/epochs".
Definition postfix : string := "-epo.fif.gz".
Definition file_name (X : Epochs) : string :=
  epochs_path +:+ "/" +:+ fid (info X) +:+ postfix.

(** The save cells: [fid = epochs.info['fid']], then the object bound to
    [x] gets the identifier [fid] with [suffix] and is written out. *)
Definition save_as (x suffix : string) (st : State) : Res State :=
  E ← object st "epochs";
  let st := bind_var "fid" (VStr (fid (info E))) st in
  l ← var_epochs st x;
  X ← deref st l;
  let X' := with_info (set_fid (fid (info E) +:+ suffix)) X in
  let st := store l X' st in
  Ok (emit (EvSave (file_name X')) (write_file (file_name X') X' st)).

(** [update_log(log_file_path, x, notes)] *)
Definition log_cell (x : string) (st : State) : Res State :=
  X ← object st x;
  notes ← var_str st "notes";
  Ok (emit (EvUpdateLog (fid (info X))) (set_log (Log.update_log (log st) X notes) st)).

(** [notes = ''] *)
Definition notes_cell (st : State) : Res State :=
  Ok (bind_var "notes" (VStr "") st).

(** [pick_channels(ch_names, ordered=True)]: the named channels, in the
    order given; a name the data does not have is a [ValueError]. *)
Definition index_of (name : string) (chs : list string) : option nat :=
  fst <$> list_find (fun c => c = name) chs.

Definition pick_sample (idx : list nat) (s : Sample) : option Sample :=
  mapM (fun k => s !! k) idx.

Definition pick_epoch (idx : list nat) (e : Epoch) : option Epoch :=
  smp ← mapM (pick_sample idx) (samples e);
  Some {| origin := origin e; samples := smp |}.

Definition pick_channels (names : list string) (X : Epochs) : Res Epochs :=
  idx ← or_raise (mapM (fun n => index_of n (ch_names (info X))) names) ValueError;
  es ← or_raise (mapM (pick_epoch idx) (events X)) IndexError;
  Ok {| events := es; drop_log := drop_log X; info := set_ch_names names (info X) |}.

Definition channel_order : list string :=
  ["Fp1"; "Fp2"; "F7"; "F3"; "Fz"; "F4"; "F8"; "T7"; "C3"; "Cz";
   "C4"; "T8"; "P7"; "P3"; "Pz"; "P4"; "P8"; "O1"; "Oz"; "O2"].

(** *** The plot windows

    [Raw.plot] and [Epochs.plot] of [mne] are not under src/.  Under
    [%matplotlib qt] their windows are interactive, and the notebook says
    what they are for: "Mark epochs that should be dropped, select
    electrodes that should be interpolated".  When the window of
    [Epochs.plot] is closed, the epochs clicked are dropped from the object
    on display, with the reason [USER], and the channels marked are its
    [info['bads']]; the window of [Raw.plot] marks channels the same way. *)

(** What the user does in one window: the epochs clicked, by position in
    the set on display, and the channels marked when the window is closed,
    given those marked when it opened. *)
Record Look := { clicked : nat -> bool; marks : list string -> list string }.

(** Closing the window without touching it. *)
Definition only_looks : Look := {| clicked := fun _ => false; marks := fun b => b |}.

(** What the user does in the windows of a session: the filtered
    recording, the epochs after the decomposition, after autoreject and
    after RANSAC's fit, and the final inspection. *)
Record User := {
  look_raw : Look;
  look_ica : Look;
  look_autoreject : Look;
  look_ransac : Look;
  look_final : Look
}.

(** The user who only looks, in every window. *)
Definition passive : User :=
  {| look_raw := only_looks; look_ica := only_looks; look_autoreject := only_looks;
     look_ransac := only_looks; look_final := only_looks |}.

(** What closing the window does to the object on display. *)
Definition inspect (lk : Look) (X : Epochs) : Res Epochs :=
  Y ← Epochs_drop (where_ (map (clicked lk) (seq 0 (length (events X))))) "USER" X;
  Ok (with_info (set_bads (marks lk (bads (info Y)))) Y).

(** [x.plot(...)] for a recording [x] *)
Definition plot_raw (x : string) (lk : Look) (st : State) : Res State :=
  r ← var_raw st x;
  let r' := {| signal := signal r; sfreq := sfreq r;
               raw_info := set_bads (marks lk (bads (raw_info r))) (raw_info r) |} in
  Ok (bind_var x (VRaw r') st).

(** [x.plot(...)] for an [Epochs] object [x]: the object itself is updated. *)
Definition plot_epochs (x : string) (lk : Look) (st : State) : Res State :=
  l ← var_epochs st x;
  X ← deref st l;
  Y ← inspect lk X;
  Ok (store l Y st).

Section Cells.

Context `{Collaborators}.
Variable i : Inputs.

(** [raw = read_raw_measurement(...)] *)
Definition cell5 (st : State) : Res State :=
  Ok (bind_var "raw" (VRaw (recording i)) st).

(** [settings['bandpass_filter']['low_freq'] = 1] and ['high_freq'] = 30] *)
Definition cell7 (st : State) : Res State :=
  st ← assign_setting "bandpass_filter" "low_freq" (Num (low_freq i)) st;
  assign_setting "bandpass_filter" "high_freq" (Num (high_freq i)) st.

(** [raw_bandpass = filter_raw(raw)] *)
Definition cell8 (st : State) : Res State :=
  r ← var_raw st "raw";
  lo ← setting_num st "bandpass_filter" "low_freq";
  hi ← setting_num st "bandpass_filter" "high_freq";
  let r' := {| signal := filter_signal lo hi (signal r); sfreq := sfreq r;
               raw_info := raw_info r |} in
  Ok (emit (EvFilterRaw lo hi) (bind_var "raw_bandpass" (VRaw r') st)).

(** [epochs = create_epochs(raw=raw_bandpass)] *)
Definition cell12 (st : State) : Res State :=
  r ← var_raw st "raw_bandpass";
  dur ← setting_num st "epochs" "duration";
  es ← Epoching.create_epochs dur (sfreq r) (signal r);
  let (l, st) := alloc {| events := es; drop_log := []; info := raw_info r |} st in
  Ok (emit (EvCreateEpochs dur) (bind_var "epochs" (VEpochs l) st)).

(** [epochs = epochs.copy().load_data().pick_channels(ch_names, ordered=True)] *)
Definition cell13 (st : State) : Res State :=
  X ← object st "epochs";
  Y ← pick_channels channel_order X;
  let (l, st) := alloc Y st in
  Ok (bind_var "epochs" (VEpochs l) st).

(** [epochs_faster = prepare_epochs_for_ica(epochs=epochs)] *)
Definition cell15 (st : State) : Res State :=
  X ← object st "epochs";
  thr ← setting_num st "preliminary" "threshold";
  Y ← Faster.prepare_epochs_for_ica thr X;
  let (l, st) := alloc Y st in
  Ok (emit (EvPreliminary thr) (bind_var "epochs_faster" (VEpochs l) st)).

(** [settings['ica']['n_components'] = 20] *)
Definition cell17 (st : State) : Res State :=
  assign_setting "ica" "n_components" (Num (n_components i)) st.

(** [ica = run_ica(epochs=epochs_faster)] *)
Definition cell18 (st : State) : Res State :=
  X ← object st "epochs_faster";
  cfg ← section st "ica";
  n ← setting_num st "ica" "n_components";
  let ica := {| fitted_on := events X; exclude := ica_find_bads cfg (events X) |} in
  Ok (emit (EvRunIca n) (bind_var "ica" (VIca ica) st)).

(** [ica.plot_sources(epochs_faster)]: the reviewer settles [ica.exclude]. *)
Definition cell20 (st : State) : Res State :=
  ica ← var_ica st "ica";
  _ ← object st "epochs_faster";
  Ok (bind_var "ica"
        (VIca {| fitted_on := fitted_on ica; exclude := review i (exclude ica) |}) st).

(** [ica.apply(epochs_faster.load_data())]
    [epochs_faster.info['description'] = f'n_components: {len(ica.exclude)}'] *)
Definition cell21 (st : State) : Res State :=
  ica ← var_ica st "ica";
  l ← var_epochs st "epochs_faster";
  X ← deref st l;
  let st := store l (with_events (map (map_samples (ica_remove ica))) X) st in
  let st := emit (EvIcaApply (length (exclude ica))) st in
  l ← var_epochs st "epochs_faster";
  X ← deref st l;
  let d := "n_components: " +:+ pretty (length (exclude ica)) in
  Ok (store l (with_info (set_description (Some d)) X) st).

Definition cell25 : State -> Res State := save_as "epochs_faster" "_ICA".
Definition cell27 : State -> Res State := notes_cell.
Definition cell28 : State -> Res State := log_cell "epochs_faster".

(** [reject_log = run_autoreject(epochs_faster, n_jobs=11, subset=False)] *)
Definition cell30 (st : State) : Res State :=
  X ← object st "epochs_faster";
  cfg ← section st "autoreject";
  thr ← setting_num st "autoreject" "threshold";
  let fit := autoreject_fit cfg (events X) in
  let rl := {| labels := fit.1; bad_epochs := fit.2; report := make_report thr fit.1 |} in
  Ok (emit (EvRunAutoreject thr) (bind_var "reject_log" (VRejectLog rl) st)).

(** [epochs_autoreject = epochs_faster.copy().drop(reject_log.report, reason='AUTOREJECT')] *)
Definition cell31 (st : State) : Res State :=
  X ← object st "epochs_faster";
  rl ← var_reject_log st "reject_log";
  let (l, st) := alloc X st in
  Y ← deref st l;
  Y' ← reject Strict rl Y;
  let st := store l Y' st in
  Ok (emit (EvDrop "AUTOREJECT" (report rl)) (bind_var "epochs_autoreject" (VEpochs l) st)).

Definition cell33 : State -> Res State := save_as "epochs_autoreject" "_ICA_autoreject".
Definition cell34 : State -> Res State := notes_cell.
Definition cell35 : State -> Res State := log_cell "epochs_autoreject".

(** [settings['ransac']['threshold'] = 0.05] *)
Definition cell37 (st : State) : Res State :=
  assign_setting "ransac" "threshold" (Num (ransac_threshold i)) st.

(** [ransac = run_ransac(epochs_autoreject)] *)
Definition cell38 (st : State) : Res State :=
  X ← object st "epochs_autoreject";
  cfg ← section st "ransac";
  thr ← setting_num st "ransac" "threshold";
  Ok (emit (EvRunRansac thr) (bind_var "ransac" (VRansac (ransac_bad_chs cfg X)) st)).

(** [epochs_ransac = epochs_autoreject.copy()]
    [epochs_ransac.info['bads'] = ransac.bad_chs_]
    [bads_str = ', '.join(ransac.bad_chs_)]
    [epochs_ransac.info.update(description=epochs_ransac.info['description'] + ', interpolated: ' + bads_str)]
    [epochs_ransac.interpolate_bads(reset_bads=True)] *)
Definition cell40 (st : State) : Res State :=
  X ← object st "epochs_autoreject";
  let (l, st) := alloc X st in
  let st := bind_var "epochs_ransac" (VEpochs l) st in
  bad ← var_ransac st "ransac";
  Y ← object st "epochs_ransac";
  let st := store l (with_info (set_bads bad) Y) st in
  let bads_str := String.concat ", " bad in
  Y ← object st "epochs_ransac";
  d ← or_raise (description (info Y)) TypeError;
  let st := store l (with_info (set_description (Some (d +:+ ", interpolated: " +:+ bads_str))) Y) st in
  Y ← object st "epochs_ransac";
  let fix_ := interpolate_channels (ch_names (info Y)) (bads (info Y)) in
  let st := emit (EvInterpolateBads (bads (info Y))) st in
  Ok (store l (with_info (set_bads []) (with_events (map (map_samples fix_)) Y)) st).

(** [epochs_ransac.set_eeg_reference('average')] *)
Definition cell46 (st : State) : Res State :=
  l ← var_epochs st "epochs_ransac";
  X ← deref st l;
  let st := emit (EvSetEegReference (bads (info X))) st in
  Ok (store l (with_events (map (map_samples Reference.average_reference)) X) st).

Definition cell47 : State -> Res State := save_as "epochs_ransac" "_ICA_autoreject_ransac".
Definition cell48 : State -> Res State := notes_cell.
Definition cell49 : State -> Res State := log_cell "epochs_ransac".

(** [freqs = np.logspace(...)]: the frequency axis, from 4 to 8 Hz. *)
Definition cell52 (st : State) : Res State :=
  Ok (bind_var "freqs" (VVector (tfr_freqs i)) st).

(** [epochs_ransac.info['bads'] = ['Fp1', 'Fp2']]
    [power, itc = tfr_morlet(epochs_ransac, freqs=freqs, ...)] *)
Definition cell53 (st : State) : Res State :=
  l ← var_epochs st "epochs_ransac";
  X ← deref st l;
  let X' := with_info (set_bads ["Fp1"; "Fp2"]) X in
  let st := store l X' st in
  fr ← var_vector st "freqs";
  let p := {| data := morlet_power fr X'; freqs := fr |} in
  Ok (emit EvTfrMorlet (bind_var "power" (VPower p) st)).

(** The 1/f cell. *)
Definition cell54 (st : State) : Res State :=
  p ← var_power st "power";
  p' ← normalize p;
  Ok (bind_var "power" (VPower p') st).

(** [power_avg_epoch_electrode = power.data.mean(axis=-1)] *)
Definition cell56 (st : State) : Res State :=
  p ← var_power st "power";
  Ok (bind_var "power_avg_epoch_electrode" (VArray (map (map array_mean) (data p))) st).

(** The cells that compute, in the order of the notebook; those that only
    display or plot are left out ([session] has the plot windows). *)
Definition notebook : list (State -> Res State) :=
  [cell5; cell7; cell8; cell12; cell13; cell15; cell17; cell18; cell20; cell21;
   cell25; cell27; cell28; cell30; cell31; cell33; cell34; cell35; cell37; cell38;
   cell40; cell46; cell47; cell48; cell49; cell52; cell53; cell54; cell56].

Fixpoint run_cells (cs : list (State -> Res State)) (st : State) : Res State :=
  match cs with
  | [] => Ok st
  | c :: rest => st' ← c st; run_cells rest st'
  end.

(** The session after the first [n] cells. *)
Definition after (n : nat) : Res State := run_cells (take n notebook) init.

Definition run : Res State := run_cells notebook init.

Variable u : User.

(** [raw_bandpass.plot(scalings={'eeg': 20e-6})] *)
Definition cell9 : State -> Res State := plot_raw "raw_bandpass" (look_raw u).

(** [epochs_faster.plot(n_epochs=10, scalings={'eeg': 20e-6}, title=raw.info['fid'])] *)
Definition cell23 (st : State) : Res State :=
  _ ← var_raw st "raw";
  plot_epochs "epochs_faster" (look_ica u) st.

(** [epochs_autoreject.plot(n_epochs=10, n_channels=32, scalings={'eeg': 20e-6},)] *)
Definition cell32 : State -> Res State := plot_epochs "epochs_autoreject" (look_autoreject u).

(** [epochs_autoreject.plot(...)], after RANSAC has been fitted *)
Definition cell39 : State -> Res State := plot_epochs "epochs_autoreject" (look_ransac u).

(** [epochs_ransac.plot(...)]: the final visual inspection *)
Definition cell43 : State -> Res State := plot_epochs "epochs_ransac" (look_final u).

(** The cells in the order of the notebook, the plot windows among them.
    The component plots are the reviewer's choice in [cell20]; the cells
    left out display a value or draw a figure that takes no input. *)
Definition session : list (State -> Res State) :=
  [cell5; cell7; cell8; cell9; cell12; cell13; cell15; cell17; cell18; cell20; cell21;
   cell23; cell25; cell27; cell28; cell30; cell31; cell32; cell33; cell34; cell35;
   cell37; cell38; cell39; cell40; cell43; cell46; cell47; cell48; cell49; cell52;
   cell53; cell54; cell56].

(** The session after the first [n] cells, plot windows included. *)
Definition upto (n : nat) : Res State := run_cells (take n session) init.

End Cells.

(** Where some cells are in [session]. *)
Definition segmentation_cell : nat := 4.
Definition apply_cell : nat := 10.
Definition interpolation_cell : nat := 24.
Definition reference_cell : nat := 26.

(** The plot windows of [Epochs] objects in [session]. *)
Definition epoch_plots : list nat := [11; 17; 23; 25].

(** The recording plot and the plot windows of [Epochs] objects. *)
Definition plots : list nat := 3 :: epoch_plots.

(** How many of the first [m] cells of [session] are cells of [notebook]:
    those that are not plot windows. *)
Definition computing (m : nat) : nat := m - length (filter (fun k => k < m) plots).

(** The cells of [session] that make a new [Epochs] object out of one
    they are given, and the name of the one they are given. *)
Definition parent (n : nat) : option string :=
  match n with
  | 5 | 6 => Some "epochs"
  | 16 => Some "epochs_faster"
  | 24 => Some "epochs_autoreject"
  | _ => None
  end.

(** How many cells of [notebook] have run when each stage is complete,
    and when the RANSAC threshold has been assigned. *)
Definition stage2 : nat := 6.
Definition stage3 : nat := 10.
Definition stage4 : nat := 15.
Definition ransac_configured : nat := 19.
Definition stage5 : nat := 21.
Definition stage6 : nat := 22.

(** *** Properties of cells and traces *)

Definition not_reference (ev : Event) : Prop := forall b, ev <> EvSetEegReference b.

(** A cell that adds no re-referencing to the trace. *)
Definition quiet (c : State -> Res State) : Prop :=
  forall st st', c st = Ok st' ->
    exists evs, trace st' = trace st ++ evs /\ Forall not_reference evs.

Definition appends (c : State -> Res State) : Prop :=
  forall st st', c st = Ok st' -> exists evs, trace st' = trace st ++ evs.

(** Every re-referencing in the trace found no channel flagged bad and has
    an interpolation before it. *)
Definition reference_guarded (t : list Event) : Prop :=
  forall k still_bad, t !! k = Some (EvSetEegReference still_bad) ->
    still_bad = [] /\ exists j chs, j < k /\ t !! j = Some (EvInterpolateBads chs).

(** Every re-referencing in the trace found flagged the channels [b],
    and no other, and has an interpolation before it. *)
Definition reference_marked (b : list string) (t : list Event) : Prop :=
  forall k still_bad, t !! k = Some (EvSetEegReference still_bad) ->
    still_bad = b /\ exists j chs, j < k /\ t !! j = Some (EvInterpolateBads chs).

(** The ordering property, as the specification words it: in no run is
    the average reference computed before the interpolation or while a
    channel is flagged bad. *)
Definition never_references_flagged `{Collaborators} (i : Inputs) (u : User) : Prop :=
  forall n st, upto i u n = Ok st -> reference_guarded (trace st).

(** Addresses from [next] on are free. *)
Definition wf (st : State) : Prop := forall l, next st <= l -> heap st !! l = None.

Definition preserves_wf (c : State -> Res State) : Prop :=
  forall st st', wf st -> c st = Ok st' -> wf st'.

(** [Y] carries the audit trail of [X], possibly with more at the end. *)
Definition extends_ (X Y : Epochs) : Prop :=
  drop_log X `prefix_of` drop_log Y /\
  (description (info Y) = description (info X) \/
   exists d e, description (info X) = Some d /\ description (info Y) = Some (d +:+ e)).

(** A cell, at position [n] of [session], under which every object keeps
    its rejection records, with records of the user's added at the end by
    a plot window only, and keeps its description unless the cell is the
    one that applies the decomposition. *)
Definition step_trail (n : nat) (c : State -> Res State) : Prop :=
  forall st st', wf st -> c st = Ok st' ->
    forall l X, heap st !! l = Some X ->
      exists X' recs,
        heap st' !! l = Some X' /\ drop_log X' = drop_log X ++ recs /\
        Forall (fun r => r.2 = "USER") recs /\
        (n ∉ epoch_plots -> recs = []) /\
        (n <> apply_cell -> description (info X') = description (info X)).

(** A cell, at position [n] of [session], whose new objects continue the
    audit trail of the object bound to [parent n]. *)
Definition derives_from (n : nat) (c : State -> Res State) : Prop :=
  forall st st', wf st -> c st = Ok st' ->
    forall l Y, heap st !! l = None -> heap st' !! l = Some Y ->
      exists x X, parent n = Some x /\ object st x = Ok X /\ extends_ X Y.

(** No cell has written a description yet: every object and every
    recording still has the one the recording came with. *)
Definition pristine (i : Inputs) (st : State) : Prop :=
  (forall l X, heap st !! l = Some X ->
     description (info X) = description (raw_info (recording i))) /\
  (forall x r, vars st !! x = Some (VRaw r) ->
     description (raw_info r) = description (raw_info (recording i))).

Definition preserves_pristine (i : Inputs) (c : State -> Res State) : Prop :=
  forall st st', pristine i st -> c st = Ok st' -> pristine i st'.

(** The value stored under [settings[k1][k2]]. *)
Definition stored (st : State) (k1 k2 : string) : option Value :=
  d ← settings st !! k1; d !! k2.

(** The configuration is refused before any processing: no collaborator is
    ever called in a run on it. *)
Definition rejected_before_processing `{Collaborators} (i : Inputs) : Prop :=
  forall n st, after i n = Ok st -> trace st = [].

(** Every stage leaves the objects it found as they were. *)
Definition stage_inputs_unchanged `{Collaborators} (i : Inputs) : Prop :=
  forall n m st st' l X,
    after i n = Ok st -> after i (n + m) = Ok st' ->
    heap st !! l = Some X -> heap st' !! l = Some X.

(** The audit trail an object carries: its rejection records and its
    description. *)
Definition annotation (st : State) (x : string) : Res (list (nat * string) * option string) :=
  X ← object st x; Ok (drop_log X, description (info X)).

End Notebook.

(** ** A small session *)

Module Demo.

Import Notebook.

Definition collaborators : Collaborators :=
  {| filter_signal := fun _ _ s => s;
     ica_find_bads := fun _ _ => [0];
     ica_remove := fun _ s => map (map (fun x => x / 2)%Q) s;
     autoreject_fit := fun _ es =>
       (map (fun e => [Nat.eqb (origin e) 2; false]) es, map (fun _ => false) es);
     ransac_bad_chs := fun _ _ => ["Fz"];
     interpolate_channels := fun _ _ s => s;
     morlet_power := fun _ _ => [[[1; 2]; [3; 4]]; [[5; 6]; [7; 8]]]%float;
     array_mean := fun row =>
       (foldr PrimFloat.add 0 row / foldr (fun _ n => n + 1) 0 row)%float |}.

(** Three samples on the twenty channels, one sample a second. *)
Definition recording : Raw :=
  {| signal := map (fun k => repeat (inject_Z (Z.of_nat k)) 20) (seq 0 3);
     sfreq := 1;
     raw_info := {| fid := "s01"; description := None; bads := [];
                    ch_names := channel_order |} |}.

Definition inputs : Inputs := as_written recording (fun a => a ++ [3]) [4; 8]%float.

(** The same session with a negative RANSAC threshold. *)
Definition negative_threshold : Inputs :=
  {| Notebook.recording := recording; low_freq := 1; high_freq := 30; n_components := 20;
     ransac_threshold := -1; review := fun a => a ++ [3]; tfr_freqs := [4; 8]%float |}.

(** A user who, once RANSAC is fitted, drops the first epoch on display
    and marks [Cz], and who marks [Pz] in the final inspection. *)
Definition user : User :=
  {| look_raw := only_looks; look_ica := only_looks; look_autoreject := only_looks;
     look_ransac := {| clicked := fun k => Nat.eqb k 0; marks := fun b => b ++ ["Cz"] |};
     look_final := {| clicked := fun _ => false; marks := fun b => b ++ ["Pz"] |} |}.

Definition power : Power.TFR :=
  {| Power.data := [[[1; 2]; [3; 4]]; [[5; 6]; [7; 8]]]%float; Power.freqs := [4; 8]%float |}.

(** What the counterexamples look at in a session: the object bound to
    [epochs_faster], its description and the first value of its second
    epoch; the RANSAC threshold in force and the trace. *)
Definition faster_object (st : State) : Res (nat * option string * option Q) :=
  l ← var_epochs st "epochs_faster";
  X ← deref st l;
  Ok (l, description (info X),
      e ← events X !! 1; s ← samples e !! 0; s !! 0).

(** The rejection records and the flagged channels of the object bound
    to [x]. *)
Definition records_and_flags (x : string) (st : State)
  : Res (list (nat * string) * list string) :=
  X ← object st x; Ok (drop_log X, bads (info X)).

Definition ransac_view (st : State) : option Value * list Event :=
  (stored st "ransac" "threshold", trace st).

(** Four epochs of one sample on two channels, the last one noisy. *)
Definition noisy : Epochs :=
  {| events := [ {| origin := 0; samples := [[1; 1]]%Q |};
                 {| origin := 1; samples := [[2; 2]]%Q |};
                 {| origin := 2; samples := [[3; 3]]%Q |};
                 {| origin := 3; samples := [[0; 10]]%Q |} ];
     drop_log := [];
     info := {| fid := "s01"; description := None; bads := []; ch_names := ["Fp1"; "Fp2"] |} |}.

Definition epochs : Epochs :=
  {| events := [ {| origin := 0; samples := [[1; 2]]%Q |};
                 {| origin := 1; samples := [[1; 3]]%Q |};
                 {| origin := 2; samples := [[2; 9]]%Q |} ];
     drop_log := [];
     info := {| fid := "s01"; description := None; bads := []; ch_names := ["Fp1"; "Fp2"] |} |}.

End Demo.

(** ** The session as a whole *)

Module Session.

Import Notebook.

(** The entries of [settings] assigned in the cell at position [n] of
    [notebook]. *)
Definition assigned (n : nat) : list (string * string) :=
  match n with
  | 1 => [("bandpass_filter", "low_freq"); ("bandpass_filter", "high_freq")]
  | 6 => [("ica", "n_components")]
  | 18 => [("ransac", "threshold")]
  | _ => []
  end.

(** A cell that leaves the settings as they are. *)
Definition keeps_settings (c : State -> Res State) : Prop :=
  forall st st', c st = Ok st' -> settings st' = settings st.

(** Every name bound to an [Epochs] object refers to an object in the
    store, and no two names refer to the same one. *)
Definition live (st : State) : Prop :=
  forall x l, vars st !! x = Some (VEpochs l) -> is_Some (heap st !! l).

Definition separate (st : State) : Prop :=
  forall x y lx ly, x <> y ->
    vars st !! x = Some (VEpochs lx) -> vars st !! y = Some (VEpochs ly) -> lx <> ly.

Definition sound (st : State) : Prop := wf st /\ live st /\ separate st.

(** The identifier the recording came with. *)
Definition subject (i : Inputs) : string := fid (raw_info (recording i)).

(** Every recording, and the object bound to [epochs], still has the
    recording's identifier. *)
Definition named (i : Inputs) (st : State) : Prop :=
  (forall x r, vars st !! x = Some (VRaw r) -> fid (raw_info r) = subject i) /\
  (forall l X, vars st !! "epochs" = Some (VEpochs l) -> heap st !! l = Some X ->
     fid (info X) = subject i).

(** The file a snapshot with identifier [f] and [suffix] goes to. *)
Definition snapshot (f suffix : string) : string :=
  epochs_path +:+ "/" +:+ (f +:+ suffix) +:+ postfix.

(** [r] returned, and what it returned satisfies [P]. *)
Definition holds {A} (r : Res A) (P : A -> Prop) : Prop :=
  match r with Ok a => P a | Err _ => False end.

(** The object bound to [x] carries the recording's identifier followed
    by [suffix]. *)
Definition carries (i : Inputs) (x suffix : string) (st : State) : Prop :=
  holds (object st x) (fun X => fid (info X) = subject i +:+ suffix).

(** The file of the snapshot with [suffix] is there and holds an object
    with that identifier. *)
Definition on_disk (i : Inputs) (suffix : string) (st : State) : Prop :=
  from_option (fun F => fid (info F) = subject i +:+ suffix) False
    (files st !! snapshot (subject i) suffix).

Definition saved (i : Inputs) (x suffix : string) (st : State) : Prop :=
  carries i x suffix st /\ on_disk i suffix st.


(** The state of a run: names and objects in order, identifiers intact. *)
Definition grounded (i : Inputs) (st : State) : Prop := sound st /\ named i st.

(** The description the ICA cell writes. *)
Definition component_note (ica : Ica) : string :=
  "n_components: " +:+ pretty (length (exclude ica)).

(** The object bound to [x] is described by the component count of the
    decomposition bound to [ica]. *)
Definition described (x : string) (st : State) : Prop :=
  holds (var_ica st "ica") (fun ica =>
    holds (object st x) (fun X => description (info X) = Some (component_note ica))).

(** The object bound to [epochs_ransac] is described by the component
    count followed by the channels RANSAC found bad. *)
Definition described_interpolated (st : State) : Prop :=
  holds (var_ica st "ica") (fun ica =>
  holds (var_ransac st "ransac") (fun bad =>
  holds (object st "epochs_ransac") (fun X =>
    description (info X)
    = Some (component_note ica +:+ ", interpolated: " +:+ String.concat ", " bad)))).

(** The object bound to [y] carries the audit trail of the object bound
    to [x], possibly with more at the end. *)
Definition continues (x y : string) (st : State) : Prop :=
  holds (object st x) (fun X => holds (object st y) (fun Y => extends_ X Y)).

(** The channels marked bad on the object bound to [x]. *)
Definition marked (x : string) (chs : list string) (st : State) : Prop :=
  holds (object st x) (fun X => bads (info X) = chs).

(** The last snapshot is on disk and has the channels [chs] marked bad. *)
Definition final_file_marked (i : Inputs) (chs : list string) (st : State) : Prop :=
  from_option (fun F => bads (info F) = chs) False
    (files st !! snapshot (subject i) "_ICA_autoreject_ransac").

End Session.

(** * Proofs *)

Import Epoching Faster Autoreject Reference Log Power Notebook.

(** ** Lists and loops *)

Lemma is_ok_Ok {A} (r : Res A) : is_ok r = true -> exists a, r = Ok a.
Proof. destruct r as [a|e]; [eauto | discriminate]. Qed.

Lemma bind_Ok {A B} (f : A -> B) (r : Res A) (a : A) (b : B) :
  r = Ok a -> (x ← r; Ok (f x)) = Ok b -> f a = b.
Proof. intros -> Hb. injection Hb as Hb. exact Hb. Qed.

Lemma map_lookup {A B} (f : A -> B) (l : list A) (k : nat) :
  map f l !! k = f <$> l !! k.
Proof. apply (list_lookup_fmap f l k). Qed.

Lemma for_range_app {S : Type} (a b : list nat) (body : nat -> S -> Res S) (s : S) :
  for_range (a ++ b) body s = s' ← for_range a body s; for_range b body s'.
Proof.
  revert s. induction a as [|x a IH]; intros s; simpl; [reflexivity|].
  destruct (body x s) as [s1|e]; simpl; [apply IH | reflexivity].
Qed.

(** A loop over [0 .. n) whose state after [k] rounds is [f k]. *)
Lemma for_range_closed_form {S : Type} (body : nat -> S -> Res S) (f : nat -> S) (n : nat) :
  (forall k, k < n -> body k (f k) = Ok (f (Datatypes.S k))) ->
  for_range (seq 0 n) body (f 0) = Ok (f n).
Proof.
  induction n as [|n IH]; intros Hstep; [reflexivity|].
  rewrite seq_S, for_range_app, IH by (intros; apply Hstep; lia).
  simpl. rewrite Hstep by lia. reflexivity.
Qed.

Lemma insert_take_drop_step {A} (l1 l2 : list A) (k : nat) (v : A) :
  l1 !! k = Some v -> length l1 = length l2 ->
  <[k := v]> (take k l1 ++ drop k l2) = take (S k) l1 ++ drop (S k) l2.
Proof.
  intros Hv Hlen.
  assert (k < length l1) as Hk by (eapply lookup_lt_Some; eauto).
  destruct (lookup_lt_is_Some_2 l2 k) as [w Hw]; [lia|].
  rewrite (take_S_r _ _ _ Hv), (drop_S _ _ _ Hw), <- app_assoc. simpl.
  rewrite insert_app_r_alt by (rewrite length_take; lia).
  rewrite length_take, Nat.min_l, Nat.sub_diag by lia. reflexivity.
Qed.

(** ** The 1/f normalisation *)


Lemma inner_loop (p : TFR) (e : nat) (ch r : list (list float))
    (acc : list (list (list float))) :
  data p !! e = Some ch -> length (freqs p) = length ch ->
  acc !! e = Some r -> length r = length ch ->
  for_range (seq 0 (length ch)) (fun f acc' => body p e f acc') acc
  = Ok (<[e := zip_with scale_row (freqs p) ch]> acc).
Proof.
  intros Hch Hfr Hr Hlen.
  set (full := zip_with scale_row (freqs p) ch).
  assert (length full = length ch) as Hfull
    by (unfold full; rewrite length_zip_with; lia).
  pose (st := fun k => <[e := take k full ++ drop k r]> acc).
  assert (acc = st 0) as E0.
  { unfold st. rewrite take_0, drop_0. simpl. symmetry. apply list_insert_id, Hr. }
  assert (<[e := full]> acc = st (length ch)) as En.
  { unfold st. rewrite <- Hfull at 1. rewrite firstn_all, drop_ge, app_nil_r by lia.
    reflexivity. }
  rewrite En, E0 at 1. apply for_range_closed_form. intros k Hk.
  destruct (lookup_lt_is_Some_2 ch k) as [row Hrow]; [lia|].
  destruct (lookup_lt_is_Some_2 (freqs p) k) as [fr Hf]; [lia|].
  assert (full !! k = Some (scale_row fr row)) as Hfk.
  { unfold full. rewrite lookup_zip_with, Hf, Hrow. reflexivity. }
  assert (e < length acc) as He by (eapply lookup_lt_Some; eauto).
  unfold body, getitem2, setitem2. rewrite Hch. simpl. rewrite Hrow. simpl.
  rewrite Hf. simpl. unfold st at 1 2. rewrite list_lookup_insert_eq by exact He. simpl.
  destruct (lookup_lt_is_Some_2 (take k full ++ drop k r) k) as [w Hw].
  { rewrite length_app, length_take, length_drop. lia. }
  rewrite Hw. simpl. unfold st. rewrite list_insert_insert_eq.
  f_equal. f_equal. apply insert_take_drop_step; [exact Hfk | lia].
Qed.

Lemma power_f_corrected_eq (p : TFR) (nf : nat) :
  Forall (fun ch => length ch = nf) (data p) -> length (freqs p) = nf ->
  power_f_corrected p = Ok (corrected p).
Proof.
  intros Hrect Hfr. unfold power_f_corrected, shape0.
  pose (st := fun m => take m (corrected p) ++ drop m (zeros_like (data p))).
  assert (length (corrected p) = length (data p)) as Hlc
    by (unfold corrected; apply length_map).
  assert (length (zeros_like (data p)) = length (data p)) as Hlz
    by (unfold zeros_like; apply length_map).
  assert (zeros_like (data p) = st 0) as E0 by reflexivity.
  assert (corrected p = st (length (data p))) as En.
  { unfold st. rewrite <- Hlc at 1. rewrite firstn_all, drop_ge, app_nil_r by lia.
    reflexivity. }
  rewrite En, E0 at 1. apply for_range_closed_form. intros m Hm.
  destruct (lookup_lt_is_Some_2 (data p) m) as [ch Hch]; [lia|].
  assert (length ch = nf) as Hlch
    by (eapply (proj1 (Forall_lookup _ _) Hrect); eauto).
  assert (shape1 (data p) = length ch) as ->.
  { destruct (data p) as [|c0 rest]; [simpl in Hm; lia|].
    simpl. inversion Hrect; subst. lia. }
  assert (zeros_like (data p) !! m = Some (map (map (fun _ => 0%float)) ch)) as Hz.
  { unfold zeros_like. rewrite list_lookup_fmap, Hch. reflexivity. }
  assert (st m !! m = Some (map (map (fun _ => 0%float)) ch)) as Hsm.
  { unfold st. rewrite lookup_app_r by (rewrite length_take; lia).
    rewrite length_take, Nat.min_l, Nat.sub_diag, lookup_drop, Nat.add_0_r by lia.
    exact Hz. }
  rewrite (inner_loop p m ch _ (st m) Hch) by (try exact Hsm; rewrite ?length_map; lia).
  f_equal. unfold st. apply insert_take_drop_step; [|lia].
  unfold corrected. rewrite list_lookup_fmap, Hch. reflexivity.
Qed.

Lemma corrected_shape (p : TFR) :
  Forall (fun ch => length ch = length (freqs p)) (data p) ->
  same_shape (corrected p) (data p).
Proof.
  intros Hrect. unfold same_shape, corrected.
  rewrite map_map. apply map_ext_Forall.
  eapply Forall_impl; [exact Hrect|]. intros ch Hch. simpl in *.
  apply list_eq. intros k. rewrite !list_lookup_fmap, lookup_zip_with.
  destruct (ch !! k) as [row|] eqn:Hrow; simpl.
  - destruct (lookup_lt_is_Some_2 (freqs p) k) as [fr Hf].
    { apply lookup_lt_Some in Hrow. lia. }
    rewrite Hf. simpl. unfold scale_row. rewrite length_map. reflexivity.
  - destruct (freqs p !! k); reflexivity.
Qed.

(** C10, as amended: on a power array whose channels all have one row
    per frequency, the normalisation cell returns; the new power has the
    frequency axis it had and an array of the same shape; the value at
    channel [e], frequency [f], time [t] is the binary64 quotient of the
    old one by the binary64 quotient [1 / freqs[f]], whatever the
    frequency. *)
Theorem one_over_f_normalization (p : TFR) :
  Forall (fun ch => length ch = length (freqs p)) (data p) ->
  exists p',
    normalize p = Ok p' /\
    freqs p' = freqs p /\
    same_shape (data p') (data p) /\
    forall e f t ch row x fr,
      data p !! e = Some ch -> ch !! f = Some row -> row !! t = Some x ->
      freqs p !! f = Some fr ->
      exists ch' row',
        data p' !! e = Some ch' /\ ch' !! f = Some row' /\
        row' !! t = Some (x / (1 / fr))%float.
Proof.
  intros Hrect.
  exists {| data := corrected p; freqs := freqs p |}.
  unfold normalize. rewrite (power_f_corrected_eq p (length (freqs p))) by auto.
  simpl. split; [reflexivity|]. split; [reflexivity|]. split.
  - apply corrected_shape, Hrect.
  - intros e f t ch row x fr Hch Hrow Hx Hf.
    exists (zip_with scale_row (freqs p) ch), (scale_row fr row).
    split; [unfold corrected; rewrite list_lookup_fmap, Hch; reflexivity|].
    split; [rewrite lookup_zip_with, Hf, Hrow; reflexivity|].
    unfold scale_row. rewrite list_lookup_fmap, Hx. reflexivity.
Qed.

Lemma one_over_f_normalization_witness :
  Forall (fun ch => length ch = length (freqs Demo.power)) (data Demo.power) /\
  exists p', normalize Demo.power = Ok p' /\ freqs p' = [4; 8]%float /\
             same_shape (data p') (data Demo.power).
Proof.
  assert (Forall (fun ch => length ch = length (freqs Demo.power)) (data Demo.power))
    as Hrect by (repeat constructor).
  split; [exact Hrect|].
  destruct (one_over_f_normalization Demo.power Hrect) as (p' & Hp & Hf & Hs & _).
  exists p'. split; [exact Hp|]. split; [exact Hf | exact Hs].
Defined.

Lemma float_neq (a b : float) : PrimFloat.eqb a a = true -> PrimFloat.eqb a b = false -> a <> b.
Proof. intros Ha Hb E. rewrite <- E in Hb. congruence. Qed.

(** One value of power 1 at 49 Hz: divided by [1 / 49] it is the next
    binary64 number after 49 (49.000000000000007), not 49. *)
Lemma quotient_is_not_the_product :
  normalize {| data := [[[1]]]; freqs := [49] |}%float
    = Ok {| data := [[[0x1.8800000000001p+5]]]; freqs := [49] |}%float /\
  ~ multiplied_by_frequency
      {| data := [[[1]]]; freqs := [49] |}%float
      {| data := [[[0x1.8800000000001p+5]]]; freqs := [49] |}%float.
Proof.
  split; [vm_compute; reflexivity|].
  intros Hclaim.
  destruct (Hclaim 0 0 0 [[1]]%float [1]%float 1%float 49%float eq_refl eq_refl eq_refl eq_refl)
    as (ch' & row' & Hch & Hrow & Hx).
  simpl in Hch. assert (ch' = [[0x1.8800000000001p+5]]%float) as -> by congruence.
  simpl in Hrow. assert (row' = [0x1.8800000000001p+5]%float) as -> by congruence.
  simpl in Hx.
  assert (0x1.8800000000001p+5 = 1 * 49)%float as E by congruence.
  revert E. apply float_neq; vm_compute; reflexivity.
Qed.

(** ** Segmentation *)

Lemma Qnat_le (a b : nat) : (Qnat a <= Qnat b)%Q <-> a <= b.
Proof. unfold Qnat. rewrite <- Zle_Qle. lia. Qed.

Lemma Qnat_S (k : nat) : (Qnat (S k) == Qnat k + 1)%Q.
Proof. unfold Qnat. rewrite Nat2Z.inj_succ. unfold Z.succ. rewrite inject_Z_plus. reflexivity. Qed.

Lemma Qnat_mul (a b : nat) : (Qnat (a * b) == Qnat a * Qnat b)%Q.
Proof. unfold Qnat. rewrite Nat2Z.inj_mul, inject_Z_mult. reflexivity. Qed.

Lemma Qnat_sub (a b : nat) : b <= a -> (Qnat (a - b) == Qnat a - Qnat b)%Q.
Proof.
  intros Hle. unfold Qnat. rewrite Nat2Z.inj_sub by exact Hle.
  unfold Z.sub. rewrite inject_Z_plus, inject_Z_opp. reflexivity.
Qed.

Lemma Qnat_nonneg (n : nat) : (0 <= Qnat n)%Q.
Proof. change 0%Q with (Qnat 0). apply Qnat_le. lia. Qed.

Lemma Qceiling_le_iff (x : Q) (z : Z) : (Qceiling x <= z)%Z <-> (x <= inject_Z z)%Q.
Proof.
  split; intros Hle.
  - apply Qle_trans with (inject_Z (Qceiling x)); [apply Qle_ceiling|].
    rewrite <- Zle_Qle. exact Hle.
  - rewrite <- (Qceiling_Z z). apply Qceiling_resp_le, Hle.
Qed.

Lemma Qfloor_le_iff (x : Q) (z : Z) : (z <= Qfloor x)%Z <-> (inject_Z z <= x)%Q.
Proof.
  split; intros Hle.
  - apply Qle_trans with (inject_Z (Qfloor x)); [|apply Qfloor_le].
    rewrite <- Zle_Qle. exact Hle.
  - rewrite <- (Qfloor_Z z). apply Qfloor_resp_le, Hle.
Qed.

Lemma Qfloor_unique (x : Q) (z : Z) :
  (inject_Z z <= x)%Q -> (x < inject_Z (z + 1))%Q -> Qfloor x = z.
Proof.
  intros Hle Hlt. apply Qfloor_le_iff in Hle.
  destruct (Z_le_gt_dec (z + 1) (Qfloor x)) as [Hge|Hgt]; [|lia].
  apply Qfloor_le_iff in Hge. exfalso. exact (Qlt_not_le _ _ Hlt Hge).
Qed.

(** Sample [j] is at or after the start of window [k]. *)
Lemma boundary_le (dur rate : Q) (k j : nat) :
  boundary dur rate k <= j <-> (Qnat k * dur * rate <= Qnat j)%Q.
Proof.
  unfold boundary. change (Qnat j) with (inject_Z (Z.of_nat j)).
  rewrite <- Qceiling_le_iff. lia.
Qed.

Lemma boundary_gt (dur rate : Q) (k j : nat) :
  j < boundary dur rate k <-> (Qnat j < Qnat k * dur * rate)%Q.
Proof.
  split; intros Hlt.
  - apply Qnot_le_lt. intros Hle. apply boundary_le in Hle. lia.
  - destruct (Nat.lt_ge_cases j (boundary dur rate k)) as [Hj|Hj]; [exact Hj|].
    apply boundary_le in Hj. exfalso. exact (Qlt_not_le _ _ Hlt Hj).
Qed.

Lemma boundary_0 (dur rate : Q) : boundary dur rate 0 = 0.
Proof.
  unfold boundary. rewrite (Qceiling_comp _ (inject_Z 0)), Qceiling_Z; [reflexivity|].
  unfold Qnat. simpl. ring.
Qed.

Lemma boundary_step (dur rate : Q) (k : nat) :
  (Qnat (S k) * dur * rate == Qnat k * dur * rate + dur * rate)%Q.
Proof. rewrite Qnat_S. ring. Qed.

Lemma boundary_mono (dur rate : Q) (k : nat) :
  (0 < dur)%Q -> (0 < rate)%Q -> boundary dur rate k <= boundary dur rate (S k).
Proof.
  intros Hd Hr. apply boundary_le.
  assert (Qnat (S k) * dur * rate <= Qnat (boundary dur rate (S k)))%Q as Hle
    by (apply boundary_le; lia).
  rewrite boundary_step in Hle. pose proof (Qmult_lt_0_compat _ _ Hd Hr) as Hs.
  revert Hle Hs. generalize (Qnat k * dur * rate)%Q, (dur * rate)%Q,
    (Qnat (boundary dur rate (S k))).
  intros a s c Hle Hs. Lqa.lra.
Qed.

Lemma boundary_monotone (dur rate : Q) (k m : nat) :
  (0 < dur)%Q -> (0 < rate)%Q -> k <= m -> boundary dur rate k <= boundary dur rate m.
Proof.
  intros Hd Hr Hkm. induction Hkm as [|m _ IH]; [lia|].
  pose proof (boundary_mono dur rate m Hd Hr). lia.
Qed.

Lemma seconds_scaled (rate : Q) (j : nat) :
  (0 < rate)%Q -> (seconds rate j * rate == Qnat j)%Q.
Proof. intros Hr. unfold seconds. field. Lqa.lra. Qed.

(** The samples of window [k] are those taken in its [dur] seconds. *)
Lemma window_in_time (dur rate : Q) (k j : nat) :
  (0 < rate)%Q ->
  boundary dur rate k <= j < boundary dur rate (S k) <->
  (Qnat k * dur <= seconds rate j /\ seconds rate j < Qnat (S k) * dur)%Q.
Proof.
  intros Hr. rewrite boundary_le, boundary_gt, <- !(seconds_scaled rate j Hr).
  rewrite Qmult_le_r, Qmult_lt_r by exact Hr. reflexivity.
Qed.

Lemma ratio_nonneg (dur rate : Q) (n : nat) :
  (0 < dur)%Q -> (0 < rate)%Q -> (0 <= seconds rate n / dur)%Q.
Proof.
  intros Hd Hr. apply Qle_shift_div_l; [exact Hd|]. rewrite Qmult_0_l.
  apply Qle_shift_div_l; [exact Hr|]. rewrite Qmult_0_l. apply Qnat_nonneg.
Qed.

Lemma ratio_scaled (dur rate : Q) (n : nat) :
  (0 < dur)%Q -> (0 < rate)%Q -> (seconds rate n / dur * dur * rate == Qnat n)%Q.
Proof. intros Hd Hr. unfold seconds. field. split; Lqa.lra. Qed.

Lemma n_epochs_floor (dur rate : Q) (sig : list Sample) :
  (0 < dur)%Q -> (0 < rate)%Q ->
  Qnat (n_epochs dur rate sig) = inject_Z (Qfloor (seconds rate (length sig) / dur)).
Proof.
  intros Hd Hr. unfold n_epochs, Qnat. rewrite Z2Nat.id; [reflexivity|].
  apply Qfloor_le_iff, ratio_nonneg; assumption.
Qed.

(** The whole windows fit in the signal. *)
Lemma span_fits (dur rate : Q) (sig : list Sample) :
  (0 < dur)%Q -> (0 < rate)%Q ->
  boundary dur rate (n_epochs dur rate sig) <= length sig.
Proof.
  intros Hd Hr. apply boundary_le.
  rewrite n_epochs_floor, <- (ratio_scaled dur rate (length sig)) by assumption.
  rewrite !Qmult_le_r by assumption. apply Qfloor_le.
Qed.

(** What is left after the last whole window is shorter than one. *)
Lemma remainder_short (dur rate : Q) (sig : list Sample) :
  (0 < dur)%Q -> (0 < rate)%Q ->
  (seconds rate (length sig - boundary dur rate (n_epochs dur rate sig)) < dur)%Q.
Proof.
  intros Hd Hr. set (n := n_epochs dur rate sig).
  apply (Qmult_lt_r _ _ rate Hr). rewrite seconds_scaled by exact Hr.
  rewrite Qnat_sub by (apply span_fits; assumption).
  assert (Qnat n * dur * rate <= Qnat (boundary dur rate n))%Q as Hb
    by (apply boundary_le; lia).
  assert (Qnat (length sig) < (Qnat n + 1) * dur * rate)%Q as Hn.
  { rewrite <- (ratio_scaled dur rate (length sig)) by assumption.
    rewrite !Qmult_lt_r by assumption. unfold n. rewrite n_epochs_floor by assumption.
    rewrite <- (inject_Z_plus _ 1). apply Qlt_floor. }
  revert Hb Hn. generalize (Qnat (boundary dur rate n)), (Qnat (length sig)).
  intros c N Hb Hn.
  assert ((Qnat n + 1) * dur * rate == Qnat n * dur * rate + dur * rate)%Q as E by ring.
  rewrite E in Hn. revert Hb Hn. generalize (Qnat n * dur * rate)%Q.
  intros a Hb Hn. Lqa.lra.
Qed.

Lemma windows_concat (dur rate : Q) (sig : list Sample) (n : nat) :
  (0 < dur)%Q -> (0 < rate)%Q ->
  concat (map samples (map (window dur rate sig) (seq 0 n))) = take (boundary dur rate n) sig.
Proof.
  intros Hd Hr. induction n as [|n IH]; [rewrite boundary_0; reflexivity|].
  rewrite seq_S, !map_app, concat_app, IH. simpl.
  rewrite app_nil_r, take_take_drop. f_equal.
  pose proof (boundary_mono dur rate n Hd Hr). lia.
Qed.

(** An epoch that is a whole number [d] of samples long: window [k]
    starts at sample [k * d], and the signal has room for [L / d] of them. *)
Lemma whole_samples (dur rate : Q) (d : nat) (sig : list Sample) :
  (0 < dur)%Q -> (0 < rate)%Q -> (dur * rate == Qnat d)%Q ->
  n_epochs dur rate sig = length sig / d /\ forall k, boundary dur rate k = k * d.
Proof.
  intros Hd Hr Hs.
  assert (0 < d) as Hpos.
  { destruct d as [|d]; [|lia]. pose proof (Qmult_lt_0_compat _ _ Hd Hr) as H0.
    rewrite Hs in H0. exfalso. exact (Qlt_irrefl _ H0). }
  split.
  - unfold n_epochs. rewrite (Qfloor_unique _ (Z.of_nat (length sig / d))); [lia| |].
    + apply Qle_shift_div_l; [exact Hd|]. apply Qle_shift_div_l; [exact Hr|].
      rewrite <- Qmult_assoc, Hs. fold (Qnat (length sig / d)). rewrite <- Qnat_mul.
      apply Qnat_le. rewrite Nat.mul_comm. apply Nat.Div0.mul_div_le.
    + apply Qlt_shift_div_r; [exact Hd|]. apply Qlt_shift_div_r; [exact Hr|].
      rewrite <- Qmult_assoc, Hs.
      change (inject_Z (Z.of_nat (length sig / d) + 1)) with
        (inject_Z (Z.of_nat (length sig / d) + Z.of_nat 1)).
      rewrite <- Nat2Z.inj_add. fold (Qnat (length sig / d + 1)). rewrite <- Qnat_mul.
      unfold Qnat. rewrite <- Zlt_Qlt. apply Nat2Z.inj_lt.
      pose proof (Nat.div_mod_eq (length sig) d) as Hdm.
      pose proof (Nat.mod_upper_bound (length sig) d) as Hub. nia.
  - intros k. unfold boundary.
    rewrite (Qceiling_comp _ (inject_Z (Z.of_nat (k * d)))), Qceiling_Z; [lia|].
    rewrite <- Qmult_assoc, Hs. fold (Qnat (k * d)). symmetry. apply Qnat_mul.
Qed.

(** C1, as amended: for an epoch of [dur > 0] seconds and a signal that
    lasts [L] seconds at [rate > 0] samples a second.  When [L >= dur],
    segmentation returns [floor (L / dur)] epochs; the [k]-th starts at the
    first sample taken at or after time [k * dur] and holds the samples up
    to the start of the next, which are exactly the samples taken in its
    [dur] seconds, so the epochs neither overlap nor leave a gap; the first
    starts at sample 0; together the epochs are the signal up to the start
    of the window after the last, and what is left out at the end lasts
    less than [dur]; when [dur] is a whole number [d] of samples, the
    [k]-th epoch starts at sample [k * d] and there are [N / d] of them for
    [N] samples.  When [L < dur], segmentation fails with
    [InsufficientDataError]. *)
Theorem segmentation_tiles (dur rate : Q) (sig : list Sample) :
  (0 < dur)%Q -> (0 < rate)%Q ->
  let L := seconds rate (length sig) in
  let n := Z.to_nat (Qfloor (L / dur)) in
  let b := boundary dur rate in
  ((dur <= L)%Q ->
     exists es,
       create_epochs dur rate sig = Ok es /\
       length es = n /\
       (forall k, k < n ->
          es !! k = Some {| origin := b k; samples := take (b (S k) - b k) (drop (b k) sig) |}) /\
       (forall k e, es !! k = Some e -> length (samples e) = b (S k) - b k) /\
       b 0 = 0 /\
       (forall k, b k <= b (S k)) /\
       (forall k j, b k <= j < b (S k) <->
          (Qnat k * dur <= seconds rate j /\ seconds rate j < Qnat (S k) * dur)%Q) /\
       b n <= length sig /\
       concat (map samples es) = take (b n) sig /\
       (seconds rate (length sig - b n) < dur)%Q /\
       (forall d, (dur * rate == Qnat d)%Q ->
          n = length sig / d /\ forall k, b k = k * d)) /\
  ((L < dur)%Q -> create_epochs dur rate sig = Err InsufficientDataError).
Proof.
  intros Hd Hr L n b.
  assert (forall k, k <= n -> b k <= length sig) as Hfit.
  { intros k Hk. pose proof (boundary_monotone dur rate k n Hd Hr Hk).
    pose proof (span_fits dur rate sig Hd Hr). unfold b, n, L, n_epochs in *. lia. }
  split.
  - intros Hle. exists (map (window dur rate sig) (seq 0 n)).
    split.
    { unfold create_epochs. destruct (Qlt_le_dec _ _) as [Hlt|_]; [|reflexivity].
      exfalso. exact (Qlt_not_le _ _ Hlt Hle). }
    split; [rewrite length_map, length_seq; reflexivity|].
    split.
    { intros k Hk. rewrite map_lookup, lookup_seq_lt by exact Hk. reflexivity. }
    split.
    { intros k e He. rewrite map_lookup in He.
      destruct (seq 0 n !! k) as [j|] eqn:Hj; [|discriminate].
      apply lookup_seq in Hj as [-> Hk]. simpl in He. injection He as <-. simpl.
      rewrite length_take, length_drop.
      pose proof (Hfit (S k) Hk). unfold b in *. lia. }
    split; [apply boundary_0|].
    split; [intros k; apply boundary_mono; assumption|].
    split; [intros k j; apply window_in_time; exact Hr|].
    split; [apply span_fits; assumption|].
    split; [apply windows_concat; assumption|].
    split; [apply remainder_short; assumption|].
    intros d Hs. exact (whole_samples dur rate d sig Hd Hr Hs).
  - intros Hlt. unfold create_epochs. destruct (Qlt_le_dec _ _) as [_|Hle]; [reflexivity|].
    exfalso. exact (Qlt_not_le _ _ Hlt Hle).
Qed.

Lemma segmentation_tiles_witness :
  (0 < 3 # 2)%Q /\ (0 < 1)%Q /\
  (3 # 2 <= seconds 1 (length [[1]; [2]; [3]; [4]; [5]]%Q))%Q /\
  exists es,
    create_epochs (3 # 2) 1 [[1]; [2]; [3]; [4]; [5]]%Q = Ok es /\
    length es = 3 /\
    es !! 1 = Some {| origin := 2; samples := [[3]]%Q |}.
Proof.
  assert (0 < 3 # 2)%Q as Hd by reflexivity.
  assert (0 < 1)%Q as Hr by reflexivity.
  assert (3 # 2 <= seconds 1 (length [[1]; [2]; [3]; [4]; [5]]%Q))%Q as Hle
    by (vm_compute; discriminate).
  split; [exact Hd|]. split; [exact Hr|]. split; [exact Hle|].
  destruct (proj1 (segmentation_tiles (3 # 2) 1 [[1]; [2]; [3]; [4]; [5]]%Q Hd Hr) Hle)
    as (es & Hes & Hlen & Hk & _).
  exists es. split; [exact Hes|]. split; [exact Hlen|].
  exact (Hk 1 ltac:(vm_compute; lia)).
Defined.

(** One sample at one sample a second, cut into epochs of two seconds: no
    epoch set comes back, the stage fails. *)
Lemma short_signal_is_refused :
  (0 < 2)%Q /\ (0 < 1)%Q /\
  create_epochs 2 1 [[1%Q]] = Err InsufficientDataError /\
  ~ floor_of_length_epochs 2 1 [[1%Q]].
Proof.
  split; [reflexivity|]. split; [reflexivity|]. split; [reflexivity|].
  intros (es & Hes & _). vm_compute in Hes. discriminate Hes.
Qed.

(** ** The log *)



Lemma upsert_ids_absent (r : Row) (log : list Row) :
  row_fid r ∉ map row_fid log -> map row_fid (upsert r log) = map row_fid log ++ [row_fid r].
Proof.
  induction log as [|x log IH]; simpl; intros Hin; [reflexivity|].
  apply not_elem_of_cons in Hin as [Hne Hin].
  rewrite decide_False by congruence. simpl. f_equal. apply IH, Hin.
Qed.



(** ** Average reference *)

Lemma inject_nat_succ (n : nat) :
  (inject_Z (Z.of_nat (S n)) == 1 + inject_Z (Z.of_nat n))%Q.
Proof. rewrite Nat2Z.inj_succ, <- Z.add_1_l, inject_Z_plus. reflexivity. Qed.

Lemma inject_nat_nonzero (n : nat) : 0 < n -> ~ (inject_Z (Z.of_nat n) == 0)%Q.
Proof.
  intros Hn Heq. unfold Qeq in Heq. simpl in Heq. lia.
Qed.

Lemma Qsum_shift (m : Q) (s : list Q) :
  (Qsum (map (fun x => x - m) s) == Qsum s - inject_Z (Z.of_nat (length s)) * m)%Q.
Proof.
  induction s as [|x s IH].
  - simpl. change (inject_Z (Z.of_nat 0)) with 0%Q. ring.
  - change (Qsum (map (fun x => x - m) (x :: s)))%Q
      with (x - m + Qsum (map (fun x => x - m) s))%Q.
    change (Qsum (x :: s)) with (x + Qsum s)%Q.
    change (length (x :: s)) with (S (length s)).
    rewrite IH, inject_nat_succ. ring.
Qed.

(** After re-referencing, the mean across the channels is zero. *)
Lemma referenced_mean_zero (s : Sample) : (Qmean (reference_sample s) == 0)%Q.
Proof.
  unfold reference_sample, Qmean at 1. rewrite Qsum_shift, length_map.
  destruct s as [|x s]; [reflexivity|].
  unfold Qmean. set (n := inject_Z (Z.of_nat (length (x :: s)))).
  assert (~ (n == 0)%Q) as Hn by (apply inject_nat_nonzero; simpl; lia).
  field. exact Hn.
Qed.

Lemma subtract_zero (m : Q) (r : list Q) :
  (m == 0)%Q -> Forall2 Qeq (map (fun x => x - m)%Q r) r.
Proof.
  intros Hm. induction r as [|x r IH]; simpl; constructor; [|exact IH].
  rewrite Hm. ring.
Qed.

Lemma reference_sample_idempotent (s : Sample) :
  Forall2 Qeq (reference_sample (reference_sample s)) (reference_sample s).
Proof.
  unfold reference_sample at 1. apply subtract_zero, referenced_mean_zero.
Qed.

Lemma average_reference_idempotent (sig : list Sample) :
  sig_eq (average_reference (average_reference sig)) (average_reference sig).
Proof.
  unfold sig_eq, average_reference.
  induction sig as [|s sig IH]; simpl; constructor;
    [apply reference_sample_idempotent | exact IH].
Qed.


(** C4, as amended: one application turns the value of every channel at
    every sample into its deviation from the mean across the channels at
    that sample, and keeps the number of samples; a second application
    changes nothing, value by value. *)
Theorem average_reference_once_and_twice (sig : list Sample) :
  (forall t c s x, sig !! t = Some s -> s !! c = Some x ->
     exists s', average_reference sig !! t = Some s' /\
                s' !! c = Some (x - Qsum s / inject_Z (Z.of_nat (length s)))%Q) /\
  length (average_reference sig) = length sig /\
  sig_eq (average_reference (average_reference sig)) (average_reference sig).
Proof.
  split; [|split].
  - intros t c s x Hs Hx. exists (reference_sample s). split.
    + unfold average_reference. rewrite map_lookup.
      rewrite Hs. reflexivity.
    + unfold reference_sample. rewrite map_lookup, Hx. reflexivity.
  - apply length_map.
  - apply average_reference_idempotent.
Qed.

Lemma average_reference_once_and_twice_witness :
  exists s',
    average_reference two_channels_four_samples !! 0 = Some s' /\
    s' !! 1 = Some (3 - (1 + (3 + 0)) / inject_Z (Z.of_nat 2))%Q.
Proof.
  exact (proj1 (average_reference_once_and_twice two_channels_four_samples)
           0 1 [1; 3]%Q 3%Q eq_refl eq_refl).
Defined.

(** On the synthetic signal the second application gives back what the
    first gave. *)
Lemma second_application_changes_nothing :
  sig_eq (average_reference (average_reference two_channels_four_samples))
         (average_reference two_channels_four_samples) /\
  ~ second_application_changes two_channels_four_samples.
Proof.
  assert (sig_eq (average_reference (average_reference two_channels_four_samples))
                 (average_reference two_channels_four_samples)) as Hsame
    by (vm_compute; repeat constructor).
  split; [exact Hsame|]. intros Hchg. exact (Hchg Hsame).
Qed.

(** ** Masks, positions and [Epochs_drop] *)

Lemma elem_of_where (mask : list bool) (k : nat) :
  k ∈ where_ mask <-> mask !! k = Some true.
Proof.
  unfold where_. rewrite list_elem_of_fmap. split.
  - intros ([j b] & -> & Hin). apply list_elem_of_filter in Hin as [Hb Hin].
    simpl in *. subst b. apply list_elem_of_lookup in Hin as [n Hn].
    apply lookup_zip_with_Some in Hn as (j' & b' & Heq & Hj & Hb).
    injection Heq as <- <-. apply lookup_seq in Hj as [-> _]. exact Hb.
  - intros Hk. exists (k, true). split; [reflexivity|].
    apply list_elem_of_filter. split; [reflexivity|].
    apply list_elem_of_lookup. exists k.
    apply lookup_zip_with_Some. exists k, true. split; [reflexivity|].
    split; [|exact Hk]. apply lookup_seq. split; [reflexivity|].
    eapply lookup_lt_Some, Hk.
Qed.

Lemma where_in_range (mask : list bool) : Forall (fun k => k < length mask) (where_ mask).
Proof.
  apply Forall_forall. intros k Hk. apply elem_of_where in Hk.
  eapply lookup_lt_Some, Hk.
Qed.

(** Filtering the numbered elements by their entry in the mask is
    selecting by the mask. *)
Lemma filter_positions {A} (mask : list bool) (b : bool) (l : list A) (off : nat) :
  off + length l <= length mask ->
  (filter (fun p => mask !! p.1 = Some b) (zip (seq off (length l)) l)).*2
  = select (drop off mask) b l.
Proof.
  revert off. induction l as [|x l IH]; intros off Hlen; [reflexivity|].
  simpl in Hlen. destruct (lookup_lt_is_Some_2 mask off) as [m Hm]; [lia|].
  rewrite (drop_S _ _ _ Hm). unfold select. simpl.
  rewrite !filter_cons. simpl.
  specialize (IH (S off)). unfold select in IH.
  destruct (decide (mask !! off = Some b)) as [Hb|Hb];
    destruct (decide (m = b)) as [Hmb|Hmb]; try congruence.
  - simpl. f_equal. apply IH. lia.
  - apply IH. lia.
Qed.

Lemma filter_positions_0 {A} (mask : list bool) (b : bool) (l : list A) :
  length mask = length l ->
  (filter (fun p => mask !! p.1 = Some b) (zip (seq 0 (length l)) l)).*2 = select mask b l.
Proof. intros Hlen. apply (filter_positions mask b l 0). simpl. lia. Qed.

Lemma filter_iff_in {A} (P Q : A -> Prop)
    `{!forall x, Decision (P x), !forall x, Decision (Q x)} (l : list A) :
  (forall x, x ∈ l -> P x <-> Q x) -> filter P l = filter Q l.
Proof.
  induction l as [|x l IH]; intros Hiff; [reflexivity|].
  rewrite !filter_cons.
  assert (P x <-> Q x) as Hx by (apply Hiff, list_elem_of_here).
  rewrite IH by (intros y Hy; apply Hiff, list_elem_of_further, Hy).
  destruct (decide (P x)), (decide (Q x)); tauto || reflexivity.
Qed.

Lemma select_length {A} (mask : list bool) (l : list A) :
  length (select mask false l) + length (select mask true l) = length (zip l mask).
Proof.
  unfold select. rewrite !length_fmap.
  induction (zip l mask) as [|[x b] z IH]; [reflexivity|].
  rewrite !filter_cons. simpl.
  destruct b; repeat (destruct (decide _)); try congruence; simpl; lia.
Qed.

Lemma elem_of_select {A} (mask : list bool) (b : bool) (l : list A) (x : A) :
  x ∈ select mask b l <-> exists k, l !! k = Some x /\ mask !! k = Some b.
Proof.
  unfold select. rewrite list_elem_of_fmap. split.
  - intros ([y c] & -> & Hin). apply list_elem_of_filter in Hin as [Hc Hin].
    simpl in *. subst c. apply list_elem_of_lookup in Hin as [k Hk].
    apply lookup_zip_with_Some in Hk as (y' & c' & Heq & Hy & Hc).
    injection Heq as <- <-. eauto.
  - intros (k & Hx & Hb). exists (x, b). split; [reflexivity|].
    apply list_elem_of_filter. split; [reflexivity|].
    apply list_elem_of_lookup. exists k.
    apply lookup_zip_with_Some. eauto.
Qed.

Lemma Epochs_drop_where (mask : list bool) (r : string) (X : Epochs) :
  length mask = length (events X) ->
  Epochs_drop (where_ mask) r X
  = Ok {| events := select mask false (events X);
          drop_log := drop_log X ++ map (fun e => (origin e, r)) (select mask true (events X));
          info := info X |}.
Proof.
  intros Hlen. unfold Epochs_drop.
  destruct (decide _) as [_|Hout].
  2: { exfalso. apply Hout. rewrite <- Hlen. apply where_in_range. }
  assert (forall p : nat * Epoch, p ∈ positions X -> p.1 < length mask) as Hpos.
  { intros [k e] Hin. apply list_elem_of_lookup in Hin as [n Hn].
    apply lookup_zip_with_Some in Hn as (k' & e' & Heq & Hk & He).
    injection Heq as <- <-. apply lookup_seq in Hk as [-> Hk]. simpl. lia. }
  f_equal. f_equal.
  - rewrite <- (filter_positions_0 mask false (events X) Hlen).
    f_equal. apply filter_iff_in. intros p Hp.
    rewrite elem_of_where. specialize (Hpos p Hp).
    destruct (lookup_lt_is_Some_2 mask p.1 Hpos) as [[] Hm]; rewrite Hm; split; congruence.
  - f_equal.
    rewrite <- (filter_positions_0 mask true (events X) Hlen).
    change (map ?f ?l) with (f <$> l).
    rewrite <- !list_fmap_compose.
    f_equal. apply list_filter_iff. intros p. apply elem_of_where.
Qed.

(** ** z-scores *)

Lemma Qsum_nonneg (l : list Q) : Forall (fun x => 0 <= x)%Q l -> (0 <= Qsum l)%Q.
Proof.
  induction 1 as [|x l Hx _ IH]; simpl; [apply Qle_refl|].
  change 0%Q with (0 + 0)%Q. apply Qplus_le_compat; assumption.
Qed.

Lemma Qsquare_nonneg (a : Q) : (0 <= a * a)%Q.
Proof. unfold Qle, Qmult. simpl. nia. Qed.

Lemma Qvariance_nonneg (l : list Q) : (0 <= Qvariance l)%Q.
Proof.
  unfold Qvariance, Qmean at 1. apply Qmult_le_0_compat.
  - apply Qsum_nonneg, Forall_forall. intros y Hy.
    apply list_elem_of_In, in_map_iff in Hy as (x & <- & _).
    apply Qsquare_nonneg.
  - apply Qinv_le_0_compat. rewrite length_map.
    change 0%Q with (inject_Z 0). rewrite <- Zle_Qle. lia.
Qed.

Lemma zscore_exceeds_iff (thr : Q) (pop : list Q) (x : Q) :
  zscore_exceeds thr pop x = true <->
  ~ (Qvariance pop == 0)%Q /\ (thr < 0 \/ thr * thr < zscore_sq pop x)%Q.
Proof.
  unfold zscore_exceeds.
  destruct (Qeq_bool (Qvariance pop) 0) eqn:Hv.
  - apply Qeq_bool_iff in Hv. split; [discriminate | tauto].
  - assert (~ (Qvariance pop == 0)%Q) as Hne.
    { intros Heq. apply Qeq_bool_iff in Heq. congruence. }
    destruct (Qlt_le_dec thr 0) as [Hneg|Hpos]; [tauto|].
    destruct (Qlt_le_dec (thr * thr) (zscore_sq pop x)) as [Hlt|Hge]; [tauto|].
    split; [discriminate|]. intros [_ [Hneg|Hlt]]; exfalso.
    + apply (Qlt_not_le _ _ Hneg), Hpos.
    + apply (Qlt_not_le _ _ Hlt), Hge.
Qed.

Lemma zscore_sq_real (pop : list Q) (x : Q) :
  ~ (Qvariance pop == 0)%Q -> Q2R (zscore_sq pop x) = Rsqr (zscore pop x).
Proof.
  intros Hne.
  assert (0 < Q2R (Qvariance pop))%R as Hv.
  { replace 0%R with (Q2R 0) by lra. apply Qlt_Rlt.
    destruct (Qle_lt_or_eq _ _ (Qvariance_nonneg pop)) as [Hlt|Heq];
      [exact Hlt | exfalso; apply Hne; symmetry; exact Heq]. }
  unfold zscore_sq, zscore, Rsqr.
  rewrite Q2R_div, Q2R_mult, Q2R_minus by exact Hne.
  set (dev := (Q2R x - Q2R (Qmean pop))%R).
  pose proof (sqrt_lt_R0 _ Hv) as Hs.
  rewrite <- (sqrt_sqrt (Q2R (Qvariance pop))) at 1 by lra.
  field. lra.
Qed.

(** The executable test decides [|z| > thr] for the real z-score. *)
Lemma zscore_exceeds_real (thr : Q) (pop : list Q) (x : Q) :
  ~ (Qvariance pop == 0)%Q ->
  zscore_exceeds thr pop x = true <-> (Q2R thr < Rabs (zscore pop x))%R.
Proof.
  intros Hne. rewrite zscore_exceeds_iff.
  pose proof (Rabs_pos (zscore pop x)) as Habs.
  split.
  - intros [_ [Hneg|Hlt]].
    + apply Qlt_Rlt in Hneg. replace (Q2R 0) with 0%R in Hneg by lra. lra.
    + apply Qlt_Rlt in Hlt. rewrite Q2R_mult, zscore_sq_real in Hlt by exact Hne.
      destruct (Rlt_le_dec (Q2R thr) 0) as [Hn|Hp]; [lra|].
      apply Rsqr_lt_abs_0 in Hlt. rewrite (Rabs_right (Q2R thr)) in Hlt by lra.
      exact Hlt.
  - intros Hlt. split; [exact Hne|].
    destruct (Qlt_le_dec thr 0) as [Hn|Hp]; [left; exact Hn | right].
    apply Rlt_Qlt. rewrite Q2R_mult, zscore_sq_real by exact Hne.
    apply Rsqr_lt_abs_1. rewrite (Rabs_right (Q2R thr)); [exact Hlt|].
    apply Qle_Rle in Hp. replace (Q2R 0) with 0%R in Hp by lra. lra.
Qed.

(** ** The two statistics *)

Lemma Qmax_cases (a b : Q) : Qmax a b = a \/ Qmax a b = b.
Proof. unfold Qmax, GenericMinMax.gmax. destruct (a ?= b)%Q; auto. Qed.

Lemma Qmin_cases (a b : Q) : Qmin a b = a \/ Qmin a b = b.
Proof. unfold Qmin, GenericMinMax.gmin. destruct (a ?= b)%Q; auto. Qed.

Lemma foldr_Qmax_in (x : Q) (t : list Q) : foldr Qmax x t ∈ x :: t.
Proof.
  induction t as [|a t IH]; simpl; [apply list_elem_of_here|].
  destruct (Qmax_cases a (foldr Qmax x t)) as [-> | ->].
  - apply list_elem_of_further, list_elem_of_here.
  - apply elem_of_cons in IH as [-> | IH]; [apply list_elem_of_here|].
    do 2 apply list_elem_of_further. exact IH.
Qed.

Lemma foldr_Qmin_in (x : Q) (t : list Q) : foldr Qmin x t ∈ x :: t.
Proof.
  induction t as [|a t IH]; simpl; [apply list_elem_of_here|].
  destruct (Qmin_cases a (foldr Qmin x t)) as [-> | ->].
  - apply list_elem_of_further, list_elem_of_here.
  - apply elem_of_cons in IH as [-> | IH]; [apply list_elem_of_here|].
    do 2 apply list_elem_of_further. exact IH.
Qed.

Lemma foldr_Qmax_upper (x : Q) (t : list Q) (y : Q) :
  y ∈ x :: t -> (y <= foldr Qmax x t)%Q.
Proof.
  induction t as [|a t IH]; simpl; intros Hy.
  - apply elem_of_cons in Hy as [-> | Hy]; [apply Qle_refl | inversion Hy].
  - apply elem_of_cons in Hy as [-> | Hy].
    + eapply Qle_trans; [apply IH, list_elem_of_here | apply Q.le_max_r].
    + apply elem_of_cons in Hy as [-> | Hy]; [apply Q.le_max_l|].
      eapply Qle_trans; [apply IH, list_elem_of_further, Hy | apply Q.le_max_r].
Qed.

Lemma foldr_Qmin_lower (x : Q) (t : list Q) (y : Q) :
  y ∈ x :: t -> (foldr Qmin x t <= y)%Q.
Proof.
  induction t as [|a t IH]; simpl; intros Hy.
  - apply elem_of_cons in Hy as [-> | Hy]; [apply Qle_refl | inversion Hy].
  - apply elem_of_cons in Hy as [-> | Hy].
    + eapply Qle_trans; [apply Q.le_min_r | apply IH, list_elem_of_here].
    + apply elem_of_cons in Hy as [-> | Hy]; [apply Q.le_min_l|].
      eapply Qle_trans; [apply Q.le_min_r | apply IH, list_elem_of_further, Hy].
Qed.

(** The amplitude range is the largest value minus the smallest. *)
Lemma peak_to_peak_spec (l : list Q) :
  l <> [] ->
  exists lo hi, lo ∈ l /\ hi ∈ l /\ (forall x, x ∈ l -> (lo <= x /\ x <= hi)%Q) /\
                peak_to_peak l = (hi - lo)%Q.
Proof.
  destruct l as [|x t]; [congruence|]. intros _.
  exists (foldr Qmin x t), (foldr Qmax x t).
  split; [apply foldr_Qmin_in|]. split; [apply foldr_Qmax_in|].
  split; [|reflexivity].
  intros y Hy. split; [apply foldr_Qmin_lower | apply foldr_Qmax_upper]; exact Hy.
Qed.

Lemma length_nonzero {A} (l : list A) : l <> [] -> ~ (Qnat (length l) == 0)%Q.
Proof.
  intros Hne E. destruct l as [|x t]; [congruence|].
  unfold Qnat, Qeq in E. simpl in E. lia.
Qed.

(** The mean times the number of values is their sum. *)
Lemma Qmean_total (l : list Q) : l <> [] -> (Qmean l * Qnat (length l) == Qsum l)%Q.
Proof.
  intros Hne. unfold Qmean. fold (Qnat (length l)). field.
  apply length_nonzero, Hne.
Qed.

(** The variance times the number of values is the sum of the squared
    deviations from the mean. *)
Lemma Qvariance_total (l : list Q) :
  l <> [] ->
  (Qvariance l * Qnat (length l)
   == Qsum (map (fun x => (x - Qmean l) * (x - Qmean l)) l))%Q.
Proof.
  intros Hne. unfold Qvariance.
  rewrite <- (length_map (fun x => (x - Qmean l) * (x - Qmean l))%Q l) at 1.
  apply Qmean_total. destruct l; [congruence | discriminate].
Qed.

Lemma Qsum_zero (l : list Q) :
  Forall (fun x => 0 <= x)%Q l -> (Qsum l == 0)%Q -> Forall (fun x => x == 0)%Q l.
Proof.
  induction 1 as [|x l Hx Hl IH]; simpl; intros Hs; [constructor|].
  pose proof (Qsum_nonneg l Hl) as Hn.
  constructor; [Lqa.lra | apply IH; Lqa.lra].
Qed.

Lemma Qsum_squares_zero (m : Q) (l : list Q) :
  (forall x, x ∈ l -> (x == m)%Q) ->
  (Qsum (map (fun x => (x - m) * (x - m)) l) == 0)%Q.
Proof.
  induction l as [|x t IH]; intros Hm; simpl; [reflexivity|].
  rewrite IH by (intros y Hy; apply Hm, list_elem_of_further, Hy).
  rewrite (Hm x) by apply list_elem_of_here. ring.
Qed.

(** No spread: every value is the mean. *)
Lemma Qvariance_zero (l : list Q) :
  (Qvariance l == 0)%Q <-> forall x, x ∈ l -> (x == Qmean l)%Q.
Proof.
  destruct (decide (l = [])) as [->|Hne].
  { split; [intros _ x Hx; inversion Hx | intros _; reflexivity]. }
  pose proof (Qvariance_total l Hne) as Ht.
  pose proof (length_nonzero l Hne) as Hn.
  split.
  - intros Hv x Hx. rewrite Hv, Qmult_0_l in Ht. symmetry in Ht.
    apply Qsum_zero in Ht.
    + assert (((x - Qmean l) * (x - Qmean l))%Q ∈
                map (fun x => (x - Qmean l) * (x - Qmean l))%Q l) as Hin.
      { apply list_elem_of_In, in_map_iff. exists x. split; [reflexivity|].
        apply list_elem_of_In, Hx. }
      pose proof (proj1 (Forall_forall _ _) Ht _ Hin) as Hz. simpl in Hz.
      apply Qmult_integral in Hz. destruct Hz; Lqa.lra.
    + apply Forall_forall. intros y Hy.
      apply list_elem_of_In, in_map_iff in Hy as (z & <- & _). apply Qsquare_nonneg.
  - intros Hall. rewrite (Qsum_squares_zero _ _ Hall) in Ht. apply Qmult_integral in Ht. destruct Ht as [Ht|Ht]; [exact Ht|].
    exfalso. exact (Hn Ht).
Qed.

(** ** Rejection stages *)


(** C2: preliminary rejection returns; the epochs it keeps are those not
    marked, in order; a rejection record is added to the audit trail for
    each marked one and nothing else about the set changes; kept and
    marked together are all the epochs; an epoch is marked when the
    z-score of its variance or of its amplitude range across the
    population exceeds the threshold, which is decided as [|z| > thr] for
    the real z-score wherever the population has a spread, and never
    where it has none; the threshold is 3 unless configured.  The
    amplitude range of an epoch is its largest value minus its smallest,
    over all channels; its variance times the number of its values is the
    sum of their squared deviations from their mean, and the mean times
    that number is their sum; the variance is zero exactly when all the
    values are the same. *)
Theorem preliminary_rejection (thr : Q) (X : Epochs) :
  stored init "preliminary" "threshold" = Some (Num 3) /\
  (exists Y,
    prepare_epochs_for_ica thr X = Ok Y /\
    events Y = select (reject_flags thr (events X)) false (events X) /\
    drop_log Y = drop_log X ++
      map (fun e => (origin e, reason)) (select (reject_flags thr (events X)) true (events X)) /\
    info Y = info X /\
    length (events Y) + length (select (reject_flags thr (events X)) true (events X))
      = length (events X) /\
    (forall k e, events X !! k = Some e ->
       reject_flags thr (events X) !! k
       = Some (zscore_exceeds thr (map epoch_variance (events X)) (epoch_variance e)
               || zscore_exceeds thr (map epoch_range (events X)) (epoch_range e))) /\
    (forall pop x, ~ (Qvariance pop == 0)%Q ->
       zscore_exceeds thr pop x = true <-> (Q2R thr < Rabs (zscore pop x))%R) /\
    (forall pop x, (Qvariance pop == 0)%Q -> zscore_exceeds thr pop x = false)) /\
  (forall e, concat (samples e) <> [] ->
     exists lo hi,
       lo ∈ concat (samples e) /\ hi ∈ concat (samples e) /\
       (forall x, x ∈ concat (samples e) -> (lo <= x /\ x <= hi)%Q) /\
       epoch_range e = (hi - lo)%Q) /\
  (forall e, concat (samples e) <> [] ->
     let v := concat (samples e) in
     (Qmean v * Qnat (length v) == Qsum v)%Q /\
     (epoch_variance e * Qnat (length v)
      == Qsum (map (fun x => (x - Qmean v) * (x - Qmean v)) v))%Q) /\
  (forall e, (epoch_variance e == 0)%Q <->
     forall x, x ∈ concat (samples e) -> (x == Qmean (concat (samples e)))%Q).
Proof.
  assert (length (reject_flags thr (events X)) = length (events X)) as Hlen
    by (unfold reject_flags; apply length_map).
  split; [reflexivity|]. split; [|split; [|split]].
  - eexists. split; [apply Epochs_drop_where, Hlen|]. simpl.
    split; [reflexivity|]. split; [reflexivity|]. split; [reflexivity|].
    split; [|split; [|split]].
    + rewrite select_length, length_zip_with. lia.
    + intros k e He. unfold reject_flags. rewrite map_lookup, He. reflexivity.
    + intros pop x. apply zscore_exceeds_real.
    + intros pop x Hv. unfold zscore_exceeds.
      apply Qeq_bool_iff in Hv. rewrite Hv. reflexivity.
  - intros e Hne. apply peak_to_peak_spec, Hne.
  - intros e Hne v. split; [apply Qmean_total, Hne | apply Qvariance_total, Hne].
  - intros e. apply Qvariance_zero.
Qed.

(** With a threshold of 1, the noisy epoch of the four is rejected and
    recorded: its variance is 25 and its range 10, those of the others
    are 0. *)
Lemma preliminary_rejection_witness :
  exists Y,
    prepare_epochs_for_ica 1 Demo.noisy = Ok Y /\
    map origin (events Y) = [0; 1; 2] /\
    drop_log Y = [(3, "PRELIMINARY")] /\
    Forall2 Qeq (map epoch_variance (events Demo.noisy)) [0; 0; 0; 25]%Q /\
    Forall2 Qeq (map epoch_range (events Demo.noisy)) [0; 0; 0; 10]%Q.
Proof.
  destruct (preliminary_rejection 1 Demo.noisy)
    as (_ & (Y & HY & Hev & Hlog & _) & _).
  exists Y. split; [exact HY|].
  split; [rewrite Hev; vm_compute; reflexivity|].
  split; [rewrite Hlog; vm_compute; reflexivity|].
  split; vm_compute; repeat constructor.
Defined.

Lemma too_many_bad_iff (thr : Q) (row : list bool) :
  too_many_bad thr row = true <-> (thr < bad_fraction row)%Q.
Proof.
  unfold too_many_bad. destruct (Qlt_le_dec thr (bad_fraction row)) as [Hlt|Hge].
  - tauto.
  - split; [discriminate|]. intros Hlt. exfalso. apply (Qlt_not_le _ _ Hlt), Hge.
Qed.

(** C3: with a label row and a bad-epoch mark for every epoch, both
    policies return.  Under the strict one the epochs kept are those whose
    fraction of channels labelled bad does not exceed the threshold, and a
    rejection record is added for each of the others; under the lenient
    one the epochs kept are those not marked bad as a whole, and a record
    is added for each marked one.  The threshold is 0.15 unless
    configured. *)
Theorem autoreject_policies (thr : Q) (lab : list (list bool)) (bad : list bool) (X : Epochs) :
  length lab = length (events X) ->
  length bad = length (events X) ->
  let rl := {| labels := lab; bad_epochs := bad; report := make_report thr lab |} in
  stored init "autoreject" "threshold" = Some (Num (15 # 100)) /\
  (exists Y, reject Strict rl X = Ok Y /\
     events Y = select (map (too_many_bad thr) lab) false (events X) /\
     (forall e, e ∈ events Y <->
        exists k row, events X !! k = Some e /\ lab !! k = Some row /\
                      ~ (thr < bad_fraction row)%Q) /\
     (forall r, r ∈ drop_log Y <->
        r ∈ drop_log X \/
        exists k e row, events X !! k = Some e /\ lab !! k = Some row /\
                        (thr < bad_fraction row)%Q /\ r = (origin e, "AUTOREJECT"))) /\
  (exists Y, reject Lenient rl X = Ok Y /\
     (forall e, e ∈ events Y <->
        exists k, events X !! k = Some e /\ bad !! k = Some false) /\
     (forall r, r ∈ drop_log Y <->
        r ∈ drop_log X \/
        exists k e, events X !! k = Some e /\ bad !! k = Some true /\
                    r = (origin e, "AUTOREJECT"))).
Proof.
  intros Hlab Hbad rl. split; [reflexivity|]. split.
  - eexists. split.
    { simpl. unfold make_report. apply Epochs_drop_where.
      rewrite length_map. exact Hlab. }
    simpl. split; [reflexivity|]. split.
    + intros e. rewrite elem_of_select. split.
      * intros (k & He & Hm). rewrite map_lookup in Hm.
        destruct (lab !! k) as [row|] eqn:Hrow; [|discriminate].
        exists k, row. split; [exact He|]. split; [exact Hrow|].
        simpl in Hm. injection Hm as Hm. rewrite <- too_many_bad_iff. congruence.
      * intros (k & row & He & Hrow & Hno). exists k. split; [exact He|].
        rewrite map_lookup, Hrow. simpl. f_equal.
        rewrite <- too_many_bad_iff in Hno. destruct (too_many_bad thr row); congruence.
    + intros r. rewrite elem_of_app. apply or_iff_compat_l.
      change (map ?f ?l) with (f <$> l). rewrite list_elem_of_fmap. split.
      * intros (e & -> & Hin). apply elem_of_select in Hin as (k & He & Hm).
        rewrite list_lookup_fmap in Hm.
        destruct (lab !! k) as [row|] eqn:Hrow; [|discriminate].
        exists k, e, row. split; [exact He|]. split; [exact Hrow|].
        simpl in Hm. injection Hm as Hm. apply too_many_bad_iff in Hm. tauto.
      * intros (k & e & row & He & Hrow & Hlt & ->). exists e. split; [reflexivity|].
        apply elem_of_select. exists k. split; [exact He|].
        rewrite list_lookup_fmap, Hrow. simpl. f_equal. apply too_many_bad_iff, Hlt.
  - eexists. split.
    { simpl. apply Epochs_drop_where, Hbad. }
    simpl. split.
    + intros e. apply elem_of_select.
    + intros r. rewrite elem_of_app. apply or_iff_compat_l.
      change (map ?f ?l) with (f <$> l). rewrite list_elem_of_fmap. split.
      * intros (e & -> & Hin). apply elem_of_select in Hin as (k & He & Hm). eauto.
      * intros (k & e & He & Hm & ->). exists e. split; [reflexivity|].
        apply elem_of_select. eauto.
Qed.

Lemma autoreject_policies_witness :
  exists Y,
    reject Strict
      {| labels := [[false; false]; [true; false]; [false; false]];
         bad_epochs := [false; false; true];
         report := make_report (15 # 100) [[false; false]; [true; false]; [false; false]] |}
      Demo.epochs = Ok Y /\
    events Y = [ {| origin := 0; samples := [[1; 2]]%Q |};
                 {| origin := 2; samples := [[2; 9]]%Q |} ].
Proof.
  destruct (autoreject_policies (15 # 100) [[false; false]; [true; false]; [false; false]]
              [false; false; true] Demo.epochs eq_refl eq_refl)
    as (_ & (Y & HY & Hev & _) & _).
  exists Y. split; [exact HY|]. rewrite Hev. reflexivity.
Defined.

(** ** The notebook *)

#[local] Arguments Epoching.create_epochs : simpl never.
#[local] Arguments pick_channels : simpl never.
#[local] Arguments Faster.prepare_epochs_for_ica : simpl never.
#[local] Arguments Autoreject.reject : simpl never.
#[local] Arguments Autoreject.make_report : simpl never.
#[local] Arguments Power.normalize : simpl never.
#[local] Arguments Log.update_log : simpl never.
#[local] Arguments pretty : simpl never.
#[local] Arguments String.concat : simpl never.
#[local] Arguments String.append : simpl never.
#[local] Arguments file_name : simpl never.
#[local] Arguments Reference.average_reference : simpl never.
#[local] Arguments channel_order : simpl never.
#[local] Arguments inspect : simpl never.

(** Opening a cell that returned: every step it took is named. *)
Ltac unfold_cell H :=
  unfold cell5, cell7, cell8, cell12, cell13, cell15, cell17, cell18, cell20, cell21,
    cell25, cell27, cell28, cell30, cell31, cell33, cell34, cell35, cell37, cell38,
    cell40, cell46, cell47, cell48, cell49, cell52, cell53, cell54, cell56,
    cell9, cell23, cell32, cell39, cell43, plot_raw, plot_epochs,
    save_as, log_cell, notes_cell, annotation, object, var_raw, var_epochs, var_ica,
    var_reject_log, var_ransac, var_power, var_vector, var_str, lookup_var, deref,
    setting_num,
    assign_setting, section, or_raise, alloc in H.

Ltac step H :=
  match type of H with
  | context [match ?m with _ => _ end] =>
      lazymatch m with
      | context [match _ with _ => _ end] => fail
      | _ => destruct m eqn:?; try discriminate H
      end
  end.

(** One goal for each cell of a list. *)
Ltac each_cell tac := repeat (constructor; [solve [tac] |]); constructor.

Ltac open_cell H :=
  unfold_cell H; unfold mbind, Res_bind in H; simpl in H;
  repeat (step H; simpl in H);
  try (injection H as H); try subst.


Ltac quiet_cell :=
  let st := fresh "st" in let st' := fresh "st'" in let Hc := fresh "Hc" in
  intros st st' Hc; open_cell Hc;
  first
    [ exists []; split; [simpl; rewrite app_nil_r; reflexivity | constructor]
    | eexists; split;
      [ simpl; rewrite <- ?app_assoc; reflexivity
      | repeat constructor; intros ?; discriminate ] ].

Section Trace.
Context `{Collaborators}.
Variable i : Inputs.

Lemma quiet_before_reference : Forall quiet (take 21 (notebook i)).
Proof. simpl. each_cell quiet_cell. Qed.

Lemma quiet_after_reference : Forall quiet (drop 22 (notebook i)).
Proof. simpl. each_cell quiet_cell. Qed.

Lemma run_cells_app (a b : list (State -> Res State)) (st : State) :
  run_cells (a ++ b) st = st' ← run_cells a st; run_cells b st'.
Proof.
  revert st. induction a as [|c a IH]; intros st; simpl; [reflexivity|].
  destruct (c st) as [st1|e]; simpl; [apply IH | reflexivity].
Qed.

Lemma run_quiet (cs : list (State -> Res State)) :
  Forall quiet cs -> quiet (run_cells cs).
Proof.
  induction 1 as [|c cs Hc _ IH]; intros st st' Hrun; simpl in Hrun.
  - injection Hrun as <-. exists []. rewrite app_nil_r. split; [reflexivity | constructor].
  - destruct (c st) as [st1|e] eqn:Hst1; simpl in Hrun; [|discriminate].
    destruct (Hc _ _ Hst1) as (ev1 & E1 & F1).
    destruct (IH _ _ Hrun) as (ev2 & E2 & F2).
    exists (ev1 ++ ev2). rewrite E2, E1, app_assoc. split; [reflexivity|].
    apply Forall_app. split; assumption.
Qed.

Variable u : User.

Lemma session_quiet_before : Forall quiet (take 26 (session i u)).
Proof. simpl. each_cell quiet_cell. Qed.

Lemma session_quiet_after : Forall quiet (drop 27 (session i u)).
Proof. simpl. each_cell quiet_cell. Qed.

Lemma marked_nil (b : list string) : reference_marked b [].
Proof. intros k c Hk. rewrite lookup_nil in Hk. discriminate. Qed.

Lemma marked_app_quiet (b : list string) (t evs : list Event) :
  reference_marked b t -> Forall not_reference evs -> reference_marked b (t ++ evs).
Proof.
  intros Ht Hq k c Hk. apply lookup_app_Some in Hk as [Hk|[_ Hk]].
  - destruct (Ht k c Hk) as (-> & j & chs & Hj & Hlook). split; [reflexivity|].
    exists j, chs. split; [exact Hj|]. apply lookup_app_l_Some, Hlook.
  - exfalso. apply list_elem_of_lookup_2 in Hk.
    apply (proj1 (Forall_forall _ _) Hq _ Hk c). reflexivity.
Qed.

Lemma marked_app_pair (b : list string) (t : list Event) (chs : list string) :
  reference_marked b t ->
  reference_marked b (t ++ [EvInterpolateBads chs; EvSetEegReference b]).
Proof.
  intros Ht k c Hk. apply lookup_app_Some in Hk as [Hk|[Hge Hk]].
  - destruct (Ht k c Hk) as (-> & j & chs' & Hj & Hlook). split; [reflexivity|].
    exists j, chs'. split; [exact Hj|]. apply lookup_app_l_Some, Hlook.
  - destruct (k - length t) as [|[|m]] eqn:Hm; simpl in Hk; try discriminate.
    injection Hk as <-. split; [reflexivity|].
    exists (length t), chs. split; [lia|].
    rewrite lookup_app_r, Nat.sub_diag by lia. reflexivity.
Qed.

(** What closing a plot window makes of the object on display. *)
Lemma inspect_spec (lk : Look) (X : Epochs) :
  inspect lk X
  = Ok {| events := select (map (clicked lk) (seq 0 (length (events X)))) false (events X);
          drop_log := drop_log X ++
            map (fun e => (origin e, "USER"))
                (select (map (clicked lk) (seq 0 (length (events X)))) true (events X));
          info := set_bads (marks lk (bads (info X))) (info X) |}.
Proof.
  unfold inspect. rewrite Epochs_drop_where by (rewrite length_map, length_seq; reflexivity).
  reflexivity.
Qed.

Lemma inspect_trail (lk : Look) (X Y : Epochs) :
  inspect lk X = Ok Y ->
  exists recs,
    drop_log Y = drop_log X ++ recs /\ Forall (fun r => r.2 = "USER") recs /\
    description (info Y) = description (info X) /\ fid (info Y) = fid (info X) /\
    bads (info Y) = marks lk (bads (info X)).
Proof.
  rewrite inspect_spec. intros [= <-]. eexists. simpl.
  split; [reflexivity|]. split; [|auto].
  apply Forall_forall. intros r Hr.
  apply list_elem_of_In, in_map_iff in Hr as (e & <- & _). reflexivity.
Qed.

(** Interpolation, the final inspection and re-referencing, one after the
    other. *)
Lemma interpolate_inspect_reference (st st1 st2 st3 : State) :
  cell40 st = Ok st1 -> cell43 u st1 = Ok st2 -> cell46 st2 = Ok st3 ->
  exists chs,
    trace st3 = trace st ++ [EvInterpolateBads chs; EvSetEegReference (marks (look_final u) [])].
Proof.
  intros H40 H43 H46. open_cell H40. open_cell H43. open_cell H46. simplify_map_eq.
  match goal with Hi : inspect _ _ = Ok _ |- _ =>
    apply inspect_trail in Hi as (recs & _ & _ & _ & _ & Hb) end.
  simpl in Hb. rewrite Hb.
  eexists. simpl. rewrite <- app_assoc. reflexivity.
Qed.

Lemma take_session (n : nat) :
  27 <= n ->
  take n (session i u)
  = take 24 (session i u) ++ [cell40; cell43 u; cell46]
    ++ take (n - 27) (drop 27 (session i u)).
Proof.
  intros Hn. replace n with (27 + (n - 27)) at 1 by lia.
  rewrite <- take_take_drop. reflexivity.
Qed.

Lemma session_quiet_prefix (n : nat) : n <= 26 -> Forall quiet (take n (session i u)).
Proof.
  intros Hn. replace n with (n `min` 26) by lia.
  rewrite <- take_take. apply Forall_take, session_quiet_before.
Qed.

Lemma run_is_marked (n : nat) (st : State) :
  upto i u n = Ok st -> reference_marked (marks (look_final u) []) (trace st).
Proof.
  unfold upto. intros Hrun.
  destruct (decide (n <= 26)) as [Hn|Hn].
  - destruct (run_quiet _ (session_quiet_prefix n Hn) _ _ Hrun) as (evs & -> & Hq).
    apply marked_app_quiet; [apply marked_nil | exact Hq].
  - rewrite take_session, run_cells_app in Hrun by lia.
    destruct (run_cells (take 24 (session i u)) init) as [st24|] eqn:H24; [|discriminate].
    cbn [mbind Res_bind] in Hrun.
    change (run_cells ([cell40; cell43 u; cell46] ++ ?T) st24)
      with (st1 ← cell40 st24; st2 ← cell43 u st1; st3 ← cell46 st2; run_cells T st3) in Hrun.
    destruct (cell40 st24) as [st25|] eqn:H40; [|discriminate].
    cbn [mbind Res_bind] in Hrun.
    destruct (cell43 u st25) as [st26|] eqn:H43; [|discriminate].
    cbn [mbind Res_bind] in Hrun.
    destruct (cell46 st26) as [st27|] eqn:H46; [|discriminate].
    cbn [mbind Res_bind] in Hrun.
    assert (Forall quiet (take 24 (session i u))) as Hq24
      by (apply (session_quiet_prefix 24); lia).
    destruct (run_quiet _ Hq24 _ _ H24) as (ev0 & E0 & Hq0).
    destruct (interpolate_inspect_reference _ _ _ _ H40 H43 H46) as (chs & E2).
    assert (Forall quiet (take (n - 27) (drop 27 (session i u)))) as Hq3
      by apply Forall_take, session_quiet_after.
    destruct (run_quiet _ Hq3 _ _ Hrun) as (ev3 & E3 & Hq3').
    rewrite E3, E2, E0. apply marked_app_quiet; [|exact Hq3'].
    apply marked_app_pair, marked_app_quiet; [apply marked_nil | exact Hq0].
Qed.

(** What the interpolation cell makes: a new object, out of the one bound
    to [epochs_autoreject], with the channels RANSAC reported interpolated
    and no channel flagged. *)
Lemma interpolation_step (st st' : State) :
  cell40 st = Ok st' ->
  exists X bad d,
    object st "epochs_autoreject" = Ok X /\
    vars st !! "ransac" = Some (VRansac bad) /\
    description (info X) = Some d /\
    vars st' = <["epochs_ransac" := VEpochs (next st)]> (vars st) /\
    heap st' =
      <[next st :=
          {| events := map (map_samples (interpolate_channels (ch_names (info X)) bad))
                           (events X);
             drop_log := drop_log X;
             info := {| fid := fid (info X);
                        description :=
                          Some (d +:+ ", interpolated: " +:+ String.concat ", " bad);
                        bads := [];
                        ch_names := ch_names (info X) |} |}]> (heap st) /\
    trace st' = trace st ++ [EvInterpolateBads bad].
Proof.
  intros Hc. open_cell Hc. simplify_map_eq.
  eexists _, _, _. unfold object, var_epochs, lookup_var, deref, or_raise. simpl.
  repeat (match goal with Hv : _ !! _ = Some _ |- _ => rewrite Hv end; simpl).
  split; [reflexivity|]. split; [reflexivity|]. split; [eassumption|].
  split; [reflexivity|]. split; [|reflexivity].
  rewrite !insert_insert_eq. reflexivity.
Qed.

End Trace.

Lemma wf_bound (st : State) (l : nat) (X : Epochs) :
  wf st -> heap st !! l = Some X -> l < next st.
Proof.
  intros Hwf Hl. destruct (decide (l < next st)) as [Hlt|Hge]; [exact Hlt|].
  rewrite Hwf in Hl by lia. discriminate.
Qed.

Ltac bounds Hwf :=
  repeat match goal with
  | Hh : heap ?st !! ?l = Some _ |- _ =>
      lazymatch goal with
      | _ : l < next st |- _ => fail
      | _ => pose proof (wf_bound _ _ _ Hwf Hh)
      end
  end.

Ltac wf_cell :=
  let st := fresh "st" in let st' := fresh "st'" in
  let Hwf := fresh "Hwf" in let Hc := fresh "Hc" in
  intros st st' Hwf Hc; open_cell Hc; simplify_map_eq; bounds Hwf;
  let l := fresh "l" in let Hl := fresh "Hl" in
  intros l Hl; simpl in *; rewrite ?lookup_insert_ne by lia; apply Hwf; lia.

Section Store.
Context `{Collaborators}.
Variable i : Inputs.

Lemma cells_preserve_wf : Forall preserves_wf (notebook i).
Proof. unfold notebook. each_cell wf_cell. Qed.

Lemma session_preserves_wf (u : User) : Forall preserves_wf (session i u).
Proof. unfold session. each_cell wf_cell. Qed.

End Store.

Ltac same_lookups :=
  repeat match goal with
  | H1 : ?a = Some ?x, H2 : ?a = Some ?y |- _ =>
      assert (y = x) by congruence; subst y; clear H2
  end.

Ltac resolve_lookup :=
  repeat first
    [ rewrite lookup_insert_ne by lia
    | rewrite lookup_insert; case_decide; [subst; same_lookups |] ].

Lemma Epochs_drop_annotation (idx : list nat) (r : string) (X Y : Epochs) :
  Epochs_drop idx r X = Ok Y -> drop_log X `prefix_of` drop_log Y /\ info Y = info X.
Proof.
  unfold Epochs_drop. destruct (decide _); [|discriminate].
  intros [= <-]. simpl. split; [apply prefix_app_r; reflexivity | reflexivity].
Qed.

Lemma prepare_annotation (thr : Q) (X Y : Epochs) :
  Faster.prepare_epochs_for_ica thr X = Ok Y ->
  drop_log X `prefix_of` drop_log Y /\ info Y = info X.
Proof. apply Epochs_drop_annotation. Qed.

Lemma reject_annotation (p : Autoreject.Policy) (rl : Autoreject.RejectLog) (X Y : Epochs) :
  Autoreject.reject p rl X = Ok Y -> drop_log X `prefix_of` drop_log Y /\ info Y = info X.
Proof. destruct p; apply Epochs_drop_annotation. Qed.

Lemma pick_channels_annotation (names : list string) (X Y : Epochs) :
  pick_channels names X = Ok Y ->
  drop_log Y = drop_log X /\ description (info Y) = description (info X).
Proof.
  unfold pick_channels, or_raise, mbind, Res_bind.
  destruct (mapM _ names); [|discriminate].
  destruct (mapM _ (events X)); [|discriminate].
  intros [= <-]. split; reflexivity.
Qed.

(** The object a name refers to, read off the lookups at hand. *)
Ltac find_object :=
  unfold object, var_epochs, lookup_var, deref, or_raise; simpl;
  repeat (match goal with Hv : _ !! _ = Some _ |- _ => rewrite Hv end; simpl);
  reflexivity.

Ltac in_list := repeat first [apply list_elem_of_here | apply list_elem_of_further].

Ltac trail_cell :=
  let st := fresh "st" in let st' := fresh "st'" in
  let Hwf := fresh "Hwf" in let Hc := fresh "Hc" in
  let l := fresh "l" in let X := fresh "X" in let HX := fresh "HX" in
  intros st st' Hwf Hc l X HX; open_cell Hc; simplify_map_eq; bounds Hwf; simpl;
  try match goal with Hi : inspect _ _ = Ok _ |- _ =>
    apply inspect_trail in Hi as (? & ? & ? & ? & _ & _) end;
  resolve_lookup;
  first
    [ exists X, []; split; [first [reflexivity | eassumption]|];
      split; [rewrite app_nil_r; reflexivity|]; split; [constructor|];
      split; [reflexivity|]; intros _; reflexivity
    | eexists _, []; split; [reflexivity|];
      split; [simpl; rewrite app_nil_r; reflexivity|]; split; [constructor|];
      split; [reflexivity|];
      let Hne := fresh "Hne" in
      intros Hne; first [reflexivity | exfalso; apply Hne; reflexivity]
    | eexists _, _; split; [reflexivity|]; split; [eassumption|];
      split; [assumption|];
      split; [let Hn := fresh "Hn" in intros Hn; exfalso; apply Hn; unfold epoch_plots; in_list
             | intros _; assumption] ].

Ltac derive_none :=
  let st := fresh "st" in let st' := fresh "st'" in
  let Hwf := fresh "Hwf" in let Hc := fresh "Hc" in
  let l := fresh "l" in let Y := fresh "Y" in let HN := fresh "HN" in
  intros st st' Hwf Hc l Y HN; open_cell Hc; simplify_map_eq; bounds Hwf; simpl;
  resolve_lookup; intros; congruence.

Section Derive.
Context `{Collaborators}.
Variable i : Inputs.
Variable u : User.

Lemma derives_13 : derives_from 5 cell13.
Proof.
  intros st st' Hwf Hc l Y HN. open_cell Hc. simplify_map_eq. bounds Hwf. simpl.
  resolve_lookup; [|intros; congruence]. intros [= <-].
  match goal with Hp : pick_channels _ _ = Ok _ |- _ =>
    apply pick_channels_annotation in Hp as [Hd Hi] end.
  eexists _, _. split; [reflexivity|]. split; [find_object|].
  split; [rewrite Hd; reflexivity | left; exact Hi].
Qed.

Lemma derives_15 : derives_from 6 cell15.
Proof.
  intros st st' Hwf Hc l Y HN. open_cell Hc. simplify_map_eq. bounds Hwf. simpl.
  resolve_lookup; [|intros; congruence]. intros [= <-].
  match goal with Hp : Faster.prepare_epochs_for_ica _ _ = Ok _ |- _ =>
    apply prepare_annotation in Hp as [Hd Hi] end.
  eexists _, _. split; [reflexivity|]. split; [find_object|].
  split; [exact Hd | left; rewrite Hi; reflexivity].
Qed.

Lemma derives_31 : derives_from 16 cell31.
Proof.
  intros st st' Hwf Hc l Y HN. open_cell Hc. simplify_map_eq. bounds Hwf. simpl.
  resolve_lookup; [|intros; congruence]. intros [= <-].
  match goal with Hp : Autoreject.reject _ _ _ = Ok _ |- _ =>
    apply reject_annotation in Hp as [Hd Hi] end.
  eexists _, _. split; [reflexivity|]. split; [find_object|].
  split; [exact Hd | left; rewrite Hi; reflexivity].
Qed.

Lemma derives_40 : derives_from 24 cell40.
Proof.
  intros st st' Hwf Hc l Y HN. open_cell Hc. simplify_map_eq. bounds Hwf. simpl.
  resolve_lookup; [|intros; congruence]. intros [= <-].
  eexists _, _. split; [reflexivity|]. split; [find_object|].
  split; [reflexivity | right].
  eexists _, _. split; [eassumption | reflexivity].
Qed.

(** The object segmentation makes has no rejection record and the [info]
    of the filtered recording. *)
Lemma segmentation_object (st st' : State) :
  wf st -> cell12 st = Ok st' ->
  forall l Y, heap st !! l = None -> heap st' !! l = Some Y ->
    drop_log Y = [] /\
    exists r, vars st !! "raw_bandpass" = Some (VRaw r) /\ info Y = raw_info r.
Proof.
  intros Hwf Hc l Y HN. open_cell Hc. simplify_map_eq. bounds Hwf. simpl.
  resolve_lookup; [|intros; congruence]. intros [= <-]. simpl.
  split; [reflexivity|]. eexists. split; reflexivity.
Qed.

Lemma lookup_session (n : nat) (c : State -> Res State) :
  session i u !! n = Some c -> n < 34.
Proof. intros Hn. apply lookup_lt_Some in Hn. exact Hn. Qed.

Lemma cells_step_trail (n : nat) (c : State -> Res State) :
  session i u !! n = Some c -> step_trail n c.
Proof.
  intros Hn. pose proof (lookup_session n c Hn) as Hlt. unfold session in Hn.
  do 34 (destruct n as [|n];
         [simpl in Hn; injection Hn as <-; solve [trail_cell] | simpl in Hn]).
  lia.
Qed.

Lemma cells_derive (n : nat) (c : State -> Res State) :
  session i u !! n = Some c -> n <> segmentation_cell -> derives_from n c.
Proof.
  unfold segmentation_cell.
  intros Hn Hne. pose proof (lookup_session n c Hn) as Hlt. unfold session in Hn.
  do 34 (destruct n as [|n];
         [simpl in Hn; injection Hn as <-;
          solve [ congruence | apply derives_13 | apply derives_15 | apply derives_31
                | apply derives_40 | derive_none ]
         | simpl in Hn]).
  lia.
Qed.

End Derive.

Section Run.
Context `{Collaborators}.
Variable i : Inputs.

Lemma quiet_appends (c : State -> Res State) : quiet c -> appends c.
Proof. intros Hq st st' Hc. destruct (Hq st st' Hc) as (evs & E & _). eauto. Qed.

Lemma cells_append : Forall appends (notebook i).
Proof.
  rewrite <- (take_drop 21 (notebook i)). apply Forall_app. split.
  - eapply Forall_impl; [apply quiet_before_reference | apply quiet_appends].
  - rewrite <- (take_drop 1 (drop 21 (notebook i))). apply Forall_app. split.
    + simpl. repeat constructor. intros st st' Hc. open_cell Hc.
      eexists. simpl. reflexivity.
    + rewrite drop_drop. simpl Nat.add.
      eapply Forall_impl; [apply quiet_after_reference | apply quiet_appends].
Qed.

Lemma run_appends (cs : list (State -> Res State)) (st st' : State) :
  Forall appends cs -> run_cells cs st = Ok st' ->
  exists evs, trace st' = trace st ++ evs.
Proof.
  intros Hcs. revert st. induction Hcs as [|c cs Hc _ IH]; intros st Hrun; simpl in Hrun.
  - injection Hrun as <-. exists []. rewrite app_nil_r. reflexivity.
  - destruct (c st) as [st1|e] eqn:Hst1; simpl in Hrun; [|discriminate].
    destruct (Hc _ _ Hst1) as (ev1 & E1). destruct (IH _ Hrun) as (ev2 & E2).
    exists (ev1 ++ ev2). rewrite E2, E1, app_assoc. reflexivity.
Qed.

(** A longer run goes through the shorter one. *)
Lemma after_add (n m : nat) (st : State) :
  after i (n + m) = Ok st ->
  exists st0, after i n = Ok st0 /\ run_cells (take m (drop n (notebook i))) st0 = Ok st.
Proof.
  unfold after. rewrite <- take_take_drop, run_cells_app. intros Hrun.
  destruct (run_cells (take n (notebook i)) init) as [st0|] eqn:H0; [|discriminate].
  exists st0. split; [reflexivity | exact Hrun].
Qed.

Lemma after_trace (n m : nat) (st : State) :
  after i (n + m) = Ok st ->
  exists st0 evs, after i n = Ok st0 /\ trace st = trace st0 ++ evs.
Proof.
  intros Hrun. destruct (after_add n m st Hrun) as (st0 & H0 & Hrest).
  assert (Forall appends (take m (drop n (notebook i)))) as Hcs
    by apply Forall_take, Forall_drop, cells_append.
  destruct (run_appends _ _ _ Hcs Hrest) as (evs & E).
  eauto.
Qed.

Lemma after_S (n : nat) (c : State -> Res State) (st' : State) :
  notebook i !! n = Some c -> after i (S n) = Ok st' ->
  exists st, after i n = Ok st /\ c st = Ok st'.
Proof.
  intros Hc. unfold after. rewrite (take_S_r _ _ _ Hc), run_cells_app. intros Hrun.
  destruct (run_cells (take n (notebook i)) init) as [st|] eqn:H0; [|discriminate].
  exists st. split; [reflexivity|]. cbn [mbind Res_bind] in Hrun.
  change (run_cells [c] st) with (st1 ← c st; Ok st1) in Hrun.
  destruct (c st); [exact Hrun | discriminate].
Qed.

Lemma wf_init : wf init.
Proof. intros l _. reflexivity. Qed.

Lemma run_wf (cs : list (State -> Res State)) (st st' : State) :
  Forall preserves_wf cs -> wf st -> run_cells cs st = Ok st' -> wf st'.
Proof.
  intros Hcs. revert st. induction Hcs as [|c cs Hc _ IH]; intros st Hwf Hrun; simpl in Hrun.
  - injection Hrun as <-. exact Hwf.
  - destruct (c st) as [st1|e] eqn:Hst1; simpl in Hrun; [|discriminate].
    eapply IH; [eapply Hc; eassumption | exact Hrun].
Qed.

Lemma reachable_wf (n : nat) (st : State) : after i n = Ok st -> wf st.
Proof.
  apply run_wf; [apply Forall_take, cells_preserve_wf | apply wf_init].
Qed.

Variable u : User.

Lemma upto_add (n m : nat) (st : State) :
  upto i u (n + m) = Ok st ->
  exists st0, upto i u n = Ok st0 /\ run_cells (take m (drop n (session i u))) st0 = Ok st.
Proof.
  unfold upto. rewrite <- take_take_drop, run_cells_app. intros Hrun.
  destruct (run_cells (take n (session i u)) init) as [st0|] eqn:H0; [|discriminate].
  exists st0. split; [reflexivity | exact Hrun].
Qed.

Lemma upto_S (n : nat) (c : State -> Res State) (st : State) :
  session i u !! n = Some c -> upto i u n = Ok st -> upto i u (S n) = c st.
Proof.
  intros Hc Hrun. unfold upto in *. rewrite (take_S_r _ _ _ Hc), run_cells_app, Hrun.
  cbn [mbind Res_bind]. change (run_cells [c] st) with (st1 ← c st; Ok st1).
  destruct (c st); reflexivity.
Qed.

Lemma session_wf (n : nat) (st : State) : upto i u n = Ok st -> wf st.
Proof.
  apply run_wf; [apply Forall_take, session_preserves_wf | apply wf_init].
Qed.

(** What is recorded stays recorded, cell after cell. *)
Lemma run_trail (cs : list (State -> Res State)) (k : nat) (st st' : State) :
  (forall j c, cs !! j = Some c -> step_trail (k + j) c /\ preserves_wf c) ->
  wf st -> run_cells cs st = Ok st' ->
  forall l X, heap st !! l = Some X ->
    exists X', heap st' !! l = Some X' /\ drop_log X `prefix_of` drop_log X' /\
      (apply_cell < k -> description (info X') = description (info X)).
Proof.
  revert k st. induction cs as [|c cs IH]; intros k st Hcs Hwf Hrun l X HX; simpl in Hrun.
  - injection Hrun as <-. exists X. split; [exact HX|]. split; reflexivity.
  - destruct (c st) as [st1|e] eqn:Hst1; simpl in Hrun; [|discriminate].
    destruct (Hcs 0 c eq_refl) as [Hstep Hpw]. rewrite Nat.add_0_r in Hstep.
    destruct (Hstep st st1 Hwf Hst1 l X HX) as (X1 & recs & HX1 & Hlog & _ & _ & Hdesc).
    destruct (IH (S k) st1) with (l := l) (X := X1) as (X' & HX' & Hpre & Hd');
      [|eapply Hpw; eassumption|exact Hrun|exact HX1|].
    { intros j c' Hj. replace (S k + j) with (k + S j) by lia. apply Hcs. exact Hj. }
    exists X'. split; [exact HX'|]. split.
    + etrans; [|exact Hpre]. rewrite Hlog. apply prefix_app_r. reflexivity.
    + intros Hk. rewrite Hd' by lia. apply Hdesc. lia.
Qed.

End Run.

Ltac pristine_cell :=
  let st := fresh "st" in let st' := fresh "st'" in
  let Hh := fresh "Hh" in let Hv := fresh "Hv" in let Hc := fresh "Hc" in
  intros st st' [Hh Hv] Hc; open_cell Hc; simplify_map_eq;
  repeat match goal with
  | Hp : pick_channels _ _ = Ok _ |- _ => apply pick_channels_annotation in Hp as [? ?]
  | Hp : Faster.prepare_epochs_for_ica _ _ = Ok _ |- _ => apply prepare_annotation in Hp as [? ?]
  end;
  split;
  [ let l := fresh "l" in let X := fresh "X" in
    intros l X; simpl;
    repeat (rewrite lookup_insert; case_decide; [intros [= <-]; simpl |]);
    try (apply Hh);
    try (erewrite <- Hv by eassumption; congruence);
    try (erewrite <- Hh by eassumption; congruence)
  | let x := fresh "x" in let r := fresh "r" in
    intros x r; simpl;
    repeat (rewrite lookup_insert; case_decide; [intros [= <-]; simpl |]);
    try discriminate; try reflexivity;
    try (apply Hv);
    try (eapply Hv; eassumption) ].

Section Pristine.
Context `{Collaborators}.
Variable i : Inputs.

Lemma pristine_init : pristine i init.
Proof. split; intros ? ? Hl; simpl in Hl; rewrite lookup_empty in Hl; discriminate. Qed.

Lemma run_pristine (cs : list (State -> Res State)) (st st' : State) :
  Forall (preserves_pristine i) cs -> pristine i st -> run_cells cs st = Ok st' ->
  pristine i st'.
Proof.
  intros Hcs. revert st. induction Hcs as [|c cs Hc _ IH]; intros st Hp Hrun; simpl in Hrun.
  - injection Hrun as <-. exact Hp.
  - destruct (c st) as [st1|e] eqn:Hst1; simpl in Hrun; [|discriminate].
    eapply IH; [eapply Hc; eassumption | exact Hrun].
Qed.

Lemma session_pristine (u : User) (st : State) :
  upto i u apply_cell = Ok st -> pristine i st.
Proof.
  apply run_pristine; [|apply pristine_init].
  unfold apply_cell. simpl. each_cell pristine_cell.
Qed.

End Pristine.


(** C5, as amended: however many cells of the session have run, plot
    windows included, every re-referencing in the trace comes after an
    interpolation, and the channels flagged when it is computed are those
    the user marks in the final inspection, starting from none: when the
    user marks none there, no channel is flagged.  The interpolation cell
    makes a new object out of the one bound to [epochs_autoreject]: the
    channels RANSAC reported are interpolated in its data and named in its
    description, and no channel is flagged on it, whatever was flagged on
    the object it was made from. *)
Theorem reference_after_interpolation `{Collaborators} (i : Inputs) (u : User)
    (n : nat) (st : State) :
  upto i u n = Ok st ->
  (forall k still_bad, trace st !! k = Some (EvSetEegReference still_bad) ->
     still_bad = marks (look_final u) [] /\
     exists j chs, j < k /\ trace st !! j = Some (EvInterpolateBads chs)) /\
  (marks (look_final u) [] = [] -> reference_guarded (trace st)) /\
  (forall st', cell40 st = Ok st' ->
     exists X bad d,
       object st "epochs_autoreject" = Ok X /\
       vars st !! "ransac" = Some (VRansac bad) /\
       description (info X) = Some d /\
       vars st' = <["epochs_ransac" := VEpochs (next st)]> (vars st) /\
       heap st' =
         <[next st :=
             {| events := map (map_samples (interpolate_channels (ch_names (info X)) bad))
                              (events X);
                drop_log := drop_log X;
                info := {| fid := fid (info X);
                           description :=
                             Some (d +:+ ", interpolated: " +:+ String.concat ", " bad);
                           bads := [];
                           ch_names := ch_names (info X) |} |}]> (heap st) /\
       trace st' = trace st ++ [EvInterpolateBads bad]).
Proof.
  intros Hrun. split; [|split].
  - exact (run_is_marked i u n st Hrun).
  - intros Hnone k still_bad Hk. rewrite <- Hnone.
    exact (run_is_marked i u n st Hrun k still_bad Hk).
  - intros st'. apply interpolation_step.
Qed.

Lemma reference_after_interpolation_witness :
  exists st,
    @upto Demo.collaborators Demo.inputs passive (S reference_cell) = Ok st /\
    trace st !! 13 = Some (EvSetEegReference []) /\
    exists j chs, j < 13 /\ trace st !! j = Some (EvInterpolateBads chs).
Proof.
  destruct (is_ok_Ok (@upto Demo.collaborators Demo.inputs passive (S reference_cell))) as [st E];
    [vm_compute; reflexivity|].
  assert (trace st !! 13 = Some (EvSetEegReference [])) as Hk.
  { apply (bind_Ok (fun s => trace s !! 13) _ _ _ E). vm_compute. reflexivity. }
  exists st. split; [exact E|]. split; [exact Hk|].
  exact (proj2 (proj1 (@reference_after_interpolation Demo.collaborators Demo.inputs passive
                         (S reference_cell) st E) 13 [] Hk)).
Defined.

(** A user who marks [Pz] in the final inspection: the average reference
    is computed with [Pz] flagged. *)
Lemma marked_in_the_final_inspection :
  (exists st,
     @upto Demo.collaborators Demo.inputs Demo.user (S reference_cell) = Ok st /\
     trace st !! 12 = Some (EvInterpolateBads ["Fz"]) /\
     trace st !! 13 = Some (EvSetEegReference ["Pz"])) /\
  ~ @never_references_flagged Demo.collaborators Demo.inputs Demo.user.
Proof.
  destruct (is_ok_Ok (@upto Demo.collaborators Demo.inputs Demo.user (S reference_cell))) as [st E];
    [vm_compute; reflexivity|].
  assert (trace st !! 12 = Some (EvInterpolateBads ["Fz"])) as Hj.
  { apply (bind_Ok (fun s => trace s !! 12) _ _ _ E). vm_compute. reflexivity. }
  assert (trace st !! 13 = Some (EvSetEegReference ["Pz"])) as Hk.
  { apply (bind_Ok (fun s => trace s !! 13) _ _ _ E). vm_compute. reflexivity. }
  split; [exists st; auto|].
  intros Hclaim. destruct (Hclaim (S reference_cell) st E 13 ["Pz"] Hk) as [Hnone _]. discriminate Hnone.
Qed.

Section Stages.
Context `{Collaborators}.
Variable i : Inputs.

Lemma copy_keeps_objects (c : State -> Res State) (st st' : State) :
  c ∈ [cell13; cell15; cell31; cell40] -> wf st -> c st = Ok st' ->
  forall l X, heap st !! l = Some X -> heap st' !! l = Some X.
Proof.
  intros Hin Hwf Hc l X HX.
  repeat (apply elem_of_cons in Hin as [->|Hin]); [..|inversion Hin];
    open_cell Hc; simplify_map_eq; bounds Hwf; simpl; resolve_lookup; assumption.
Qed.

Lemma ica_apply_in_place (st st' : State) :
  cell21 st = Ok st' ->
  exists l X ica,
    vars st !! "epochs_faster" = Some (VEpochs l) /\
    vars st !! "ica" = Some (VIca ica) /\
    heap st !! l = Some X /\
    vars st' !! "epochs_faster" = Some (VEpochs l) /\
    heap st' =
      <[l := with_info
               (set_description (Some ("n_components: " +:+ pretty (length (exclude ica)))))
               (with_events (map (map_samples (ica_remove ica))) X)]> (heap st).
Proof.
  intros Hc. open_cell Hc. simplify_map_eq.
  eexists _, _, _. simpl.
  repeat split; first [reflexivity | eassumption | apply insert_insert_eq].
Qed.

Lemma reference_in_place (st st' : State) :
  cell46 st = Ok st' ->
  exists l X,
    vars st !! "epochs_ransac" = Some (VEpochs l) /\
    heap st !! l = Some X /\
    vars st' !! "epochs_ransac" = Some (VEpochs l) /\
    heap st' =
      <[l := with_events (map (map_samples Reference.average_reference)) X]> (heap st).
Proof.
  intros Hc. open_cell Hc. simplify_map_eq.
  eexists _, _. simpl.
  repeat split; first [reflexivity | eassumption].
Qed.

(** A plot window replaces the object on display, at its own address, by
    what the user has made of it. *)
Lemma plot_in_place (x : string) (lk : Look) (st st' : State) :
  plot_epochs x lk st = Ok st' ->
  exists l X,
    vars st !! x = Some (VEpochs l) /\
    heap st !! l = Some X /\
    vars st' = vars st /\
    heap st' =
      <[l := {| events :=
                  select (map (clicked lk) (seq 0 (length (events X)))) false (events X);
                drop_log := drop_log X ++
                  map (fun e => (origin e, "USER"))
                      (select (map (clicked lk) (seq 0 (length (events X)))) true (events X));
                info := set_bads (marks lk (bads (info X))) (info X) |}]> (heap st).
Proof.
  intros Hc. open_cell Hc.
  match goal with Hi : inspect _ _ = Ok _ |- _ =>
    rewrite inspect_spec in Hi; injection Hi as <- end.
  eexists _, _. simpl. repeat split; first [reflexivity | eassumption].
Qed.

(** The time-frequency cell flags two channels on the object bound to
    [epochs_ransac], at its own address. *)
Lemma tfr_marks_in_place (st st' : State) :
  cell53 st = Ok st' ->
  exists l X,
    vars st !! "epochs_ransac" = Some (VEpochs l) /\
    heap st !! l = Some X /\
    heap st' = <[l := with_info (set_bads ["Fp1"; "Fp2"]) X]> (heap st).
Proof.
  intros Hc. open_cell Hc. simplify_map_eq.
  eexists _, _. simpl. repeat split; first [reflexivity | eassumption].
Qed.

End Stages.

(** C6, as amended: in any state a session reaches, channel picking,
    preliminary rejection, autoreject's drop and RANSAC's interpolation
    leave every existing object as it is (they work on a new one);
    applying the decomposition and re-referencing replace the object they
    are handed, at its own address; so does every plot window, with the
    epochs the user clicked dropped and the channels the user marked
    flagged, and so does the time-frequency cell when it flags its two
    channels. *)
Theorem stages_copy_or_update_in_place `{Collaborators} (i : Inputs) (u : User)
    (n : nat) (st : State) :
  upto i u n = Ok st ->
  (forall c st', c ∈ [cell13; cell15; cell31; cell40] -> c st = Ok st' ->
     forall l X, heap st !! l = Some X -> heap st' !! l = Some X) /\
  (forall st', cell21 st = Ok st' ->
     exists l X ica,
       vars st !! "epochs_faster" = Some (VEpochs l) /\
       vars st !! "ica" = Some (VIca ica) /\
       heap st !! l = Some X /\
       vars st' !! "epochs_faster" = Some (VEpochs l) /\
       heap st' =
         <[l := with_info
                  (set_description
                     (Some ("n_components: " +:+ pretty (length (exclude ica)))))
                  (with_events (map (map_samples (ica_remove ica))) X)]> (heap st)) /\
  (forall st', cell46 st = Ok st' ->
     exists l X,
       vars st !! "epochs_ransac" = Some (VEpochs l) /\
       heap st !! l = Some X /\
       vars st' !! "epochs_ransac" = Some (VEpochs l) /\
       heap st' =
         <[l := with_events (map (map_samples Reference.average_reference)) X]> (heap st)) /\
  (forall x lk st', plot_epochs x lk st = Ok st' ->
     exists l X,
       vars st !! x = Some (VEpochs l) /\
       heap st !! l = Some X /\
       vars st' = vars st /\
       heap st' =
         <[l := {| events :=
                     select (map (clicked lk) (seq 0 (length (events X)))) false (events X);
                   drop_log := drop_log X ++
                     map (fun e => (origin e, "USER"))
                         (select (map (clicked lk) (seq 0 (length (events X)))) true
                                 (events X));
                   info := set_bads (marks lk (bads (info X))) (info X) |}]> (heap st)) /\
  (forall st', cell53 st = Ok st' ->
     exists l X,
       vars st !! "epochs_ransac" = Some (VEpochs l) /\
       heap st !! l = Some X /\
       heap st' = <[l := with_info (set_bads ["Fp1"; "Fp2"]) X]> (heap st)).
Proof.
  intros Hrun. pose proof (session_wf i u n st Hrun) as Hwf.
  split; [|split; [|split; [|split]]].
  - intros c st' Hin Hc. exact (copy_keeps_objects c st st' Hin Hwf Hc).
  - intros st'. apply ica_apply_in_place.
  - intros st'. apply reference_in_place.
  - intros x lk st'. apply plot_in_place.
  - intros st'. apply tfr_marks_in_place.
Qed.

(** In the small session, the window opened once RANSAC is fitted: the
    user drops the first epoch and marks [Cz] on the object autoreject
    produced, after it was saved. *)
Lemma stages_copy_or_update_in_place_witness :
  exists st st' l X,
    @upto Demo.collaborators Demo.inputs Demo.user 23 = Ok st /\
    @cell39 Demo.user st = Ok st' /\
    vars st !! "epochs_autoreject" = Some (VEpochs l) /\
    heap st !! l = Some X /\
    heap st' !! l
      = Some {| events :=
                  select (map (clicked (look_ransac Demo.user))
                              (seq 0 (length (events X)))) false (events X);
                drop_log := drop_log X ++
                  map (fun e => (origin e, "USER"))
                      (select (map (clicked (look_ransac Demo.user))
                                   (seq 0 (length (events X)))) true (events X));
                info := set_bads (marks (look_ransac Demo.user) (bads (info X))) (info X) |} /\
    Demo.records_and_flags "epochs_autoreject" st = Ok ([(2, "AUTOREJECT")], []) /\
    Demo.records_and_flags "epochs_autoreject" st'
      = Ok ([(2, "AUTOREJECT"); (0, "USER")], ["Cz"]).
Proof.
  destruct (is_ok_Ok (@upto Demo.collaborators Demo.inputs Demo.user 23)) as [st E];
    [vm_compute; reflexivity|].
  destruct (is_ok_Ok (@upto Demo.collaborators Demo.inputs Demo.user 24)) as [st' E24];
    [vm_compute; reflexivity|].
  assert (@cell39 Demo.user st = Ok st') as E'.
  { rewrite <- E24. symmetry. apply (upto_S Demo.inputs Demo.user 23); [reflexivity | exact E]. }
  destruct (proj1 (proj2 (proj2 (proj2
    (@stages_copy_or_update_in_place Demo.collaborators Demo.inputs Demo.user 23 st E))))
    "epochs_autoreject" (look_ransac Demo.user) st' E') as (l & X & Hl & HX & _ & Hh).
  exists st, st', l, X. split; [exact E|]. split; [exact E'|].
  split; [exact Hl|]. split; [exact HX|].
  split; [rewrite Hh; apply lookup_insert_eq|].
  split.
  - apply (bind_Ok (Demo.records_and_flags "epochs_autoreject") _ _ _ E).
    vm_compute. reflexivity.
  - apply (bind_Ok (Demo.records_and_flags "epochs_autoreject") _ _ _ E24).
    vm_compute. reflexivity.
Defined.

(** In the small session the object preliminary rejection produced is a
    different one after the decomposition has been applied. *)
Lemma ica_cleaning_rewrites_its_input :
  (exists s2 s3 l,
     @after Demo.collaborators Demo.inputs stage2 = Ok s2 /\
     @after Demo.collaborators Demo.inputs stage3 = Ok s3 /\
     Demo.faster_object s2 = Ok (l, None, Some 1%Q) /\
     Demo.faster_object s3 = Ok (l, Some "n_components: 2", Some (1 # 2)%Q)) /\
  ~ @stage_inputs_unchanged Demo.collaborators Demo.inputs.
Proof.
  destruct (is_ok_Ok (@after Demo.collaborators Demo.inputs stage2)) as [s2 E2];
    [vm_compute; reflexivity|].
  destruct (is_ok_Ok (@after Demo.collaborators Demo.inputs stage3)) as [s3 E3];
    [vm_compute; reflexivity|].
  assert (Demo.faster_object s2 = Ok (2, None, Some 1%Q)) as H2.
  { apply (bind_Ok Demo.faster_object _ _ _ E2). vm_compute. reflexivity. }
  assert (Demo.faster_object s3 = Ok (2, Some "n_components: 2", Some (1 # 2)%Q)) as H3.
  { apply (bind_Ok Demo.faster_object _ _ _ E3). vm_compute. reflexivity. }
  split; [exists s2, s3, 2; auto|].
  intros Hclaim. unfold Demo.faster_object, var_epochs, lookup_var, deref, or_raise in H2, H3.
  unfold mbind, Res_bind in H2, H3.
  destruct (vars s2 !! "epochs_faster") as [[]|]; try discriminate H2.
  destruct (heap s2 !! l) as [X2|] eqn:HX2; [|discriminate H2].
  destruct (vars s3 !! "epochs_faster") as [[]|]; try discriminate H3.
  destruct (heap s3 !! l0) as [X3|] eqn:HX3; [|discriminate H3].
  injection H2 as -> Hd2 _. injection H3 as -> Hd3 _.
  pose proof (Hclaim stage2 4 s2 s3 2 X2 E2 E3 HX2) as Hsame.
  rewrite HX3 in Hsame. injection Hsame as ->. rewrite Hd2 in Hd3. discriminate Hd3.
Qed.

Section Trail.
Context `{Collaborators}.
Variable i : Inputs.

Lemma ica_apply_audit (st st' : State) :
  pristine i st -> cell21 st = Ok st' ->
  forall l X, heap st !! l = Some X ->
    exists X', heap st' !! l = Some X' /\ drop_log X' = drop_log X /\
      (description (info X') = description (info X) \/
       description (info X) = description (raw_info (recording i)) /\
       exists ica, vars st !! "ica" = Some (VIca ica) /\
         description (info X')
         = Some ("n_components: " +:+ pretty (length (exclude ica)))).
Proof.
  intros [Hh _] Hc l X HX. pose proof (Hh l X HX) as Hd.
  open_cell Hc. simplify_map_eq. simpl. resolve_lookup.
  - eexists. split; [reflexivity|]. split; [reflexivity|]. right.
    split; [exact Hd|]. eexists. split; reflexivity.
  - eexists. split; [eassumption|]. split; [reflexivity | left; reflexivity].
Qed.

Variable u : User.

(** What the cells after position [n] of [session] keep of an object. *)
Lemma later_cells_keep (n m : nat) (st' st2 : State) (l : nat) (Y : Epochs) :
  upto i u (S n) = Ok st' -> upto i u (S n + m) = Ok st2 ->
  heap st' !! l = Some Y ->
  exists Y2, heap st2 !! l = Some Y2 /\ drop_log Y `prefix_of` drop_log Y2 /\
    (apply_cell <= n -> description (info Y2) = description (info Y)).
Proof.
  intros Hst' Hrun HY.
  destruct (upto_add i u (S n) m st2 Hrun) as (s0 & Hs0 & Hrest).
  rewrite Hst' in Hs0. injection Hs0 as <-.
  destruct (run_trail (take m (drop (S n) (session i u))) (S n) st' st2) with (l := l) (X := Y)
    as (Y2 & HY2 & Hpre & Hd); [|exact (session_wf i u _ _ Hst')|exact Hrest|exact HY|].
  - intros j c Hj. apply lookup_take_Some in Hj as [Hj _]. rewrite lookup_drop in Hj.
    split; [exact (cells_step_trail i u _ _ Hj)|].
    exact (proj1 (Forall_lookup _ _) (session_preserves_wf i u) _ _ Hj).
  - exists Y2. split; [exact HY2|]. split; [exact Hpre|]. intros Hn. apply Hd. lia.
Qed.

End Trail.

Section Config.
Context `{Collaborators}.
Variable i : Inputs.

Lemma assign_setting_accepts (k1 k2 : string) (v : Value) (st : State)
    (d : gmap string Value) :
  settings st !! k1 = Some d ->
  exists st', assign_setting k1 k2 v st = Ok st' /\ stored st' k1 k2 = Some v /\
    heap st' = heap st /\ vars st' = vars st /\ trace st' = trace st.
Proof.
  intros Hd. unfold assign_setting, section, or_raise. rewrite Hd.
  eexists. split; [reflexivity|]. unfold stored. simpl.
  rewrite lookup_insert_eq. simpl. rewrite lookup_insert_eq. auto.
Qed.

Lemma assign_setting_fails (k1 k2 : string) (v : Value) (st : State) :
  settings st !! k1 = None -> assign_setting k1 k2 v st = Err KeyError.
Proof. intros Hd. unfold assign_setting, section, or_raise. rewrite Hd. reflexivity. Qed.

(** What a cell has put in the trace is there in every longer run. *)
Lemma event_of_cell (P : Event -> Prop) (k m : nat) (c : State -> Res State) (st : State) :
  notebook i !! k = Some c ->
  (forall s s', c s = Ok s' -> exists ev, P ev /\ ev ∈ trace s') ->
  after i (S k + m) = Ok st ->
  exists ev, P ev /\ ev ∈ trace st.
Proof.
  intros Hk Hc Hrun.
  destruct (after_trace i (S k) m st Hrun) as (s' & evs & Hs' & E).
  destruct (after_S i k c s' Hk Hs') as (s0 & _ & Hcell).
  destruct (Hc s0 s' Hcell) as (ev & HP & Hin).
  exists ev. split; [exact HP|]. rewrite E. apply elem_of_app. left. exact Hin.
Qed.

Lemma processing_before_ransac_threshold (st : State) :
  after i ransac_configured = Ok st ->
  stored st "ransac" "threshold" = Some (Num (ransac_threshold i)) /\
  (exists ev, (exists lo hi, ev = EvFilterRaw lo hi) /\ ev ∈ trace st) /\
  (exists ev, (exists d, ev = EvCreateEpochs d) /\ ev ∈ trace st) /\
  (exists ev, (exists thr, ev = EvPreliminary thr) /\ ev ∈ trace st) /\
  (exists ev, (exists k, ev = EvIcaApply k) /\ ev ∈ trace st) /\
  (exists ev, (exists idx, ev = EvDrop "AUTOREJECT" idx) /\ ev ∈ trace st).
Proof.
  intros Hrun. split; [|split; [|split; [|split; [|split]]]].
  - destruct (after_S i 18 (cell37 i) st eq_refl Hrun) as (st18 & _ & H37).
    open_cell H37. unfold stored. simpl.
    rewrite lookup_insert_eq. simpl. apply lookup_insert_eq.
  - apply (event_of_cell _ 2 16 cell8 st eq_refl); [|exact Hrun].
    intros s s' Hc. open_cell Hc. eexists. split; [eexists _, _; reflexivity|].
    simpl. apply elem_of_app. right. apply list_elem_of_here.
  - apply (event_of_cell _ 3 15 cell12 st eq_refl); [|exact Hrun].
    intros s s' Hc. open_cell Hc. eexists. split; [eexists; reflexivity|].
    simpl. apply elem_of_app. right. apply list_elem_of_here.
  - apply (event_of_cell _ 5 13 cell15 st eq_refl); [|exact Hrun].
    intros s s' Hc. open_cell Hc. eexists. split; [eexists; reflexivity|].
    simpl. apply elem_of_app. right. apply list_elem_of_here.
  - apply (event_of_cell _ 9 9 cell21 st eq_refl); [|exact Hrun].
    intros s s' Hc. open_cell Hc. eexists. split; [eexists; reflexivity|].
    simpl. apply elem_of_app. right. apply list_elem_of_here.
  - apply (event_of_cell _ 14 4 cell31 st eq_refl); [|exact Hrun].
    intros s s' Hc. open_cell Hc. eexists. split; [eexists; reflexivity|].
    simpl. apply elem_of_app. right. apply list_elem_of_here.
Qed.

End Config.

(** C9, as amended: assigning a setting stores the value, whatever it is,
    and touches nothing else; it fails only for a section the settings do
    not have.  When the RANSAC threshold has been assigned, the value the
    cell was given is what is stored, and filtering, segmentation,
    preliminary rejection, the decomposition and autoreject's drop have
    already run. *)
Theorem settings_are_stored_unchecked `{Collaborators} (i : Inputs) :
  (forall k1 k2 v st d, settings st !! k1 = Some d ->
     exists st', assign_setting k1 k2 v st = Ok st' /\ stored st' k1 k2 = Some v /\
       heap st' = heap st /\ vars st' = vars st /\ trace st' = trace st) /\
  (forall k1 k2 v st, settings st !! k1 = None ->
     assign_setting k1 k2 v st = Err KeyError) /\
  (forall st, after i ransac_configured = Ok st ->
     stored st "ransac" "threshold" = Some (Num (ransac_threshold i)) /\
     (exists ev, (exists lo hi, ev = EvFilterRaw lo hi) /\ ev ∈ trace st) /\
     (exists ev, (exists d, ev = EvCreateEpochs d) /\ ev ∈ trace st) /\
     (exists ev, (exists thr, ev = EvPreliminary thr) /\ ev ∈ trace st) /\
     (exists ev, (exists k, ev = EvIcaApply k) /\ ev ∈ trace st) /\
     (exists ev, (exists idx, ev = EvDrop "AUTOREJECT" idx) /\ ev ∈ trace st)).
Proof.
  split; [|split].
  - intros k1 k2 v st d. apply assign_setting_accepts.
  - intros k1 k2 v st. apply assign_setting_fails.
  - apply processing_before_ransac_threshold.
Qed.

Lemma settings_are_stored_unchecked_witness :
  exists st,
    @after Demo.collaborators Demo.negative_threshold ransac_configured = Ok st /\
    stored st "ransac" "threshold" = Some (Num (-1)) /\
    exists ev, (exists idx, ev = EvDrop "AUTOREJECT" idx) /\ ev ∈ trace st.
Proof.
  destruct (is_ok_Ok (@after Demo.collaborators Demo.negative_threshold ransac_configured))
    as [st E]; [vm_compute; reflexivity|].
  exists st. split; [exact E|].
  destruct (proj2 (proj2 (@settings_are_stored_unchecked Demo.collaborators
                            Demo.negative_threshold)) st E)
    as (Hs & _ & _ & _ & _ & Hd).
  split; [exact Hs | exact Hd].
Defined.

(** A negative RANSAC threshold: the run goes on and the collaborators
    are called. *)
Lemma negative_threshold_is_accepted :
  (ransac_threshold Demo.negative_threshold < 0)%Q /\
  (exists st,
     @after Demo.collaborators Demo.negative_threshold ransac_configured = Ok st /\
     Demo.ransac_view st =
       (Some (Num (-1)),
        [EvFilterRaw 1 30; EvCreateEpochs 1; EvPreliminary 3; EvRunIca 20; EvIcaApply 2;
         EvSave (epochs_path +:+ "/s01_ICA-epo.fif.gz"); EvUpdateLog "s01_ICA";
         EvRunAutoreject (15 # 100); EvDrop "AUTOREJECT" [2];
         EvSave (epochs_path +:+ "/s01_ICA_autoreject-epo.fif.gz");
         EvUpdateLog "s01_ICA_autoreject"])) /\
  ~ @rejected_before_processing Demo.collaborators Demo.negative_threshold.
Proof.
  split; [reflexivity|].
  destruct (is_ok_Ok (@after Demo.collaborators Demo.negative_threshold ransac_configured))
    as [st E]; [vm_compute; reflexivity|].
  assert (Demo.ransac_view st =
            (Some (Num (-1)),
             [EvFilterRaw 1 30; EvCreateEpochs 1; EvPreliminary 3; EvRunIca 20;
              EvIcaApply 2;
              EvSave (epochs_path +:+ "/s01_ICA-epo.fif.gz"); EvUpdateLog "s01_ICA";
              EvRunAutoreject (15 # 100); EvDrop "AUTOREJECT" [2];
              EvSave (epochs_path +:+ "/s01_ICA_autoreject-epo.fif.gz");
              EvUpdateLog "s01_ICA_autoreject"])) as Hview.
  { apply (bind_Ok Demo.ransac_view _ _ _ E). vm_compute. reflexivity. }
  split.
  - exists st. split; [exact E | exact Hview].
  - intros Hclaim. unfold Demo.ransac_view in Hview.
    rewrite (Hclaim _ _ E) in Hview. discriminate Hview.
Qed.

(** ** The small session, run *)

(** The audit trail of the stage outputs, stage after stage. *)
Example demo_trail :
  (st ← @after Demo.collaborators Demo.inputs stage2; annotation st "epochs_faster")
    = Ok ([], None) /\
  (st ← @after Demo.collaborators Demo.inputs stage3; annotation st "epochs_faster")
    = Ok ([], Some "n_components: 2") /\
  (st ← @after Demo.collaborators Demo.inputs stage4; annotation st "epochs_autoreject")
    = Ok ([(2, "AUTOREJECT")], Some "n_components: 2") /\
  (st ← @after Demo.collaborators Demo.inputs stage5; annotation st "epochs_ransac")
    = Ok ([(2, "AUTOREJECT")], Some "n_components: 2, interpolated: Fz") /\
  (st ← @after Demo.collaborators Demo.inputs stage6; annotation st "epochs_ransac")
    = Ok ([(2, "AUTOREJECT")], Some "n_components: 2, interpolated: Fz") /\
  (st ← @run Demo.collaborators Demo.inputs; annotation st "epochs_faster")
    = Ok ([], Some "n_components: 2").
Proof. repeat split; vm_compute; reflexivity. Qed.

(** The collaborators called by the whole notebook, in order. *)
Example demo_trace :
  (st ← @run Demo.collaborators Demo.inputs; Ok (trace st))
  = Ok [EvFilterRaw 1 30; EvCreateEpochs 1; EvPreliminary 3; EvRunIca 20; EvIcaApply 2;
        EvSave (epochs_path +:+ "/s01_ICA-epo.fif.gz");
        EvUpdateLog "s01_ICA";
        EvRunAutoreject (15 # 100); EvDrop "AUTOREJECT" [2];
        EvSave (epochs_path +:+ "/s01_ICA_autoreject-epo.fif.gz");
        EvUpdateLog "s01_ICA_autoreject";
        EvRunRansac (5 # 100); EvInterpolateBads ["Fz"]; EvSetEegReference [];
        EvSave (epochs_path +:+ "/s01_ICA_autoreject_ransac-epo.fif.gz");
        EvUpdateLog "s01_ICA_autoreject_ransac";
        EvTfrMorlet].
Proof. vm_compute. reflexivity. Qed.

(** One row per identifier in the log. *)
Example demo_log :
  (st ← @run Demo.collaborators Demo.inputs; Ok (map row_fid (log st), map n_rejected (log st)))
  = Ok (["s01_ICA"; "s01_ICA_autoreject"; "s01_ICA_autoreject_ransac"], [0; 1; 1]).
Proof. vm_compute. reflexivity. Qed.

(** The synthetic signal, referenced once. *)
Example demo_reference :
  sig_eq (average_reference two_channels_four_samples)
         [[-1; 1]; [-1; 1]; [-1; 1]; [-(3 # 2); 3 # 2]]%Q.
Proof. vm_compute. repeat constructor. Qed.

(** Seven samples, one a second, cut into epochs of two seconds. *)
Example demo_segmentation :
  create_epochs 2 1 [[1]; [2]; [3]; [4]; [5]; [6]; [7]]%Q
  = Ok [ {| origin := 0; samples := [[1]; [2]]%Q |};
         {| origin := 2; samples := [[3]; [4]]%Q |};
         {| origin := 4; samples := [[5]; [6]]%Q |} ].
Proof. reflexivity. Qed.

(** * The notebook as a whole *)

Import Session.

(** ** The settings *)

Lemma assign_setting_frame (a b : string) (v : Value) (st st' : State) (k1 k2 : string) :
  assign_setting a b v st = Ok st' -> (k1, k2) <> (a, b) ->
  stored st' k1 k2 = stored st k1 k2.
Proof.
  unfold assign_setting, section, or_raise, stored.
  destruct (settings st !! a) as [d|] eqn:Hd; [|discriminate].
  cbn [mbind Res_bind]. intros [= <-] Hne. simpl.
  destruct (decide (k1 = a)) as [->|Hk1].
  - rewrite lookup_insert_eq, Hd. simpl.
    apply lookup_insert_ne. congruence.
  - rewrite lookup_insert_ne by congruence. reflexivity.
Qed.

Ltac settings_cell :=
  let st := fresh "st" in let st' := fresh "st'" in let Hc := fresh "Hc" in
  intros st st' Hc; open_cell Hc; reflexivity.

Section Settings.
Context `{Collaborators}.
Variable i : Inputs.

Lemma settings_kept_2_5 : Forall keeps_settings (take 4 (drop 2 (notebook i))).
Proof. simpl. each_cell settings_cell. Qed.

Lemma settings_kept_7_17 : Forall keeps_settings (take 11 (drop 7 (notebook i))).
Proof. simpl. each_cell settings_cell. Qed.

Lemma settings_kept_19_28 : Forall keeps_settings (drop 19 (notebook i)).
Proof. simpl. each_cell settings_cell. Qed.

Lemma cell_keeps_settings (n : nat) (c : State -> Res State) :
  notebook i !! n = Some c -> n <> 1 -> n <> 6 -> n <> 18 -> keeps_settings c.
Proof.
  intros Hn N1 N6 N18.
  destruct (decide (n = 0)) as [->|N0].
  { injection Hn as <-. intros st st' [= <-]. reflexivity. }
  destruct (decide (n < 6)) as [L6|G6].
  - apply (proj1 (Forall_lookup _ _) settings_kept_2_5 (n - 2)).
    rewrite lookup_take_lt, lookup_drop by lia. replace (2 + (n - 2)) with n by lia. exact Hn.
  - destruct (decide (n < 18)) as [L18|G18].
    + apply (proj1 (Forall_lookup _ _) settings_kept_7_17 (n - 7)).
      rewrite lookup_take_lt, lookup_drop by lia. replace (7 + (n - 7)) with n by lia. exact Hn.
    + apply (proj1 (Forall_lookup _ _) settings_kept_19_28 (n - 19)).
      rewrite lookup_drop. replace (19 + (n - 19)) with n by lia. exact Hn.
Qed.

Lemma cell_settings (n : nat) (c : State -> Res State) (st st' : State) (k1 k2 : string) :
  notebook i !! n = Some c -> c st = Ok st' ->
  (k1, k2) ∉ assigned n -> stored st' k1 k2 = stored st k1 k2.
Proof.
  intros Hn Hc Hk.
  assert (keeps_settings c -> stored st' k1 k2 = stored st k1 k2) as Hkeep
    by (intros Hs; unfold stored; rewrite (Hs _ _ Hc); reflexivity).
  destruct (decide (n = 1)) as [->|N1].
  { injection Hn as <-. unfold cell7 in Hc.
    destruct (assign_setting "bandpass_filter" "low_freq" _ st) as [s1|] eqn:H1;
      [|discriminate].
    cbn [mbind Res_bind] in Hc. simpl in Hk.
    rewrite (assign_setting_frame _ _ _ _ _ k1 k2 Hc), (assign_setting_frame _ _ _ _ _ k1 k2 H1);
      [reflexivity | |]; intros E; apply Hk; rewrite E; set_solver. }
  destruct (decide (n = 6)) as [->|N6].
  { injection Hn as <-. unfold cell17 in Hc. simpl in Hk.
    apply (assign_setting_frame _ _ _ _ _ k1 k2 Hc). intros E. apply Hk. rewrite E. set_solver. }
  destruct (decide (n = 18)) as [->|N18].
  { injection Hn as <-. unfold cell37 in Hc. simpl in Hk.
    apply (assign_setting_frame _ _ _ _ _ k1 k2 Hc). intros E. apply Hk. rewrite E. set_solver. }
  apply Hkeep. exact (cell_keeps_settings n c Hn N1 N6 N18).
Qed.

End Settings.

(** X2: a cell changes no entry of the settings but those it assigns:
    the two band-pass cut-offs in the filter configuration cell, the
    number of components in the ICA configuration cell and the threshold
    in the RANSAC configuration cell.  Every other entry, in these cells
    and in all the others, is after the cell what it was before. *)
Theorem settings_change_only_where_assigned `{Collaborators} (i : Inputs) (n : nat)
    (c : State -> Res State) (st st' : State) (k1 k2 : string) :
  notebook i !! n = Some c -> c st = Ok st' ->
  (k1, k2) ∉ assigned n -> stored st' k1 k2 = stored st k1 k2.
Proof. apply cell_settings. Qed.

Lemma settings_change_only_where_assigned_witness :
  exists st st',
    @after Demo.collaborators Demo.inputs 6 = Ok st /\
    cell17 Demo.inputs st = Ok st' /\
    stored st' "bandpass_filter" "low_freq" = stored st "bandpass_filter" "low_freq".
Proof.
  destruct (is_ok_Ok (@after Demo.collaborators Demo.inputs 6)) as [st E];
    [vm_compute; reflexivity|].
  destruct (is_ok_Ok (cell17 Demo.inputs st)) as [st' E'].
  { apply (bind_Ok (fun s => is_ok (cell17 Demo.inputs s)) _ _ _ E). vm_compute. reflexivity. }
  exists st, st'. split; [exact E|]. split; [exact E'|].
  apply (@settings_change_only_where_assigned Demo.collaborators Demo.inputs 6
           (cell17 Demo.inputs) st st' _ _ eq_refl E').
  simpl. intros Hin. apply list_elem_of_singleton in Hin. discriminate Hin.
Defined.

Section Configured.
Context `{Collaborators}.
Variable i : Inputs.

(** What two consecutive cells have put in the trace is there in every
    longer run. *)
Lemma event_of_two_cells (ev : Event) (k m : nat) (c1 c2 : State -> Res State) (st : State) :
  notebook i !! k = Some c1 -> notebook i !! S k = Some c2 ->
  (forall s s1 s2, c1 s = Ok s1 -> c2 s1 = Ok s2 -> ev ∈ trace s2) ->
  after i (S (S k) + m) = Ok st -> ev ∈ trace st.
Proof.
  intros Hk1 Hk2 Hc Hrun.
  destruct (after_trace i (S (S k)) m st Hrun) as (s2 & evs & Hs2 & E).
  destruct (after_S i (S k) c2 s2 Hk2 Hs2) as (s1 & Hs1 & Hcell2).
  destruct (after_S i k c1 s1 Hk1 Hs1) as (s0 & _ & Hcell1).
  rewrite E. apply elem_of_app. left. exact (Hc _ _ _ Hcell1 Hcell2).
Qed.

Lemma filter_gets_cutoffs (s s1 s2 : State) :
  cell7 i s = Ok s1 -> cell8 s1 = Ok s2 ->
  EvFilterRaw (low_freq i) (high_freq i) ∈ trace s2.
Proof.
  intros H1 H2. open_cell H1. open_cell H2. simplify_map_eq.
  simpl. apply elem_of_app. right. apply list_elem_of_here.
Qed.

Lemma ica_gets_n_components (s s1 s2 : State) :
  cell17 i s = Ok s1 -> cell18 s1 = Ok s2 -> EvRunIca (n_components i) ∈ trace s2.
Proof.
  intros H1 H2. open_cell H1. open_cell H2. simplify_map_eq.
  simpl. apply elem_of_app. right. apply list_elem_of_here.
Qed.

Lemma ransac_gets_threshold (s s1 s2 : State) :
  cell37 i s = Ok s1 -> cell38 s1 = Ok s2 -> EvRunRansac (ransac_threshold i) ∈ trace s2.
Proof.
  intros H1 H2. open_cell H1. open_cell H2. simplify_map_eq.
  simpl. apply elem_of_app. right. apply list_elem_of_here.
Qed.

End Configured.

(** X3: the value a configuration cell assigns is the one the procedure
    of the next cell is called with.  In a run that has come past
    filtering, the filter was called with the two cut-offs of the
    configuration cell before it; past the fit of the decomposition, the
    fit was called with the number of components assigned just before;
    past RANSAC, RANSAC was called with the threshold assigned just
    before. *)
Theorem configured_values_reach_the_calls `{Collaborators} (i : Inputs) (n : nat) (st : State) :
  after i n = Ok st ->
  (3 <= n -> EvFilterRaw (low_freq i) (high_freq i) ∈ trace st) /\
  (8 <= n -> EvRunIca (n_components i) ∈ trace st) /\
  (20 <= n -> EvRunRansac (ransac_threshold i) ∈ trace st).
Proof.
  intros Hrun. split; [|split]; intros Hn.
  - replace n with (3 + (n - 3)) in Hrun by lia.
    exact (event_of_two_cells i _ 1 (n - 3) (cell7 i) cell8 st eq_refl eq_refl
             (filter_gets_cutoffs i) Hrun).
  - replace n with (8 + (n - 8)) in Hrun by lia.
    exact (event_of_two_cells i _ 6 (n - 8) (cell17 i) cell18 st eq_refl eq_refl
             (ica_gets_n_components i) Hrun).
  - replace n with (20 + (n - 20)) in Hrun by lia.
    exact (event_of_two_cells i _ 18 (n - 20) (cell37 i) cell38 st eq_refl eq_refl
             (ransac_gets_threshold i) Hrun).
Qed.

Lemma configured_values_reach_the_calls_witness :
  exists st,
    @run Demo.collaborators Demo.negative_threshold = Ok st /\
    EvRunRansac (-1) ∈ trace st.
Proof.
  destruct (is_ok_Ok (@after Demo.collaborators Demo.negative_threshold 29)) as [st E];
    [vm_compute; reflexivity|].
  exists st. split; [exact E|].
  apply (proj2 (proj2
    (@configured_values_reach_the_calls Demo.collaborators Demo.negative_threshold 29 st E))).
  lia.
Defined.

(** ** Names and objects *)

Ltac old_bounds Hwf Hlive :=
  repeat match goal with
  | Hv : vars ?st !! ?x = Some (VEpochs ?l) |- _ =>
      lazymatch goal with
      | _ : l < next st |- _ => fail
      | _ => let X := fresh "X" in let HS := fresh "HS" in
             destruct (Hlive _ _ Hv) as [X HS]; pose proof (wf_bound _ _ _ Hwf HS)
      end
  end.

(** The binding a premise looks up: one the cell made, or an older one. *)
Ltac var_case :=
  match goal with
  | |- (<[_ := _]> _ !! _ = Some _) -> _ =>
      rewrite lookup_insert; case_decide;
      [ let E := fresh "E" in intros E; try discriminate E; injection E as <- | ]
  end.

Ltac var_intro := repeat var_case; try (intros ?).

Ltac live_cell :=
  let st := fresh "st" in let st' := fresh "st'" in
  let Hwf := fresh "Hwf" in let Hlive := fresh "Hlive" in let Hsep := fresh "Hsep" in
  let Hc := fresh "Hc" in
  intros st st' (Hwf & Hlive & Hsep) Hc; open_cell Hc; simplify_map_eq;
  intros ? ?; simpl; var_intro;
  rewrite ?lookup_insert_is_Some'; eauto 10.

Ltac separate_cell :=
  let st := fresh "st" in let st' := fresh "st'" in
  let Hwf := fresh "Hwf" in let Hlive := fresh "Hlive" in let Hsep := fresh "Hsep" in
  let Hc := fresh "Hc" in
  intros st st' (Hwf & Hlive & Hsep) Hc; open_cell Hc; simplify_map_eq;
  intros ? ? ? ? ?; simpl; var_intro; var_intro; try congruence;
  first [ match goal with
          | Hx : vars _ !! ?x = Some (VEpochs ?lx), Hy : vars _ !! ?y = Some (VEpochs ?ly)
            |- ?lx <> ?ly =>
              apply (Hsep x y lx ly); [congruence | exact Hx | exact Hy]
          end
        | old_bounds Hwf Hlive; lia ].

Section Names.
Context `{Collaborators}.
Variable i : Inputs.

Lemma cells_keep_live :
  Forall (fun c => forall st st', sound st -> c st = Ok st' -> live st') (notebook i).
Proof. unfold notebook. each_cell live_cell. Qed.

Lemma cells_keep_separate :
  Forall (fun c => forall st st', sound st -> c st = Ok st' -> separate st') (notebook i).
Proof. unfold notebook. each_cell separate_cell. Qed.

End Names.

Lemma run_invariant (P : State -> Prop) (cs : list (State -> Res State)) :
  Forall (fun c => forall st st', P st -> c st = Ok st' -> P st') cs ->
  forall st st', P st -> run_cells cs st = Ok st' -> P st'.
Proof.
  induction 1 as [|c cs Hc _ IH]; intros st st' HP Hrun; simpl in Hrun.
  - injection Hrun as <-. exact HP.
  - destruct (c st) as [st1|e] eqn:Hst1; simpl in Hrun; [|discriminate].
    eapply IH; [eapply Hc; eassumption | exact Hrun].
Qed.

Lemma sound_init : sound init.
Proof.
  split; [intros l _; reflexivity|].
  split; [intros x l Hx | intros x y lx ly _ Hx]; simpl in Hx;
    rewrite lookup_empty in Hx; discriminate.
Qed.

Section Sound.
Context `{Collaborators}.
Variable i : Inputs.

Lemma cells_keep_sound :
  Forall (fun c => forall st st', sound st -> c st = Ok st' -> sound st') (notebook i).
Proof.
  apply Forall_lookup. intros k c Hk st st' Hs Hc.
  split; [|split].
  - exact (proj1 (Forall_lookup _ _) (cells_preserve_wf i) k c Hk st st' (proj1 Hs) Hc).
  - exact (proj1 (Forall_lookup _ _) (cells_keep_live i) k c Hk st st' Hs Hc).
  - exact (proj1 (Forall_lookup _ _) (cells_keep_separate i) k c Hk st st' Hs Hc).
Qed.

Lemma reachable_sound (n : nat) (st : State) : after i n = Ok st -> sound st.
Proof.
  apply (run_invariant sound); [apply Forall_take, cells_keep_sound | apply sound_init].
Qed.

End Sound.

(** X4: in every state a run reaches, a name bound to an [Epochs] object
    refers to an object that is in the store, and two different names
    never refer to the same object: what a cell does to the object behind
    one name cannot show behind another. *)
Theorem names_refer_to_separate_objects `{Collaborators} (i : Inputs) (n : nat) (st : State) :
  after i n = Ok st ->
  (forall x l, vars st !! x = Some (VEpochs l) -> is_Some (heap st !! l)) /\
  (forall x y lx ly, x <> y ->
     vars st !! x = Some (VEpochs lx) -> vars st !! y = Some (VEpochs ly) -> lx <> ly).
Proof. intros Hrun. exact (proj2 (reachable_sound i n st Hrun)). Qed.

Lemma names_refer_to_separate_objects_witness :
  exists st la lr,
    @run Demo.collaborators Demo.inputs = Ok st /\
    vars st !! "epochs_autoreject" = Some (VEpochs la) /\
    vars st !! "epochs_ransac" = Some (VEpochs lr) /\
    la <> lr.
Proof.
  destruct (is_ok_Ok (@after Demo.collaborators Demo.inputs 29)) as [st E];
    [vm_compute; reflexivity|].
  assert (vars st !! "epochs_autoreject" = Some (VEpochs 3)) as Ha.
  { apply (bind_Ok (fun s => vars s !! "epochs_autoreject") _ _ _ E). vm_compute. reflexivity. }
  assert (vars st !! "epochs_ransac" = Some (VEpochs 4)) as Hr.
  { apply (bind_Ok (fun s => vars s !! "epochs_ransac") _ _ _ E). vm_compute. reflexivity. }
  exists st, 3, 4. split; [exact E|]. split; [exact Ha|]. split; [exact Hr|].
  apply (proj2 (@names_refer_to_separate_objects Demo.collaborators Demo.inputs 29 st E)
           "epochs_autoreject" "epochs_ransac" 3 4); [discriminate | exact Ha | exact Hr].
Defined.

(** ** Identifiers and snapshots *)

Lemma pick_channels_fid (names : list string) (X Y : Epochs) :
  pick_channels names X = Ok Y -> fid (info Y) = fid (info X).
Proof.
  unfold pick_channels, or_raise, mbind, Res_bind.
  destruct (mapM _ names); [|discriminate].
  destruct (mapM _ (events X)); [|discriminate].
  intros [= <-]. reflexivity.
Qed.

Lemma append_assoc (a b c : string) : (a +:+ b) +:+ c = a +:+ (b +:+ c).
Proof.
  induction a as [|ch a IH]; [reflexivity|].
  change (String ch ((a +:+ b) +:+ c) = String ch (a +:+ (b +:+ c))).
  rewrite IH. reflexivity.
Qed.

Lemma snapshot_apart (f s1 s2 : string) :
  s1 +:+ postfix <> s2 +:+ postfix -> snapshot f s1 <> snapshot f s2.
Proof.
  intros Hne E. apply Hne. unfold snapshot in E.
  apply (inj (String.append epochs_path)), (inj (String.append "/")) in E.
  rewrite !append_assoc in E. exact (inj (String.append f) _ _ E).
Qed.

Lemma holds_object (st : State) (x : string) (P : Epochs -> Prop) :
  holds (object st x) P <->
  exists l X, vars st !! x = Some (VEpochs l) /\ heap st !! l = Some X /\ P X.
Proof.
  unfold holds, object, var_epochs, lookup_var, deref, or_raise, mbind, Res_bind.
  split.
  - destruct (vars st !! x) as [[]|]; try tauto.
    destruct (heap st !! l) as [X|] eqn:HX; [|tauto]. eauto.
  - intros (l & X & -> & -> & HP). exact HP.
Qed.

Ltac apart Hsep :=
  repeat match goal with
  | Hx : vars ?s !! ?x = Some (VEpochs ?lx), Hy : vars ?s !! ?y = Some (VEpochs ?ly) |- _ =>
      lazymatch goal with _ : lx <> ly |- _ => fail | _ => idtac end;
      assert (lx <> ly) by (apply (Hsep x y lx ly); [discriminate | exact Hx | exact Hy])
  end.

Ltac infos :=
  repeat match goal with
  | Hp : pick_channels _ _ = Ok _ |- _ => apply pick_channels_fid in Hp
  | Hp : Faster.prepare_epochs_for_ica _ _ = Ok _ |- _ => apply prepare_annotation in Hp as [_ Hp]
  | Hp : Autoreject.reject _ _ _ = Ok _ |- _ => apply reject_annotation in Hp as [_ Hp]
  | Hp : inspect _ _ = Ok _ |- _ => apply inspect_trail in Hp as (? & _ & _ & _ & Hp & _)
  end.

Ltac look :=
  repeat first
    [ rewrite lookup_insert_eq
    | rewrite lookup_insert_ne by (first [discriminate | lia | congruence])
    | match goal with H : ?a = Some _ |- context [?a] => rewrite H end ];
  simpl.

(** What the invariant says of the objects at hand. *)
Ltac identities Hraw Hep :=
  repeat match goal with
  | Hv : vars ?s !! "epochs" = Some (VEpochs ?l), Hh : heap ?s !! ?l = Some ?X |- _ =>
      lazymatch goal with
      | _ : fid (info X) = subject _ |- _ => fail
      | _ => pose proof (Hep _ _ Hv Hh)
      end
  | Hv : vars ?s !! _ = Some (VRaw ?r) |- _ =>
      lazymatch goal with
      | _ : fid (raw_info r) = subject _ |- _ => fail
      | _ => pose proof (Hraw _ _ Hv)
      end
  end.

Ltac named_cell :=
  let st := fresh "st" in let st' := fresh "st'" in
  let Hwf := fresh "Hwf" in let Hlive := fresh "Hlive" in let Hsep := fresh "Hsep" in
  let Hraw := fresh "Hraw" in let Hep := fresh "Hep" in let Hc := fresh "Hc" in
  let Hn := fresh "Hn" in
  intros st st' ((Hwf & Hlive & Hsep) & Hn) Hc; open_cell Hc;
  simplify_map_eq; destruct Hn as (Hraw & Hep); infos; split;
  [ intros ? ?; simpl; var_intro; identities Hraw Hep; simpl; solve [eauto | congruence]
  | intros ? ?; simpl; look;
    (let E := fresh "E" in intros E; try (injection E as <-));
    old_bounds Hwf Hlive; apart Hsep; look;
    (let E := fresh "E" in intros E; try (injection E as <-));
    identities Hraw Hep; simpl in *; congruence ].

Ltac goal_object :=
  unfold carries, holds, object, var_epochs, lookup_var, deref, or_raise, mbind, Res_bind;
  simpl; look; simpl.

Ltac goal_file :=
  unfold on_disk, final_file_marked; simpl; unfold file_name; simpl;
  repeat match goal with Hf : fid (info _) = subject _ |- _ => rewrite Hf end;
  change (epochs_path +:+ "/" +:+ (?f +:+ ?s) +:+ postfix) with (snapshot f s);
  rewrite ?lookup_insert_eq;
  rewrite ?lookup_insert_ne by (apply snapshot_apart; vm_compute; discriminate).

Ltac saved_here :=
  let st := fresh "st" in let st' := fresh "st'" in
  let Hwf := fresh "Hwf" in let Hlive := fresh "Hlive" in let Hsep := fresh "Hsep" in
  let Hraw := fresh "Hraw" in let Hep := fresh "Hep" in let Hc := fresh "Hc" in
  let Hn := fresh "Hn" in
  intros st st' ((Hwf & Hlive & Hsep) & Hn) Hc; open_cell Hc;
  simplify_map_eq; destruct Hn as (Hraw & Hep); infos;
  old_bounds Hwf Hlive; apart Hsep; identities Hraw Hep;
  split; [goal_object; congruence | goal_file; simpl; congruence].

Ltac saved_cell :=
  let st := fresh "st" in let st' := fresh "st'" in
  let Hwf := fresh "Hwf" in let Hlive := fresh "Hlive" in let Hsep := fresh "Hsep" in
  let Hraw := fresh "Hraw" in let Hep := fresh "Hep" in let Hc := fresh "Hc" in
  let Hn := fresh "Hn" in let Hcar := fresh "Hcar" in let Hdisk := fresh "Hdisk" in
  let HF := fresh "HF" in
  intros st st' ((Hwf & Hlive & Hsep) & Hn) (Hcar & Hdisk) Hc;
  apply holds_object in Hcar as (? & ? & ? & ? & ?);
  unfold on_disk in Hdisk;
  match type of Hdisk with from_option _ _ ?o => destruct o eqn:HF; [|contradiction] end;
  simpl in Hdisk;
  open_cell Hc; simplify_map_eq; destruct Hn as (Hraw & Hep); infos;
  old_bounds Hwf Hlive; apart Hsep; identities Hraw Hep;
  split; [goal_object; congruence | goal_file; rewrite HF; simpl; exact Hdisk].

Lemma grounded_init (i : Inputs) : grounded i init.
Proof.
  split; [apply sound_init|].
  split; [intros x r Hx | intros l X Hx]; simpl in Hx; rewrite lookup_empty in Hx;
    discriminate.
Qed.

Section Grounded.
Context `{Collaborators}.
Variable i : Inputs.

Lemma cells_keep_named :
  Forall (fun c => forall st st', grounded i st -> c st = Ok st' -> named i st') (notebook i).
Proof. unfold notebook. each_cell named_cell. Qed.

Lemma cells_keep_grounded :
  Forall (fun c => forall st st', grounded i st -> c st = Ok st' -> grounded i st')
    (notebook i).
Proof.
  apply Forall_lookup. intros k c Hk st st' Hg Hc. split.
  - exact (proj1 (Forall_lookup _ _) (cells_keep_sound i) k c Hk st st' (proj1 Hg) Hc).
  - exact (proj1 (Forall_lookup _ _) cells_keep_named k c Hk st st' Hg Hc).
Qed.

Lemma reachable_grounded (n : nat) (st : State) : after i n = Ok st -> grounded i st.
Proof.
  apply (run_invariant (grounded i)); [apply Forall_take, cells_keep_grounded|].
  apply grounded_init.
Qed.

(** What the cell at position [k] brings about, and the [m] cells after
    it keep, holds in every run that ends among these cells. *)
Lemma established (Q : State -> Prop) (k m : nat) (c : State -> Res State) :
  notebook i !! k = Some c ->
  (forall st st', after i k = Ok st -> c st = Ok st' -> Q st') ->
  Forall (fun c => forall st st', grounded i st -> Q st -> c st = Ok st' -> Q st')
    (take m (drop (S k) (notebook i))) ->
  forall n st, S k <= n -> n <= S k + m \/ length (notebook i) <= S k + m ->
    after i n = Ok st -> Q st.
Proof.
  intros Hk Hest Hkeep n st Hn Hm Hrun.
  replace n with (S k + (n - S k)) in Hrun by lia.
  destruct (after_add i (S k) (n - S k) st Hrun) as (s1 & Hs1 & Hrest).
  destruct (after_S i k c s1 Hk Hs1) as (s0 & Hs0 & Hcell).
  assert (grounded i s1 /\ Q s1) as Hstart
    by (split; [exact (reachable_grounded _ _ Hs1) | exact (Hest _ _ Hs0 Hcell)]).
  refine (proj2 (run_invariant (fun s => grounded i s /\ Q s) _ _ s1 st Hstart Hrest)).
  assert (take (n - S k) (drop (S k) (notebook i))
          = take (n - S k) (take m (drop (S k) (notebook i)))) as ->.
  { destruct Hm as [Hm|Hm].
    - rewrite take_take. f_equal. lia.
    - rewrite (take_ge (drop _ _) m) by (rewrite length_drop; lia). reflexivity. }
  apply Forall_take, Forall_lookup. intros j c' Hj s s' [Hg HQ] Hc'. split.
  - apply lookup_take_Some in Hj as [Hj _]. rewrite lookup_drop in Hj.
    exact (proj1 (Forall_lookup _ _) cells_keep_grounded _ c' Hj s s' Hg Hc').
  - exact (proj1 (Forall_lookup _ _) Hkeep j c' Hj s s' Hg HQ Hc').
Qed.

Lemma saved_after_stage3 :
  Forall (fun c => forall st st', grounded i st -> saved i "epochs_faster" "_ICA" st ->
                     c st = Ok st' -> saved i "epochs_faster" "_ICA" st')
    (take 18 (drop 11 (notebook i))).
Proof. simpl. each_cell saved_cell. Qed.

Lemma saved_after_stage4 :
  Forall (fun c => forall st st', grounded i st ->
                     saved i "epochs_autoreject" "_ICA_autoreject" st ->
                     c st = Ok st' -> saved i "epochs_autoreject" "_ICA_autoreject" st')
    (take 13 (drop 16 (notebook i))).
Proof. simpl. each_cell saved_cell. Qed.

Lemma saved_after_stage6 :
  Forall (fun c => forall st st', grounded i st ->
                     saved i "epochs_ransac" "_ICA_autoreject_ransac" st ->
                     c st = Ok st' -> saved i "epochs_ransac" "_ICA_autoreject_ransac" st')
    (take 6 (drop 23 (notebook i))).
Proof. simpl. each_cell saved_cell. Qed.

Lemma saved_by_cell25 (st st' : State) :
  grounded i st -> cell25 st = Ok st' -> saved i "epochs_faster" "_ICA" st'.
Proof. revert st st'. saved_here. Qed.

Lemma saved_by_cell33 (st st' : State) :
  grounded i st -> cell33 st = Ok st' -> saved i "epochs_autoreject" "_ICA_autoreject" st'.
Proof. revert st st'. saved_here. Qed.

Lemma saved_by_cell47 (st st' : State) :
  grounded i st -> cell47 st = Ok st' ->
  saved i "epochs_ransac" "_ICA_autoreject_ransac" st'.
Proof. revert st st'. saved_here. Qed.

Lemma run_saved_faster (n : nat) (st : State) :
  11 <= n -> after i n = Ok st -> saved i "epochs_faster" "_ICA" st.
Proof.
  intros Hn. apply (established _ 10 18 cell25 eq_refl); [| |lia|right; simpl; lia].
  - intros s s' Hs. apply saved_by_cell25. exact (reachable_grounded _ _ Hs).
  - apply saved_after_stage3.
Qed.

Lemma run_saved_autoreject (n : nat) (st : State) :
  16 <= n -> after i n = Ok st -> saved i "epochs_autoreject" "_ICA_autoreject" st.
Proof.
  intros Hn. apply (established _ 15 13 cell33 eq_refl); [| |lia|right; simpl; lia].
  - intros s s' Hs. apply saved_by_cell33. exact (reachable_grounded _ _ Hs).
  - apply saved_after_stage4.
Qed.

Lemma run_saved_ransac (n : nat) (st : State) :
  23 <= n -> after i n = Ok st -> saved i "epochs_ransac" "_ICA_autoreject_ransac" st.
Proof.
  intros Hn. apply (established _ 22 6 cell47 eq_refl); [| |lia|right; simpl; lia].
  - intros s s' Hs. apply saved_by_cell47. exact (reachable_grounded _ _ Hs).
  - apply saved_after_stage6.
Qed.

Lemma logged_under (x suffix : string) (st st' : State) :
  carries i x suffix st -> log_cell x st = Ok st' ->
  EvUpdateLog (subject i +:+ suffix) ∈ trace st'.
Proof.
  intros Hcar Hc. apply holds_object in Hcar as (l & X & Hv & Hh & Hf).
  open_cell Hc. simplify_map_eq. simpl. rewrite Hf.
  apply elem_of_app. right. apply list_elem_of_here.
Qed.

Lemma trace_kept (ev : Event) (m k : nat) :
  Forall (fun c => forall st st', grounded i st -> ev ∈ trace st -> c st = Ok st' ->
                     ev ∈ trace st')
    (take m (drop k (notebook i))).
Proof.
  apply Forall_take, Forall_drop.
  eapply Forall_impl; [apply cells_append|]. intros c Hc st st' _ Hin Hrun.
  destruct (Hc _ _ Hrun) as (evs & ->). apply elem_of_app. left. exact Hin.
Qed.

Lemma run_logged (k : nat) (x suffix : string) (n : nat) (st : State) :
  notebook i !! k = Some (log_cell x) ->
  (forall s, after i k = Ok s -> saved i x suffix s) ->
  S k <= n -> after i n = Ok st -> EvUpdateLog (subject i +:+ suffix) ∈ trace st.
Proof.
  intros Hk Hsaved Hn.
  apply (established (fun s => EvUpdateLog (subject i +:+ suffix) ∈ trace s)
           k 29 (log_cell x) Hk); [| |lia|right; simpl; lia].
  - intros s s' Hs. apply logged_under. exact (proj1 (Hsaved s Hs)).
  - apply (trace_kept (EvUpdateLog (subject i +:+ suffix))).
Qed.

End Grounded.

(** X5: the three save cells name their snapshot after the recording.
    Each reads the identifier from [epochs], which still has the one the
    recording came with, and not from the object it saves (which, being a
    copy of the previous stage's output, carries that stage's suffix).  So
    from the Stage 3 save on, the object bound to [epochs_faster] has the
    recording's identifier followed by [_ICA] and the file of that name
    holds a snapshot with this identifier; likewise [_ICA_autoreject] for
    [epochs_autoreject] from the Stage 4 save on and
    [_ICA_autoreject_ransac] for [epochs_ransac] from the Stage 6 save on.
    The file of a stage still holds a snapshot with that stage's
    identifier at the end of the run: no later save overwrites it. *)
Theorem snapshots_are_named_after_the_recording `{Collaborators} (i : Inputs) (n : nat)
    (st : State) :
  after i n = Ok st ->
  (11 <= n -> saved i "epochs_faster" "_ICA" st) /\
  (16 <= n -> saved i "epochs_autoreject" "_ICA_autoreject" st) /\
  (23 <= n -> saved i "epochs_ransac" "_ICA_autoreject_ransac" st).
Proof.
  intros Hrun. split; [|split]; intros Hn.
  - exact (run_saved_faster i n st Hn Hrun).
  - exact (run_saved_autoreject i n st Hn Hrun).
  - exact (run_saved_ransac i n st Hn Hrun).
Qed.

Lemma snapshots_are_named_after_the_recording_witness :
  exists st,
    @run Demo.collaborators Demo.inputs = Ok st /\
    saved Demo.inputs "epochs_ransac" "_ICA_autoreject_ransac" st.
Proof.
  destruct (is_ok_Ok (@after Demo.collaborators Demo.inputs 29)) as [st E];
    [vm_compute; reflexivity|].
  exists st. split; [exact E|].
  apply (proj2 (proj2
    (@snapshots_are_named_after_the_recording Demo.collaborators Demo.inputs 29 st E))).
  lia.
Defined.

(** X6: a save cell can be run again.  When the name it saves is bound to
    another object than [epochs], a second run finds the identifier it
    would assign already there: the store, the bindings and the files
    are after it what they were before it, and the one thing it adds is
    a second save of the same file to the trace.  The suffix is not
    appended a second time. *)
Theorem save_cell_run_again (x suffix : string) (st st1 st2 : State) (lx le : nat) :
  vars st !! x = Some (VEpochs lx) -> vars st !! "epochs" = Some (VEpochs le) ->
  lx <> le ->
  save_as x suffix st = Ok st1 -> save_as x suffix st1 = Ok st2 ->
  heap st2 = heap st1 /\ vars st2 = vars st1 /\ files st2 = files st1 /\
  exists path, trace st1 = trace st ++ [EvSave path] /\
               trace st2 = trace st1 ++ [EvSave path].
Proof.
  intros Hx He Hne H1 H2.
  unfold save_as, object, var_epochs, lookup_var, deref, or_raise in H1.
  rewrite He in H1. cbn [mbind Res_bind] in H1.
  destruct (heap st !! le) as [E|] eqn:HE; cbn [mbind Res_bind] in H1; [|discriminate].
  simpl in H1.
  assert (x <> "fid") as Hfid.
  { intros ->. rewrite lookup_insert_eq in H1. discriminate. }
  rewrite lookup_insert_ne, Hx in H1 by congruence. simpl in H1.
  destruct (heap st !! lx) as [X|] eqn:HX; simpl in H1; [|discriminate].
  injection H1 as <-.
  unfold save_as, object, var_epochs, lookup_var, deref, or_raise in H2. simpl in H2.
  rewrite lookup_insert_ne, He in H2 by discriminate. simpl in H2.
  rewrite lookup_insert_ne, HE in H2 by exact Hne. simpl in H2.
  rewrite !lookup_insert_ne, Hx in H2 by congruence. simpl in H2.
  rewrite lookup_insert_eq in H2. simpl in H2.
  injection H2 as <-.
  simpl. rewrite !insert_insert_eq.
  split; [reflexivity|]. split; [reflexivity|]. split; [reflexivity|].
  eexists. split; reflexivity.
Qed.

Lemma save_cell_run_again_witness :
  exists st st1 st2,
    @after Demo.collaborators Demo.inputs stage3 = Ok st /\
    cell25 st = Ok st1 /\ cell25 st1 = Ok st2 /\
    heap st2 = heap st1 /\ vars st2 = vars st1 /\ files st2 = files st1.
Proof.
  destruct (is_ok_Ok (@after Demo.collaborators Demo.inputs 11)) as [st1 E1];
    [vm_compute; reflexivity|].
  destruct (@after_S Demo.collaborators Demo.inputs 10 cell25 st1 eq_refl E1)
    as (st & E & Hc1).
  destruct (is_ok_Ok (cell25 st1)) as [st2 Hc2].
  { apply (bind_Ok (fun s => is_ok (cell25 s)) _ _ _ E1). vm_compute. reflexivity. }
  assert (vars st !! "epochs_faster" = Some (VEpochs 2)) as Hx.
  { apply (bind_Ok (fun s => vars s !! "epochs_faster") _ _ _ E). vm_compute. reflexivity. }
  assert (vars st !! "epochs" = Some (VEpochs 1)) as He.
  { apply (bind_Ok (fun s => vars s !! "epochs") _ _ _ E). vm_compute. reflexivity. }
  exists st, st1, st2. split; [exact E|]. split; [exact Hc1|]. split; [exact Hc2|].
  destruct (save_cell_run_again "epochs_faster" "_ICA" st st1 st2 2 1 Hx He
              ltac:(discriminate) Hc1 Hc2) as (Hh & Hv & Hf & _).
  auto.
Defined.

(** X7: each stage is logged under the identifier its snapshot was
    saved with: in a run that has come past a log cell, [update_log] has
    been called for the recording's identifier followed by [_ICA], by
    [_ICA_autoreject] and by [_ICA_autoreject_ransac] respectively. *)
Theorem stages_are_logged_under_their_snapshot `{Collaborators} (i : Inputs) (n : nat)
    (st : State) :
  after i n = Ok st ->
  (13 <= n -> EvUpdateLog (subject i +:+ "_ICA") ∈ trace st) /\
  (18 <= n -> EvUpdateLog (subject i +:+ "_ICA_autoreject") ∈ trace st) /\
  (25 <= n -> EvUpdateLog (subject i +:+ "_ICA_autoreject_ransac") ∈ trace st).
Proof.
  intros Hrun. split; [|split]; intros Hn.
  - apply (run_logged i 12 "epochs_faster" "_ICA" n st eq_refl); [|lia|exact Hrun].
    intros s. apply run_saved_faster. lia.
  - apply (run_logged i 17 "epochs_autoreject" "_ICA_autoreject" n st eq_refl);
      [|lia|exact Hrun].
    intros s. apply run_saved_autoreject. lia.
  - apply (run_logged i 24 "epochs_ransac" "_ICA_autoreject_ransac" n st eq_refl);
      [|lia|exact Hrun].
    intros s. apply run_saved_ransac. lia.
Qed.

Lemma stages_are_logged_under_their_snapshot_witness :
  exists st,
    @run Demo.collaborators Demo.inputs = Ok st /\
    EvUpdateLog (subject Demo.inputs +:+ "_ICA_autoreject") ∈ trace st.
Proof.
  destruct (is_ok_Ok (@after Demo.collaborators Demo.inputs 29)) as [st E];
    [vm_compute; reflexivity|].
  exists st. split; [exact E|].
  apply (proj1 (proj2
    (@stages_are_logged_under_their_snapshot Demo.collaborators Demo.inputs 29 st E))).
  lia.
Defined.

(** ** Descriptions *)

Lemma holds_var_ica (st : State) (x : string) (P : Ica -> Prop) :
  holds (var_ica st x) P <-> exists a, vars st !! x = Some (VIca a) /\ P a.
Proof.
  unfold holds, var_ica, lookup_var, or_raise, mbind, Res_bind. split.
  - destruct (vars st !! x) as [[]|]; try tauto. eauto.
  - intros (a & -> & HP). exact HP.
Qed.

Lemma holds_var_ransac (st : State) (x : string) (P : list string -> Prop) :
  holds (var_ransac st x) P <-> exists a, vars st !! x = Some (VRansac a) /\ P a.
Proof.
  unfold holds, var_ransac, lookup_var, or_raise, mbind, Res_bind. split.
  - destruct (vars st !! x) as [[]|]; try tauto. eauto.
  - intros (a & -> & HP). exact HP.
Qed.

Ltac goal_described :=
  unfold described, described_interpolated, marked, holds, var_ica, var_ransac, object,
    var_epochs, lookup_var, deref, or_raise, mbind, Res_bind;
  simpl; look; simpl.

Ltac given_described HD :=
  first
    [ apply holds_var_ica in HD as (? & ? & HD);
      first [ apply holds_var_ransac in HD as (? & ? & HD) | idtac ];
      apply holds_object in HD as (? & ? & ? & ? & ?)
    | apply holds_object in HD as (? & ? & ? & ? & ?) ].

(** A cell that keeps [Q], or brings it about from [P]. *)
Ltac described_cell :=
  let st := fresh "st" in let st' := fresh "st'" in
  let Hwf := fresh "Hwf" in let Hlive := fresh "Hlive" in let Hsep := fresh "Hsep" in
  let Hc := fresh "Hc" in let Hn := fresh "Hn" in let HD := fresh "HD" in
  intros st st' ((Hwf & Hlive & Hsep) & Hn) HD Hc;
  given_described HD;
  open_cell Hc; simplify_map_eq; infos;
  old_bounds Hwf Hlive; apart Hsep;
  goal_described; congruence.

Section Described.
Context `{Collaborators}.
Variable i : Inputs.

Lemma described_by_cell21 (st st' : State) :
  cell21 st = Ok st' -> described "epochs_faster" st'.
Proof.
  intros Hc. open_cell Hc. simplify_map_eq. goal_described. reflexivity.
Qed.

Lemma described_after_stage3 :
  Forall (fun c => forall st st', grounded i st -> described "epochs_faster" st ->
                     c st = Ok st' -> described "epochs_faster" st')
    (take 19 (drop 10 (notebook i))).
Proof. simpl. each_cell described_cell. Qed.

Lemma described_by_cell31 (st st' : State) :
  grounded i st -> described "epochs_faster" st -> cell31 st = Ok st' ->
  described "epochs_autoreject" st'.
Proof. revert st st'. described_cell. Qed.

Lemma described_after_stage4 :
  Forall (fun c => forall st st', grounded i st -> described "epochs_autoreject" st ->
                     c st = Ok st' -> described "epochs_autoreject" st')
    (take 14 (drop 15 (notebook i))).
Proof. simpl. each_cell described_cell. Qed.

Lemma described_by_cell40 (st st' : State) :
  grounded i st -> described "epochs_autoreject" st -> cell40 st = Ok st' ->
  described_interpolated st'.
Proof. revert st st'. described_cell. Qed.

Lemma described_after_stage5 :
  Forall (fun c => forall st st', grounded i st -> described_interpolated st ->
                     c st = Ok st' -> described_interpolated st')
    (take 8 (drop 21 (notebook i))).
Proof. simpl. each_cell described_cell. Qed.

Lemma run_described_faster (n : nat) (st : State) :
  10 <= n -> after i n = Ok st -> described "epochs_faster" st.
Proof.
  intros Hn. apply (established i _ 9 19 cell21 eq_refl); [| |lia|right; simpl; lia].
  - intros s s' _. apply described_by_cell21.
  - apply described_after_stage3.
Qed.

Lemma run_described_autoreject (n : nat) (st : State) :
  15 <= n -> after i n = Ok st -> described "epochs_autoreject" st.
Proof.
  intros Hn. apply (established i _ 14 14 cell31 eq_refl); [| |lia|right; simpl; lia].
  - intros s s' Hs. apply described_by_cell31.
    + exact (reachable_grounded i _ _ Hs).
    + apply (run_described_faster 14); [lia | exact Hs].
  - apply described_after_stage4.
Qed.

Lemma run_described_interpolated (n : nat) (st : State) :
  21 <= n -> after i n = Ok st -> described_interpolated st.
Proof.
  intros Hn. apply (established i _ 20 8 cell40 eq_refl); [| |lia|right; simpl; lia].
  - intros s s' Hs. apply described_by_cell40.
    + exact (reachable_grounded i _ _ Hs).
    + apply (run_described_autoreject 20); [lia | exact Hs].
  - apply described_after_stage5.
Qed.

End Described.

(** X9: what the description says, stage after stage.  From Stage 3 on
    the object bound to [epochs_faster] is described by the number of
    components excluded from the decomposition bound to [ica]; from
    Stage 4 on the object bound to [epochs_autoreject] has the same
    description; from Stage 5 on the description of the object bound to
    [epochs_ransac] is that count followed by [, interpolated: ] and the
    channels RANSAC reported, joined by commas (nothing after the colon
    when it reported none). *)
Theorem descriptions_stage_by_stage `{Collaborators} (i : Inputs) (n : nat) (st : State) :
  after i n = Ok st ->
  (stage3 <= n -> described "epochs_faster" st) /\
  (stage4 <= n -> described "epochs_autoreject" st) /\
  (stage5 <= n -> described_interpolated st).
Proof.
  unfold stage3, stage4, stage5. intros Hrun. split; [|split]; intros Hn.
  - exact (run_described_faster i n st Hn Hrun).
  - exact (run_described_autoreject i n st Hn Hrun).
  - exact (run_described_interpolated i n st Hn Hrun).
Qed.

Lemma descriptions_stage_by_stage_witness :
  exists st,
    @run Demo.collaborators Demo.inputs = Ok st /\ described_interpolated st.
Proof.
  destruct (is_ok_Ok (@after Demo.collaborators Demo.inputs 29)) as [st E];
    [vm_compute; reflexivity|].
  exists st. split; [exact E|].
  apply (proj2 (proj2
    (@descriptions_stage_by_stage Demo.collaborators Demo.inputs 29 st E))).
  unfold stage5. lia.
Defined.

(** ** The interpolation cell *)

(** X11: the interpolation cell appends to the description of the copy it
    makes.  On an object whose description was never written (the
    decomposition has not been applied) there is nothing to append to:
    the cell stops with a [TypeError]. *)
Theorem interpolation_needs_a_description `{Collaborators} (st : State) (X : Epochs)
    (bad : list string) :
  object st "epochs_autoreject" = Ok X -> var_ransac st "ransac" = Ok bad ->
  description (info X) = None ->
  cell40 st = Err TypeError.
Proof.
  unfold object, var_epochs, var_ransac, lookup_var, deref, or_raise, mbind, Res_bind.
  destruct (vars st !! "epochs_autoreject") as [[]|] eqn:Hv; try discriminate.
  destruct (heap st !! l) as [X0|] eqn:Hh; [|discriminate]. intros [= ->].
  destruct (vars st !! "ransac") as [[]|] eqn:Hr; try discriminate. intros [= ->] Hd.
  unfold cell40, object, var_epochs, var_ransac, lookup_var, deref, or_raise, alloc,
    mbind, Res_bind.
  rewrite Hv, Hh. simpl.
  rewrite lookup_insert_ne, Hr by discriminate.
  repeat (rewrite lookup_insert_eq; simpl).
  rewrite Hd. reflexivity.
Qed.

Lemma interpolation_needs_a_description_witness :
  @cell40 Demo.collaborators
    (bind_var "ransac" (VRansac ["Fz"])
       (bind_var "epochs_autoreject" (VEpochs 0) (alloc Demo.epochs init).2))
  = Err TypeError.
Proof.
  apply (@interpolation_needs_a_description Demo.collaborators _ Demo.epochs ["Fz"]);
    vm_compute; reflexivity.
Defined.

(** ** More on the 1/f cell *)

Lemma corrected_rect (p : TFR) :
  Forall (fun ch => length ch = length (freqs p)) (data p) ->
  Forall (fun ch => length ch = length (freqs p)) (corrected p).
Proof.
  intros Hrect. unfold corrected.
  change (map ?f ?l) with (f <$> l). apply Forall_fmap.
  eapply Forall_impl; [exact Hrect|]. intros ch Hch. simpl in *.
  rewrite length_zip_with. lia.
Qed.

Lemma corrected_lookup (p : TFR) (e f t : nat) (ch : list (list float)) (row : list float)
    (x fr : float) :
  data p !! e = Some ch -> ch !! f = Some row -> row !! t = Some x ->
  freqs p !! f = Some fr ->
  exists ch' row',
    corrected p !! e = Some ch' /\ ch' !! f = Some row' /\
    row' !! t = Some (x / (1 / fr))%float.
Proof.
  intros Hch Hrow Hx Hf.
  exists (zip_with scale_row (freqs p) ch), (scale_row fr row).
  split; [unfold corrected; rewrite map_lookup, Hch; reflexivity|].
  split; [rewrite lookup_zip_with, Hf, Hrow; reflexivity|].
  unfold scale_row. rewrite map_lookup, Hx. reflexivity.
Qed.

(** X13: the 1/f cell, run a second time, works on the array the first run
    assigned to [power.data]: every value has then been divided by
    [1 / freqs[f]] twice, in binary64 arithmetic. *)
Theorem normalization_run_twice (p : TFR) :
  Forall (fun ch => length ch = length (freqs p)) (data p) ->
  exists p1 p2,
    normalize p = Ok p1 /\ normalize p1 = Ok p2 /\
    freqs p2 = freqs p /\
    forall e f t ch row x fr,
      data p !! e = Some ch -> ch !! f = Some row -> row !! t = Some x ->
      freqs p !! f = Some fr ->
      exists ch2 row2,
        data p2 !! e = Some ch2 /\ ch2 !! f = Some row2 /\
        row2 !! t = Some (x / (1 / fr) / (1 / fr))%float.
Proof.
  intros Hrect.
  set (p1 := {| data := corrected p; freqs := freqs p |}).
  assert (Forall (fun ch => length ch = length (freqs p1)) (data p1)) as Hrect1
    by exact (corrected_rect p Hrect).
  exists p1, {| data := corrected p1; freqs := freqs p1 |}.
  split; [unfold normalize; rewrite (power_f_corrected_eq p (length (freqs p))) by auto;
          reflexivity|].
  split; [unfold normalize; rewrite (power_f_corrected_eq p1 (length (freqs p1))) by auto;
          reflexivity|].
  split; [reflexivity|].
  intros e f t ch row x fr Hch Hrow Hx Hf.
  destruct (corrected_lookup p e f t ch row x fr Hch Hrow Hx Hf) as (ch1 & row1 & H1 & H2 & H3).
  destruct (corrected_lookup p1 e f t ch1 row1 _ fr H1 H2 H3 Hf) as (ch2 & row2 & G1 & G2 & G3).
  exists ch2, row2. split; [exact G1|]. split; [exact G2 | exact G3].
Qed.

(** The demo power, normalised twice: the value 8 at 8 Hz has become 512. *)
Lemma normalization_run_twice_witness :
  Forall (fun ch => length ch = length (freqs Demo.power)) (data Demo.power) /\
  exists p1 p2, normalize Demo.power = Ok p1 /\ normalize p1 = Ok p2 /\
                freqs p2 = [4; 8]%float /\
                exists ch2 row2, data p2 !! 1 = Some ch2 /\ ch2 !! 1 = Some row2 /\
                                 row2 !! 1 = Some (8 / (1 / 8) / (1 / 8))%float.
Proof.
  assert (Forall (fun ch => length ch = length (freqs Demo.power)) (data Demo.power))
    as Hrect by (repeat constructor).
  split; [exact Hrect|].
  destruct (normalization_run_twice Demo.power Hrect) as (p1 & p2 & H1 & H2 & Hf & Hv).
  exists p1, p2. split; [exact H1|]. split; [exact H2|]. split; [exact Hf|].
  exact (Hv 1 1 1 [[5; 6]; [7; 8]]%float [7; 8]%float 8%float 8%float
           eq_refl eq_refl eq_refl eq_refl).
Defined.

Lemma for_range_ext {S : Type} (idx : list nat) (b1 b2 : nat -> S -> Res S) (s : S) :
  (forall k s, k ∈ idx -> b1 k s = b2 k s) ->
  for_range idx b1 s = for_range idx b2 s.
Proof.
  revert s. induction idx as [|k idx IH]; intros s Hext; [reflexivity|].
  simpl. rewrite (Hext k s) by apply list_elem_of_here.
  destruct (b2 k s) as [s1|er]; simpl; [|reflexivity].
  apply IH. intros k' s' Hin. apply Hext. apply list_elem_of_further, Hin.
Qed.

Lemma for_range_error {S : Type} (E : Error) (idx : list nat) (b : nat -> S -> Res S) (s : S)
    (er : Error) :
  (forall k s er, b k s = Err er -> er = E) ->
  for_range idx b s = Err er -> er = E.
Proof.
  intros Hb. revert s. induction idx as [|k idx IH]; intros s; simpl; [discriminate|].
  destruct (b k s) as [s1|er1] eqn:Hk; simpl.
  - apply IH.
  - intros [= <-]. exact (Hb _ _ _ Hk).
Qed.

Lemma for_range_ok_each {S : Type} (idx : list nat) (b : nat -> S -> Res S) (s s' : S) :
  for_range idx b s = Ok s' ->
  forall k, k ∈ idx -> exists a a', b k a = Ok a'.
Proof.
  revert s. induction idx as [|j idx IH]; intros s Hrun k Hin; [inversion Hin|].
  simpl in Hrun. destruct (b j s) as [s1|er] eqn:Hj; simpl in Hrun; [|discriminate].
  apply elem_of_cons in Hin as [->|Hin]; [eauto | exact (IH _ Hrun k Hin)].
Qed.

Lemma body_error (p : TFR) (e f : nat) (acc : list (list (list float))) (er : Error) :
  body p e f acc = Err er -> er = IndexError.
Proof.
  unfold body, getitem2, setitem2, or_raise, mbind, Res_bind.
  repeat match goal with
  | |- context [match ?m with _ => _ end] =>
      lazymatch m with
      | context [match _ with _ => _ end] => fail
      | _ => destruct m
      end
  end; congruence.
Qed.

Lemma body_ok_frequency (p : TFR) (e f : nat) (acc acc' : list (list (list float))) :
  body p e f acc = Ok acc' -> is_Some (freqs p !! f).
Proof.
  unfold body, getitem2, or_raise, mbind, Res_bind.
  destruct (data p !! e) as [ch|]; [|discriminate].
  destruct (ch !! f); [|discriminate].
  destruct (freqs p !! f); [eauto | discriminate].
Qed.

Lemma shape1_rect (a : list (list (list float))) (nf : nat) :
  a <> [] -> Forall (fun ch => length ch = nf) a -> shape1 a = nf.
Proof. intros Hne Hrect. destruct Hrect as [|ch rest Hch _]; [congruence | exact Hch]. Qed.

Lemma power_f_corrected_spare (p : TFR) (nf : nat) :
  Forall (fun ch => length ch = nf) (data p) -> nf <= length (freqs p) ->
  power_f_corrected p = Ok (corrected p).
Proof.
  intros Hrect Hle.
  set (q := {| data := data p; freqs := take nf (freqs p) |}).
  assert (power_f_corrected p = power_f_corrected q) as ->.
  { unfold power_f_corrected. simpl. apply for_range_ext. intros e acc _.
    apply for_range_ext. intros f acc' Hf. apply elem_of_seq in Hf.
    assert (f < nf) as Hlt.
    { destruct (data p) as [|ch rest] eqn:Hd; [simpl in Hf; lia|].
      rewrite <- (shape1_rect (ch :: rest) nf); [lia | discriminate | exact Hrect]. }
    unfold body. simpl. rewrite lookup_take_lt by exact Hlt. reflexivity. }
  rewrite (power_f_corrected_eq q nf); [|exact Hrect|simpl; rewrite length_take; lia].
  f_equal. unfold corrected. simpl. apply map_ext_Forall.
  eapply Forall_impl; [exact Hrect|]. intros ch Hch. simpl in *.
  apply zip_with_take_l'. lia.
Qed.

(** X15: the loop reads [power.freqs[f]] for every row index [f] of the
    array.  On an array whose channels all have [nf] rows it returns when
    the frequency axis has at least [nf] entries (those past [nf] are
    never read) and, when the array is not empty and the axis is shorter,
    stops with an [IndexError]. *)
Theorem normalization_frequency_axis (p : TFR) (nf : nat) :
  Forall (fun ch => length ch = nf) (data p) ->
  (nf <= length (freqs p) ->
     normalize p = Ok {| data := corrected p; freqs := freqs p |}) /\
  (data p <> [] -> length (freqs p) < nf -> normalize p = Err IndexError).
Proof.
  intros Hrect. split.
  - intros Hle. unfold normalize. rewrite (power_f_corrected_spare p nf Hrect Hle).
    reflexivity.
  - intros Hne Hlt. unfold normalize.
    destruct (power_f_corrected p) as [out|er] eqn:Hrun; cbn [mbind Res_bind].
    + exfalso. unfold power_f_corrected in Hrun.
      rewrite (shape1_rect _ nf Hne Hrect) in Hrun.
      destruct (for_range_ok_each _ _ _ _ Hrun 0) as (a & a' & Hin).
      { apply elem_of_seq. unfold shape0. destruct (data p); [congruence | simpl; lia]. }
      destruct (for_range_ok_each _ _ _ _ Hin (length (freqs p))) as (b & b' & Hb).
      { apply elem_of_seq. lia. }
      apply body_ok_frequency in Hb as [fr Hfr].
      apply lookup_lt_Some in Hfr. lia.
    + f_equal. unfold power_f_corrected in Hrun.
      apply (for_range_error IndexError) in Hrun; [exact Hrun|].
      intros e acc er' Hin. apply (for_range_error IndexError) in Hin; [exact Hin|].
      intros f acc' er''. apply body_error.
Qed.

Lemma normalization_frequency_axis_witness :
  Forall (fun ch => length ch = 2) (data {| data := data Demo.power; freqs := [4]%float |}) /\
  normalize {| data := data Demo.power; freqs := [4]%float |} = Err IndexError.
Proof.
  assert (Forall (fun ch => length ch = 2)
            (data {| data := data Demo.power; freqs := [4]%float |}))
    as Hrect by (repeat constructor).
  split; [exact Hrect|].
  apply (proj2 (normalization_frequency_axis _ 2 Hrect)); [discriminate | simpl; lia].
Defined.

(** ** A user who only looks *)

Lemma select_none {A} (l : list A) (k : nat) (b : bool) :
  select (map (fun _ => false) (seq k (length l))) b l = if b then [] else l.
Proof.
  unfold select. revert k. induction l as [|x l IH]; intros k; simpl.
  - destruct b; reflexivity.
  - rewrite filter_cons. simpl. specialize (IH (S k)).
    destruct b; destruct (decide _) as [E|E]; try congruence; simpl;
      first [exact IH | f_equal; exact IH].
Qed.

Lemma inspect_only_looks (X : Epochs) : inspect only_looks X = Ok X.
Proof.
  rewrite inspect_spec. simpl. rewrite !select_none. simpl. rewrite app_nil_r.
  destruct X as [ev dl [f d b c]]. reflexivity.
Qed.

Lemma plot_epochs_only_looks (x : string) (st st' : State) :
  plot_epochs x only_looks st = Ok st' -> st' = st.
Proof.
  intros Hc. open_cell Hc.
  match goal with Hi : inspect _ _ = Ok _ |- _ =>
    rewrite inspect_only_looks in Hi; injection Hi as <- end.
  destruct st. unfold store. simpl in *. f_equal. apply insert_id. assumption.
Qed.

Lemma plot_raw_only_looks (x : string) (st st' : State) :
  plot_raw x only_looks st = Ok st' -> st' = st.
Proof.
  intros Hc. open_cell Hc.
  destruct st. unfold bind_var. simpl in *. f_equal. apply insert_id.
  match goal with Hv : _ !! x = Some (VRaw ?r) |- _ =>
    rewrite Hv; destruct r as [sg sf [f d b c]]; reflexivity end.
Qed.

(** A cell that changes nothing can be left out of a run. *)
Lemma run_delete (k : nat) (cs : list (State -> Res State)) (p : State -> Res State)
    (s s' : State) :
  cs !! k = Some p -> (forall t t', p t = Ok t' -> t' = t) ->
  run_cells cs s = Ok s' -> run_cells (delete k cs) s = Ok s'.
Proof.
  intros Hk Hid. revert k s Hk. induction cs as [|c cs IH]; intros k s Hk Hrun.
  - rewrite lookup_nil in Hk. discriminate.
  - simpl in Hrun. destruct (c s) as [s1|e] eqn:Hs1; simpl in Hrun; [|discriminate].
    destruct k as [|k]; simpl in *.
    + injection Hk as ->. rewrite (Hid _ _ Hs1) in Hrun. exact Hrun.
    + rewrite Hs1. simpl. apply IH; assumption.
Qed.

Section Looking.
Context `{Collaborators}.
Variable i : Inputs.

Lemma window_changes_nothing (k : nat) (p : State -> Res State) :
  k ∈ plots -> session i passive !! k = Some p -> forall t t', p t = Ok t' -> t' = t.
Proof.
  unfold plots, epoch_plots. intros Hk Hp t t'.
  repeat (apply elem_of_cons in Hk as [->|Hk]); [..|inversion Hk];
    simpl in Hp; injection Hp as <-.
  - apply plot_raw_only_looks.
  - unfold cell23, var_raw, lookup_var, or_raise, mbind, Res_bind.
    destruct (vars t !! "raw") as [[]|]; try discriminate. apply plot_epochs_only_looks.
  - apply plot_epochs_only_looks.
  - apply plot_epochs_only_looks.
  - apply plot_epochs_only_looks.
Qed.

Ltac leave_out k Hrun :=
  try (eapply (run_delete k) in Hrun;
       [ cbn [delete list_delete] in Hrun
       | reflexivity
       | apply (window_changes_nothing k); [unfold plots, epoch_plots; in_list | reflexivity] ]).

Lemma passive_run (m : nat) (st : State) :
  upto i passive m = Ok st -> after i (computing m) = Ok st.
Proof.
  unfold upto, after. intros Hrun.
  assert (m < 34 \/ 34 <= m) as [Hm|Hm] by lia.
  - do 34 (destruct m as [|m];
           [ unfold session in Hrun; cbn [take] in Hrun;
             leave_out 25 Hrun; leave_out 23 Hrun; leave_out 17 Hrun; leave_out 11 Hrun;
             leave_out 3 Hrun; exact Hrun |]).
    lia.
  - rewrite take_ge in Hrun by (simpl; lia).
    rewrite take_ge by (unfold computing, plots, epoch_plots; simpl;
                        repeat (rewrite filter_cons_True by lia); simpl; lia).
    unfold session in Hrun.
    leave_out 25 Hrun. leave_out 23 Hrun. leave_out 17 Hrun. leave_out 11 Hrun.
    leave_out 3 Hrun. exact Hrun.
Qed.

End Looking.

(** X17: a user who closes every plot window without touching it.  A
    window then changes nothing, and the session goes through the states
    of the notebook's computing cells: after [m] cells of the session,
    windows included, the state is the one after the computing cells among
    them. *)
Theorem looking_changes_nothing `{Collaborators} (i : Inputs) (m : nat) (st : State) :
  upto i passive m = Ok st ->
  after i (computing m) = Ok st /\
  (forall x s s', plot_epochs x only_looks s = Ok s' -> s' = s) /\
  (forall x s s', plot_raw x only_looks s = Ok s' -> s' = s).
Proof.
  intros Hrun. split; [exact (passive_run i m st Hrun)|]. split.
  - intros x s s'. apply plot_epochs_only_looks.
  - intros x s s'. apply plot_raw_only_looks.
Qed.

Lemma looking_changes_nothing_witness :
  exists st,
    @upto Demo.collaborators Demo.inputs passive 34 = Ok st /\
    @run Demo.collaborators Demo.inputs = Ok st.
Proof.
  destruct (is_ok_Ok (@upto Demo.collaborators Demo.inputs passive 34)) as [st E];
    [vm_compute; reflexivity|].
  exists st. split; [exact E|].
  exact (proj1 (@looking_changes_nothing Demo.collaborators Demo.inputs 34 st E)).
Defined.

(** * The session with its plot windows *)

(** ** Names, objects and identifiers *)

Section Windows.
Context `{Collaborators}.
Variable i : Inputs.
Variable u : User.

Lemma session_keep_live :
  Forall (fun c => forall st st', sound st -> c st = Ok st' -> live st') (session i u).
Proof. unfold session. each_cell live_cell. Qed.

Lemma session_keep_separate :
  Forall (fun c => forall st st', sound st -> c st = Ok st' -> separate st') (session i u).
Proof. unfold session. each_cell separate_cell. Qed.

Lemma session_keep_named :
  Forall (fun c => forall st st', grounded i st -> c st = Ok st' -> named i st') (session i u).
Proof. unfold session. each_cell named_cell. Qed.

Lemma session_keep_grounded :
  Forall (fun c => forall st st', grounded i st -> c st = Ok st' -> grounded i st')
    (session i u).
Proof.
  apply Forall_lookup. intros k c Hk st st' Hg Hc. split; [split; [|split]|].
  - exact (proj1 (Forall_lookup _ _) (session_preserves_wf i u) k c Hk st st'
             (proj1 (proj1 Hg)) Hc).
  - exact (proj1 (Forall_lookup _ _) session_keep_live k c Hk st st' (proj1 Hg) Hc).
  - exact (proj1 (Forall_lookup _ _) session_keep_separate k c Hk st st' (proj1 Hg) Hc).
  - exact (proj1 (Forall_lookup _ _) session_keep_named k c Hk st st' Hg Hc).
Qed.

Lemma session_grounded (n : nat) (st : State) : upto i u n = Ok st -> grounded i st.
Proof.
  apply (run_invariant (grounded i)); [apply Forall_take, session_keep_grounded|].
  apply grounded_init.
Qed.

(** What the cell at position [k] of [session] brings about, and the [m]
    cells after it keep, holds in every session that ends among these
    cells. *)
Lemma session_established (Q : State -> Prop) (k m : nat) (c : State -> Res State) :
  session i u !! k = Some c ->
  (forall st st', upto i u k = Ok st -> c st = Ok st' -> Q st') ->
  Forall (fun c => forall st st', grounded i st -> Q st -> c st = Ok st' -> Q st')
    (take m (drop (S k) (session i u))) ->
  forall n st, S k <= n -> n <= S k + m \/ length (session i u) <= S k + m ->
    upto i u n = Ok st -> Q st.
Proof.
  intros Hk Hest Hkeep n st Hn Hm Hrun.
  replace n with (S k + (n - S k)) in Hrun by lia.
  destruct (upto_add i u (S k) (n - S k) st Hrun) as (s1 & Hs1 & Hrest).
  assert (exists s0, upto i u k = Ok s0 /\ c s0 = Ok s1) as (s0 & Hs0 & Hcell).
  { destruct (upto i u k) as [s0|e] eqn:Hs0.
    - exists s0. split; [reflexivity|]. rewrite <- Hs1. symmetry.
      exact (upto_S i u k c s0 Hk Hs0).
    - exfalso. unfold upto in Hs0, Hs1.
      rewrite (take_S_r _ _ _ Hk), run_cells_app, Hs0 in Hs1. discriminate Hs1. }
  assert (grounded i s1 /\ Q s1) as Hstart
    by (split; [exact (session_grounded _ _ Hs1) | exact (Hest _ _ Hs0 Hcell)]).
  refine (proj2 (run_invariant (fun s => grounded i s /\ Q s) _ _ s1 st Hstart Hrest)).
  assert (take (n - S k) (drop (S k) (session i u))
          = take (n - S k) (take m (drop (S k) (session i u)))) as ->.
  { destruct Hm as [Hm|Hm].
    - rewrite take_take. f_equal. lia.
    - rewrite (take_ge (drop _ _) m) by (rewrite length_drop; lia). reflexivity. }
  apply Forall_take, Forall_lookup. intros j c' Hj s s' [Hg HQ] Hc'. split.
  - apply lookup_take_Some in Hj as [Hj _]. rewrite lookup_drop in Hj.
    exact (proj1 (Forall_lookup _ _) session_keep_grounded _ c' Hj s s' Hg Hc').
  - exact (proj1 (Forall_lookup _ _) Hkeep j c' Hj s s' Hg HQ Hc').
Qed.

End Windows.

(** ** Snapshots and the objects in memory *)




Section InStep.
Context `{Collaborators}.
Variable i : Inputs.
Variable u : User.











End InStep.



(** ** Bad channels, in memory and on disk *)

Ltac file_cell :=
  let st := fresh "st" in let st' := fresh "st'" in
  let Hwf := fresh "Hwf" in let Hlive := fresh "Hlive" in let Hsep := fresh "Hsep" in
  let Hraw := fresh "Hraw" in let Hep := fresh "Hep" in let Hc := fresh "Hc" in
  let Hn := fresh "Hn" in let Hdisk := fresh "Hdisk" in let HF := fresh "HF" in
  intros st st' ((Hwf & Hlive & Hsep) & Hn) Hdisk Hc;
  unfold final_file_marked in Hdisk;
  match type of Hdisk with from_option _ _ ?o => destruct o eqn:HF; [|contradiction] end;
  simpl in Hdisk;
  open_cell Hc; simplify_map_eq; destruct Hn as (Hraw & Hep); infos;
  old_bounds Hwf Hlive; apart Hsep; identities Hraw Hep;
  goal_file; rewrite HF; simpl; first [exact Hdisk | reflexivity].

Section Marked.
Context `{Collaborators}.
Variable i : Inputs.
Variable u : User.

Lemma unmarked_by_cell40 (st st' : State) :
  cell40 st = Ok st' -> marked "epochs_ransac" [] st'.
Proof.
  intros Hc. open_cell Hc. simplify_map_eq. goal_described. reflexivity.
Qed.

Lemma marked_by_cell43 (st st' : State) :
  marked "epochs_ransac" [] st -> cell43 u st = Ok st' ->
  marked "epochs_ransac" (marks (look_final u) []) st'.
Proof.
  intros HD Hc. apply holds_object in HD as (l & X & Hv & Hh & Hb).
  open_cell Hc. simplify_map_eq.
  match goal with Hi : inspect _ _ = Ok _ |- _ =>
    apply inspect_trail in Hi as (recs & _ & _ & _ & _ & Hmarks) end.
  goal_described. rewrite Hmarks, Hb. reflexivity.
Qed.

Lemma run_marked_by_user (n : nat) (st : State) :
  n = 26 -> upto i u n = Ok st -> marked "epochs_ransac" (marks (look_final u) []) st.
Proof.
  intros -> Hrun.
  destruct (upto_add i u 24 2 st Hrun) as (s24 & H24 & Hrest).
  change (take 2 (drop 24 (session i u))) with [cell40; cell43 u] in Hrest.
  change (run_cells [cell40; cell43 u] s24)
    with (s1 ← cell40 s24; s2 ← cell43 u s1; Ok s2) in Hrest.
  destruct (cell40 s24) as [s25|] eqn:H40; [|discriminate].
  cbn [mbind Res_bind] in Hrest.
  destruct (cell43 u s25) as [s26|] eqn:H43; [|discriminate].
  cbn [mbind Res_bind] in Hrest. injection Hrest as <-.
  exact (marked_by_cell43 _ _ (unmarked_by_cell40 _ _ H40) H43).
Qed.

Lemma marked_after_inspection :
  Forall (fun c => forall st st', grounded i st ->
                     marked "epochs_ransac" (marks (look_final u) []) st ->
                     c st = Ok st' -> marked "epochs_ransac" (marks (look_final u) []) st')
    (take 5 (drop 26 (session i u))).
Proof. simpl. each_cell described_cell. Qed.

Lemma run_marked_until_tfr (n : nat) (st : State) :
  26 <= n <= 31 -> upto i u n = Ok st ->
  marked "epochs_ransac" (marks (look_final u) []) st.
Proof.
  intros Hn Hrun. replace n with (26 + (n - 26)) in Hrun by lia.
  destruct (upto_add i u 26 (n - 26) st Hrun) as (s26 & H26 & Hrest).
  assert (grounded i s26 /\ marked "epochs_ransac" (marks (look_final u) []) s26) as Hstart
    by (split; [exact (session_grounded i u _ _ H26)
               | exact (run_marked_by_user 26 s26 eq_refl H26)]).
  refine (proj2 (run_invariant
    (fun s => grounded i s /\ marked "epochs_ransac" (marks (look_final u) []) s)
    _ _ s26 st Hstart Hrest)).
  replace (take (n - 26) (drop 26 (session i u)))
    with (take (n - 26) (take 5 (drop 26 (session i u))))
    by (rewrite take_take; f_equal; lia).
  apply Forall_take, Forall_lookup. intros j c Hj s s' [Hg HQ] Hc. split.
  - apply lookup_take_Some in Hj as [Hj _]. rewrite lookup_drop in Hj.
    exact (proj1 (Forall_lookup _ _) (session_keep_grounded i u) _ c Hj s s' Hg Hc).
  - exact (proj1 (Forall_lookup _ _) marked_after_inspection j c Hj s s' Hg HQ Hc).
Qed.

Lemma file_by_cell47 (chs : list string) (st st' : State) :
  grounded i st -> marked "epochs_ransac" chs st -> cell47 st = Ok st' ->
  final_file_marked i chs st'.
Proof.
  intros ((Hwf & Hlive & Hsep) & Hn) HD Hc.
  apply holds_object in HD as (l & X & Hv & Hh & Hb).
  open_cell Hc. simplify_map_eq. destruct Hn as (Hraw & Hep).
  identities Hraw Hep. goal_file. reflexivity.
Qed.

Lemma file_after_stage6 (chs : list string) :
  Forall (fun c => forall st st', grounded i st -> final_file_marked i chs st ->
                     c st = Ok st' -> final_file_marked i chs st')
    (take 6 (drop 28 (session i u))).
Proof. simpl. each_cell file_cell. Qed.

Lemma run_file_marked (n : nat) (st : State) :
  28 <= n -> upto i u n = Ok st -> final_file_marked i (marks (look_final u) []) st.
Proof.
  intros Hn. apply (session_established i u _ 27 6 cell47 eq_refl); [| |lia|right; simpl; lia].
  - intros s s' Hs. apply file_by_cell47.
    + exact (session_grounded i u _ _ Hs).
    + apply (run_marked_until_tfr 27); [lia | exact Hs].
  - apply file_after_stage6.
Qed.

Lemma marked_by_cell53 (st st' : State) :
  cell53 st = Ok st' -> marked "epochs_ransac" ["Fp1"; "Fp2"] st'.
Proof.
  intros Hc. open_cell Hc. simplify_map_eq. goal_described. reflexivity.
Qed.

Lemma marked_after_tfr :
  Forall (fun c => forall st st', grounded i st -> marked "epochs_ransac" ["Fp1"; "Fp2"] st ->
                     c st = Ok st' -> marked "epochs_ransac" ["Fp1"; "Fp2"] st')
    (take 2 (drop 32 (session i u))).
Proof. simpl. each_cell described_cell. Qed.

Lemma run_marked (n : nat) (st : State) :
  32 <= n -> upto i u n = Ok st -> marked "epochs_ransac" ["Fp1"; "Fp2"] st.
Proof.
  intros Hn. apply (session_established i u _ 31 2 cell53 eq_refl); [| |lia|right; simpl; lia].
  - intros s s' _. apply marked_by_cell53.
  - apply marked_after_tfr.
Qed.

End Marked.

(** X10: the channels marked bad on the final object, in memory and on
    disk, in a session with its plot windows.  Interpolation leaves the
    object bound to [epochs_ransac] with no channel marked; from the final
    inspection to the time-frequency cell the channels marked on it are
    those the user marked in that window, and so it is saved; the
    time-frequency cell marks [Fp1] and [Fp2] instead, after the last
    save, and no cell saves again: once it has run, the object has [Fp1]
    and [Fp2] marked and the last snapshot on disk has what the user
    marked. *)
Theorem tfr_marking_is_not_saved `{Collaborators} (i : Inputs) (u : User)
    (n : nat) (st : State) :
  upto i u n = Ok st ->
  (26 <= n <= 31 -> marked "epochs_ransac" (marks (look_final u) []) st) /\
  (28 <= n -> final_file_marked i (marks (look_final u) []) st) /\
  (32 <= n -> marked "epochs_ransac" ["Fp1"; "Fp2"] st).
Proof.
  intros Hrun. split; [|split]; intros Hn.
  - exact (run_marked_until_tfr i u n st Hn Hrun).
  - exact (run_file_marked i u n st Hn Hrun).
  - exact (run_marked i u n st Hn Hrun).
Qed.

Lemma tfr_marking_is_not_saved_witness :
  exists st,
    @upto Demo.collaborators Demo.inputs Demo.user 34 = Ok st /\
    marked "epochs_ransac" ["Fp1"; "Fp2"] st /\
    final_file_marked Demo.inputs ["Pz"] st.
Proof.
  destruct (is_ok_Ok (@upto Demo.collaborators Demo.inputs Demo.user 34)) as [st E];
    [vm_compute; reflexivity|].
  exists st. split; [exact E|].
  destruct (@tfr_marking_is_not_saved Demo.collaborators Demo.inputs Demo.user 34 st E)
    as (_ & Hfile & Hmem).
  split; [apply Hmem; lia | apply Hfile; lia].
Defined.

(** ** The audit trail, stage after stage *)

Lemma extends_more (X Y Y' : Epochs) (recs : list (nat * string)) :
  extends_ X Y -> drop_log Y' = drop_log Y ++ recs ->
  description (info Y') = description (info Y) -> extends_ X Y'.
Proof.
  intros [Hlog Hdesc] Hrecs Hsame. split.
  - etrans; [exact Hlog|]. rewrite Hrecs. apply prefix_app_r. reflexivity.
  - rewrite Hsame. exact Hdesc.
Qed.

Lemma holds_continues (x y : string) (st : State) :
  continues x y st <->
  exists lx X ly Y, vars st !! x = Some (VEpochs lx) /\ heap st !! lx = Some X /\
                    vars st !! y = Some (VEpochs ly) /\ heap st !! ly = Some Y /\
                    extends_ X Y.
Proof.
  unfold continues. rewrite holds_object. split.
  - intros (lx & X & Hx & HX & HY). apply holds_object in HY as (ly & Y & Hy & HY & He).
    eauto 10.
  - intros (lx & X & ly & Y & Hx & HX & Hy & HY & He). exists lx, X.
    split; [exact Hx|]. split; [exact HX|]. apply holds_object. eauto.
Qed.

Ltac goal_continues :=
  apply holds_continues; eexists _, _, _, _; simpl;
  split; [look; reflexivity|]; split; [look; reflexivity|];
  split; [look; reflexivity|]; split; [look; reflexivity|].

Ltac continues_cell :=
  let st := fresh "st" in let st' := fresh "st'" in
  let Hwf := fresh "Hwf" in let Hlive := fresh "Hlive" in let Hsep := fresh "Hsep" in
  let Hc := fresh "Hc" in let Hn := fresh "Hn" in let HD := fresh "HD" in
  let He := fresh "He" in
  intros st st' ((Hwf & Hlive & Hsep) & Hn) HD Hc;
  apply holds_continues in HD as (? & ? & ? & ? & ? & ? & ? & ? & He);
  open_cell Hc; simplify_map_eq;
  try match goal with Hi : inspect _ _ = Ok _ |- _ =>
    apply inspect_trail in Hi as (? & ? & _ & ? & _ & _) end;
  bounds Hwf; apart Hsep;
  goal_continues;
  first [ exact He
        | eapply extends_more; [exact He | eassumption | assumption]
        | destruct He; split; assumption ].

Section Accumulates.
Context `{Collaborators}.
Variable i : Inputs.
Variable u : User.

Lemma continues_by_cell31 (st st' : State) :
  grounded i st -> cell31 st = Ok st' -> continues "epochs_faster" "epochs_autoreject" st'.
Proof.
  intros ((Hwf & Hlive & Hsep) & Hn) Hc. open_cell Hc. simplify_map_eq.
  match goal with Hp : Autoreject.reject _ _ _ = Ok _ |- _ =>
    apply reject_annotation in Hp as [Hd Hi] end.
  bounds Hwf. goal_continues.
  split; [exact Hd | left; rewrite Hi; reflexivity].
Qed.

Lemma continues_by_cell40 (st st' : State) :
  grounded i st -> cell40 st = Ok st' -> continues "epochs_autoreject" "epochs_ransac" st'.
Proof.
  intros ((Hwf & Hlive & Hsep) & Hn) Hc. open_cell Hc. simplify_map_eq.
  bounds Hwf. goal_continues.
  split; [reflexivity | right]. eexists _, _. split; [eassumption | reflexivity].
Qed.

Lemma continues_after_stage4 :
  Forall (fun c => forall st st', grounded i st ->
                     continues "epochs_faster" "epochs_autoreject" st ->
                     c st = Ok st' -> continues "epochs_faster" "epochs_autoreject" st')
    (take 17 (drop 17 (session i u))).
Proof. simpl. each_cell continues_cell. Qed.

Lemma continues_after_stage5 :
  Forall (fun c => forall st st', grounded i st ->
                     continues "epochs_autoreject" "epochs_ransac" st ->
                     c st = Ok st' -> continues "epochs_autoreject" "epochs_ransac" st')
    (take 9 (drop 25 (session i u))).
Proof. simpl. each_cell continues_cell. Qed.

Lemma run_continues_faster (n : nat) (st : State) :
  17 <= n -> upto i u n = Ok st -> continues "epochs_faster" "epochs_autoreject" st.
Proof.
  intros Hn. apply (session_established i u _ 16 17 cell31 eq_refl); [| |lia|right; simpl; lia].
  - intros s s' Hs. apply continues_by_cell31. exact (session_grounded i u _ _ Hs).
  - apply continues_after_stage4.
Qed.

Lemma run_continues_autoreject (n : nat) (st : State) :
  25 <= n -> upto i u n = Ok st -> continues "epochs_autoreject" "epochs_ransac" st.
Proof.
  intros Hn. apply (session_established i u _ 24 9 cell40 eq_refl); [| |lia|right; simpl; lia].
  - intros s s' Hs. apply continues_by_cell40. exact (session_grounded i u _ _ Hs).
  - apply continues_after_stage5.
Qed.

End Accumulates.

(** C7: whichever cell of the session runs next, plot windows included,
    every object keeps its rejection records; a plot window adds the
    user's records at the end, no other cell adds any; every object keeps
    its description, the one exception being the cell that applies the
    decomposition, which writes the excluded-component count over the
    description the recording came with (no cell has written one before
    it).  An object the cell creates is the one segmentation makes, with
    no record and the [info] of the filtered recording, or starts from the
    records and description of the object the cell was given (the one
    bound to [epochs], to [epochs_faster] or to [epochs_autoreject]) and
    at most adds to them.  Whatever cells run afterwards, the records of
    every object are still there, at the start of its records, and, once
    the decomposition has been applied, so is its description.  So the
    stage outputs accumulate: once autoreject's output is there, it
    carries the records and description of the one bound to
    [epochs_faster], and once RANSAC's output is there, it carries those
    of autoreject's, in every state of the session from then on. *)
Theorem audit_trail_append_only `{Collaborators} (i : Inputs) (u : User) (n : nat)
    (c : State -> Res State) (st st' : State) :
  upto i u n = Ok st -> session i u !! n = Some c -> c st = Ok st' ->
  (forall l X, heap st !! l = Some X ->
     exists X' recs,
       heap st' !! l = Some X' /\ drop_log X' = drop_log X ++ recs /\
       Forall (fun r => r.2 = "USER") recs /\
       (n ∉ epoch_plots -> recs = []) /\
       (description (info X') = description (info X) \/
        n = apply_cell /\
        description (info X) = description (raw_info (recording i)) /\
        exists ica, vars st !! "ica" = Some (VIca ica) /\
          description (info X')
          = Some ("n_components: " +:+ pretty (length (exclude ica))))) /\
  (forall l Y, heap st !! l = None -> heap st' !! l = Some Y ->
     (n = segmentation_cell /\ drop_log Y = [] /\
      exists r, vars st !! "raw_bandpass" = Some (VRaw r) /\ info Y = raw_info r) \/
     (exists x X, parent n = Some x /\ object st x = Ok X /\ extends_ X Y)) /\
  (forall m st2 l Y, upto i u (S n + m) = Ok st2 -> heap st' !! l = Some Y ->
     exists Y2, heap st2 !! l = Some Y2 /\ drop_log Y `prefix_of` drop_log Y2 /\
       (apply_cell <= n -> description (info Y2) = description (info Y))) /\
  (17 <= n -> continues "epochs_faster" "epochs_autoreject" st) /\
  (25 <= n -> continues "epochs_autoreject" "epochs_ransac" st).
Proof.
  intros Hrun Hn Hc. pose proof (session_wf i u n st Hrun) as Hwf.
  split; [|split; [|split; [|split]]].
  - intros l X HX.
    destruct (cells_step_trail i u n c Hn st st' Hwf Hc l X HX)
      as (X' & recs & HX' & Hlog & Huser & Hplot & Hdesc).
    exists X', recs. split; [exact HX'|]. split; [exact Hlog|]. split; [exact Huser|].
    split; [exact Hplot|].
    destruct (decide (n = apply_cell)) as [->|Hne]; [|left; exact (Hdesc Hne)].
    unfold apply_cell in Hn. simpl in Hn. injection Hn as <-.
    assert (pristine i st) as Hp by exact (session_pristine i u st Hrun).
    destruct (ica_apply_audit i st st' Hp Hc l X HX) as (X1 & HX1 & _ & Hd).
    rewrite HX' in HX1. injection HX1 as <-.
    destruct Hd as [Hsame|[Hraw Hset]]; [left; exact Hsame | right; auto].
  - intros l Y HN HY. destruct (decide (n = segmentation_cell)) as [->|Hne].
    + left. unfold segmentation_cell in Hn. simpl in Hn. injection Hn as <-.
      split; [reflexivity|]. exact (segmentation_object st st' Hwf Hc l Y HN HY).
    + right. exact (cells_derive i u n c Hn Hne st st' Hwf Hc l Y HN HY).
  - intros m st2 l Y Hrun2 HY.
    apply (later_cells_keep i u n m st' st2 l Y); [|exact Hrun2|exact HY].
    rewrite (upto_S i u n c st Hn Hrun). exact Hc.
  - intros Hge. exact (run_continues_faster i u n st Hge Hrun).
  - intros Hge. exact (run_continues_autoreject i u n st Hge Hrun).
Qed.

(** In the small session, the interpolation cell: its new object starts
    from the records and description of the object bound to
    [epochs_autoreject], the user's record included. *)
Lemma audit_trail_append_only_witness :
  exists st st',
    @upto Demo.collaborators Demo.inputs Demo.user interpolation_cell = Ok st /\
    @cell40 Demo.collaborators st = Ok st' /\
    (forall l Y, heap st !! l = None -> heap st' !! l = Some Y ->
       exists X, object st "epochs_autoreject" = Ok X /\ extends_ X Y) /\
    continues "epochs_faster" "epochs_autoreject" st /\
    Demo.records_and_flags "epochs_autoreject" st
      = Ok ([(2, "AUTOREJECT"); (0, "USER")], ["Cz"]) /\
    Demo.records_and_flags "epochs_ransac" st'
      = Ok ([(2, "AUTOREJECT"); (0, "USER")], []).
Proof.
  destruct (is_ok_Ok (@upto Demo.collaborators Demo.inputs Demo.user interpolation_cell))
    as [st E]; [vm_compute; reflexivity|].
  destruct (is_ok_Ok (@upto Demo.collaborators Demo.inputs Demo.user (S interpolation_cell)))
    as [st' E25]; [vm_compute; reflexivity|].
  assert (@cell40 Demo.collaborators st = Ok st') as E'.
  { rewrite <- E25. symmetry.
    apply (upto_S Demo.inputs Demo.user interpolation_cell); [reflexivity | exact E]. }
  exists st, st'. split; [exact E|]. split; [exact E'|]. split; [|split; [|split]].
  - intros l Y HN HY.
    destruct (proj1 (proj2 (@audit_trail_append_only Demo.collaborators Demo.inputs Demo.user
                              interpolation_cell (@cell40 Demo.collaborators) st st' E
                              eq_refl E')) l Y HN HY)
      as [[Hseg _]|(x & X & Hx & HX & Hext)]; [discriminate Hseg|].
    injection Hx as <-. exists X. split; [exact HX | exact Hext].
  - apply (proj1 (proj2 (proj2 (proj2
      (@audit_trail_append_only Demo.collaborators Demo.inputs Demo.user
         interpolation_cell (@cell40 Demo.collaborators) st st' E eq_refl E'))))).
    unfold interpolation_cell. lia.
  - apply (bind_Ok (Demo.records_and_flags "epochs_autoreject") _ _ _ E).
    vm_compute. reflexivity.
  - apply (bind_Ok (Demo.records_and_flags "epochs_ransac") _ _ _ E25).
    vm_compute. reflexivity.
Defined.
